(** * Sticker-Management: local store, reorder protocol, image codec, sync

    A shallow embedding of the persistence and synchronisation core of the
    sticker catalogue application, followed by the properties proved of it.

    Part I, the program:
    - [Types]      : src/types.ts
    - [Js]         : the pieces of the JavaScript runtime the code leans on
                     ([Array.prototype.sort], promises, [x || 0])
    - [IndexedDB]  : the object store and the events of a transaction
    - [Storage], [StorageLegacy] : services/storage.ts, the two revisions
                     kept in the tree
    - [App]        : the handlers of App.tsx that touch the listing
    - [ImageCompression] : utils/imageCompression.ts, with the revisions
                     [Sampled], [FullScan] and [Flattening]
    - [GithubSync] : services/githubSync.ts, the revision with the size
                     check and the re-fetch of truncated content
    - [Spec]       : the vocabulary in which the properties are stated
    - [Editor], [ItemCard] : components/StickerEditor.tsx and
                     components/StickerItemCard.tsx, the handlers that edit
                     the open collection
    - [Invariants] : what the listing, the store and the editor keep
    - [Examples]   : concrete catalogues and environments

    Part II, the properties: sorting, the listing returned by the store,
    transactions, the swap, the import, the selection, the size and the
    format of compressed images, upload and download; then single writes
    and deletion, the store as a mirror of the listing, the editor, the
    canvas, and the requests of the sync service.

    JavaScript numbers that the code only uses as integers (order values,
    timestamps, pixel counts, byte sizes) are modelled in [Z]; quotients
    are modelled in [Q].  Promises are modelled by the state they end in;
    the platform (storage engine, network, image decoder, dialogs) is a
    parameter of every operation that consults it. *)

From Stdlib Require Import ZArith QArith Qround Ascii String List Lia.
From stdpp Require Import base option list gmap strings pretty sorting.

Local Open Scope Z_scope.

(* ===================================================================== *)
(** * src/types.ts *)
(* ===================================================================== *)

Module Types.

Inductive CollectionStatus := IDEATION | IN_PROGRESS | ARCHIVED.

Inductive SetType := Sticker | Emoji.

Record StickerItem := mkItem {
  item_id : string;
  originalOrder : Z;
  name : string;
  imageUrl : option string
}.

(** [order] is declared [number], yet records written before the field
    existed, and imported records, may lack it: the code tests
    [a.order !== undefined] and [typeof s.order === 'number'].  [None]
    stands for an [order] that is absent (or not a number). *)
Record StickerSet := mkSet {
  id : string;
  order : option Z;
  title : string;
  enTitle : string;
  series : string;
  zhDesc : string;
  enDesc : string;
  storeUrl : string;
  status : CollectionStatus;
  type : SetType;
  itemCount : Z;
  createdAt : Z;
  items : list StickerItem
}.

(** [{ ...s, order: o }] *)
Definition with_order (o : option Z) (s : StickerSet) : StickerSet :=
  mkSet (id s) o (title s) (enTitle s) (series s) (zhDesc s) (enDesc s)
        (storeUrl s) (status s) (type s) (itemCount s) (createdAt s)
        (items s).

#[global] Instance CollectionStatus_eq_dec : EqDecision CollectionStatus.
Proof. solve_decision. Defined.

#[global] Instance SetType_eq_dec : EqDecision SetType.
Proof. solve_decision. Defined.

#[global] Instance StickerItem_eq_dec : EqDecision StickerItem.
Proof. solve_decision. Defined.

#[global] Instance StickerSet_eq_dec : EqDecision StickerSet.
Proof. solve_decision. Defined.

End Types.
Export Types.

(* ===================================================================== *)
(** * JavaScript runtime *)
(* ===================================================================== *)

Module Js.

(** [Array.prototype.sort(cmp)].  The standard asks for a stable sort: with
    a consistent comparator every conforming engine returns the same array,
    the one computed here by stable insertion ([x] goes before the first
    [y] with [cmp x y <= 0]). *)
Section Sort.
Context {A : Type} (cmp : A → A → Z).

Fixpoint insert (x : A) (l : list A) : list A :=
  match l with
  | [] => [x]
  | y :: l' => if cmp x y <=? 0 then x :: y :: l' else y :: insert x l'
  end.

Fixpoint sort (l : list A) : list A :=
  match l with
  | [] => []
  | x :: l' => insert x (sort l')
  end.

End Sort.

(** [x || 0] on a number that may be undefined. *)
Definition orZero (o : option Z) : Z :=
  match o with Some z => z | None => 0 end.

(** A promise settles once; later calls of [resolve] or [reject] are
    ignored.  [Pending] at the end of a run is a promise that never
    settles: code awaiting it never resumes. *)
Inductive PromiseState := Pending | Resolved | Rejected.

Definition resolve (p : PromiseState) : PromiseState :=
  match p with Pending => Resolved | _ => p end.

Definition reject (p : PromiseState) : PromiseState :=
  match p with Pending => Rejected | _ => p end.

#[global] Instance PromiseState_eq_dec : EqDecision PromiseState.
Proof. solve_decision. Defined.

End Js.

(* ===================================================================== *)
(** * IndexedDB: one object store with [keyPath: 'id'] *)
(* ===================================================================== *)

Module IndexedDB.

Abbreviation ObjectStore := (gmap string StickerSet).

(** [store.put(s)]: insert or overwrite under the record's [id]. *)
Definition put (s : StickerSet) (db : ObjectStore) : ObjectStore :=
  <[id s := s]> db.

(** The records of a batch, put one after the other. *)
Definition putAll (batch : list StickerSet) (db : ObjectStore) : ObjectStore :=
  foldl (λ acc s, put s acc) db batch.

Definition keyCmp (a b : StickerSet) : Z :=
  match String.compare (id a) (id b) with
  | Lt => -1
  | Eq => 0
  | Gt => 1
  end.

(** [store.getAll()]: every record, in ascending key order. *)
Definition getAll (db : ObjectStore) : list StickerSet :=
  Js.sort keyCmp (map_to_list db).*2.

(** The events a read-write transaction delivers to the handlers that the
    code registers.  A request's [error] event bubbles to the transaction
    ([TransactionError]); the code never calls [preventDefault], so the
    transaction then aborts and every request still queued fails too. *)
Inductive Event :=
  | RequestSuccess (i : nat)
  | RequestError (i : nat)
  | TransactionError
  | TransactionComplete
  | TransactionAbort.

#[global] Instance Event_eq_dec : EqDecision Event.
Proof. solve_decision. Defined.

(** What the storage engine decides: which requests succeed, and whether
    the commit that follows them reaches the disk.  A failed commit (quota,
    I/O) aborts the transaction with an [abort] event and no [error]
    event. *)
Record Behaviour := mkBehaviour {
  requestOk : nat → bool;
  commitOk : bool
}.

Fixpoint requestEvents (ok : nat → bool) (i todo : nat) (aborting : bool)
  : list Event :=
  match todo with
  | O => []
  | S todo' =>
      if aborting then
        RequestError i :: TransactionError :: requestEvents ok (S i) todo' true
      else if ok i then
        RequestSuccess i :: requestEvents ok (S i) todo' false
      else
        RequestError i :: TransactionError :: requestEvents ok (S i) todo' true
  end.

(** A transaction of [n] requests commits when each request succeeds and
    the commit does. *)
Definition commits (bh : Behaviour) (n : nat) : bool :=
  forallb (requestOk bh) (seq 0 n) && commitOk bh.

Definition events (bh : Behaviour) (n : nat) : list Event :=
  requestEvents (requestOk bh) 0 n false
    ++ [if commits bh n then TransactionComplete else TransactionAbort].

(** The store once the transaction has finished: all of its writes, or
    none. *)
Definition finish (bh : Behaviour) (n : nat)
    (writes : ObjectStore → ObjectStore) (db : ObjectStore) : ObjectStore :=
  if commits bh n then writes db else db.

(** Handlers run event by event. *)
Definition deliver {St : Type} (handler : Event → St → St)
    (evs : list Event) (s : St) : St :=
  foldl (λ acc e, handler e acc) s evs.

End IndexedDB.

(* ===================================================================== *)
(** * services/storage.ts *)
(* ===================================================================== *)

(** The revision that App.tsx is written against (it exports
    [clearAllStickerSets]): every write settles on the transaction's own
    events. *)
Module Storage.
Import Js IndexedDB.

(** [transaction.oncomplete = () => resolve()] and
    [transaction.onerror = () => reject(...)]. *)
Definition onTransactionEvent (e : Event) (p : PromiseState) : PromiseState :=
  match e with
  | TransactionComplete => resolve p
  | TransactionError => reject p
  | _ => p
  end.

Definition saveStickerSet (bh : Behaviour) (s : StickerSet) (db : ObjectStore)
  : PromiseState * ObjectStore :=
  (deliver onTransactionEvent (events bh 1) Pending, finish bh 1 (put s) db).

Definition saveStickerSets (bh : Behaviour) (sets : list StickerSet)
    (db : ObjectStore) : PromiseState * ObjectStore :=
  let n := length sets in
  if (n =? 0)%nat then (Resolved, db)
  else (deliver onTransactionEvent (events bh n) Pending,
        finish bh n (putAll sets) db).

(** The comparator of [getAllStickerSets]. *)
Definition compareSets (a b : StickerSet) : Z :=
  match order a, order b with
  | Some oa, Some ob => oa - ob
  | _, _ => createdAt b - createdAt a
  end.

(** [None] when the read request fails and the promise rejects. *)
Definition getAllStickerSets (bh : Behaviour) (db : ObjectStore)
  : option (list StickerSet) :=
  if requestOk bh 0 then Some (Js.sort compareSets (getAll db)) else None.

Definition deleteStickerSet (bh : Behaviour) (k : string) (db : ObjectStore)
  : PromiseState * ObjectStore :=
  (deliver onTransactionEvent (events bh 1) Pending,
   finish bh 1 (delete k) db).

Definition clearAllStickerSets (bh : Behaviour) (db : ObjectStore)
  : PromiseState * ObjectStore :=
  (deliver onTransactionEvent (events bh 1) Pending,
   finish bh 1 (λ _, ∅) db).

End Storage.

(** The earlier revision, src/services/storage.ts: [saveStickerSets] counts
    the requests that succeeded and resolves with the last of them. *)
Module StorageLegacy.
Import Js IndexedDB.

Record SaveState := mkSaveState {
  completed : nat;
  errors : bool;
  promise : PromiseState
}.

Definition onEvent (n : nat) (e : Event) (s : SaveState) : SaveState :=
  match e with
  | RequestSuccess _ =>
      let c := S (completed s) in
      mkSaveState c (errors s)
        (if (c =? n)%nat then resolve (promise s) else promise s)
  | RequestError _ => mkSaveState (completed s) true (promise s)
  | TransactionComplete =>
      if errors s then s
      else mkSaveState (completed s) (errors s) (resolve (promise s))
  | TransactionError =>
      mkSaveState (completed s) (errors s) (reject (promise s))
  | TransactionAbort => s
  end.

Definition saveStickerSets (bh : Behaviour) (sets : list StickerSet)
    (db : ObjectStore) : PromiseState * ObjectStore :=
  let n := length sets in
  if (n =? 0)%nat then (Resolved, db)
  else (promise (deliver (onEvent n) (events bh n)
                   (mkSaveState 0 false Pending)),
        finish bh n (putAll sets) db).

(** Lines 29-39 and 94-104: the single-record writes settle on the events
    of their request. *)
Definition onRequestEvent (e : Event) (p : PromiseState) : PromiseState :=
  match e with
  | RequestSuccess _ => resolve p
  | RequestError _ => reject p
  | _ => p
  end.

Definition saveStickerSet (bh : Behaviour) (s : StickerSet) (db : ObjectStore)
  : PromiseState * ObjectStore :=
  (deliver onRequestEvent (events bh 1) Pending, finish bh 1 (put s) db).

Definition deleteStickerSet (bh : Behaviour) (k : string) (db : ObjectStore)
  : PromiseState * ObjectStore :=
  (deliver onRequestEvent (events bh 1) Pending, finish bh 1 (delete k) db).

End StorageLegacy.

(* ===================================================================== *)
(** * App.tsx: the handlers that read or write the listing *)
(* ===================================================================== *)

Module App.
Import Js IndexedDB.

Inductive Alert :=
  | SwapSaveFailed            (* "交換位置儲存失敗，請重試" *)
  | NoCloudBackup             (* "雲端還沒有備份資料。" *)
  | DownloadSucceeded (n : nat)
  | DownloadFailed
  | ImportEmptyContent        (* "檔案讀取錯誤（內容為空）。" *)
  | ImportSucceeded (restore : bool) (n : nat)
  | ImportBadFormat           (* "檔案格式錯誤。" *)
  | ImportFailed.             (* "匯入失敗：檔案損毀或格式不符。" *)

(** The component state the handlers touch ([sets], [swapSourceId]), the
    alerts shown so far, and the database behind the storage service. *)
Record State := mkState {
  sets : list StickerSet;
  swapSourceId : option string;
  alerts : list Alert;
  db : ObjectStore
}.

Definition setSets (l : list StickerSet) (st : State) : State :=
  mkState l (swapSourceId st) (alerts st) (db st).

Definition setSwapSourceId (o : option string) (st : State) : State :=
  mkState (sets st) o (alerts st) (db st).

Definition alert (a : Alert) (st : State) : State :=
  mkState (sets st) (swapSourceId st) (alerts st ++ [a]) (db st).

Definition setDb (d : ObjectStore) (st : State) : State :=
  mkState (sets st) (swapSourceId st) (alerts st) d.

(** [sets.findIndex(s => s.id === k)]; [None] for [-1]. *)
Definition findIndex (k : string) (l : list StickerSet) : option nat :=
  fst <$> list_find (λ s, id s = k) l.

(** The [useEffect] that loads the listing: orders that are missing are
    replaced by the position. *)
Definition normalizeOrders (l : list StickerSet) : list StickerSet :=
  imap (λ idx s,
          with_order (Some (match order s with
                            | Some o => o
                            | None => Z.of_nat idx
                            end)) s) l.

Definition loadOnMount (bh : Behaviour) (st : State) : State :=
  match Storage.getAllStickerSets bh (db st) with
  | Some loadedSets => setSets (normalizeOrders loadedSets) st
  | None => st
  end.

Definition newItems (k : string) : list StickerItem :=
  (λ i, mkItem ("item-" +:+ k +:+ "-" +:+ pretty i)
               (Z.of_nat i + 1)
               ("Image " +:+ pretty (i + 1)%nat)
               None) <$> seq 0 40.

(** The handler reads the clock twice: [now] is the [Date.now()] of line
    214, which becomes the id, and [createdNow] the one of line 231, which
    becomes [createdAt]. *)
Definition handleCreateNew (bh : Behaviour) (now createdNow : Z)
    (defaultSeries : string) (st : State) : State :=
  let k := pretty now in
  let newSet :=
    mkSet k (Some (-1)) "Nouvelle Collection" "New Collection" defaultSeries
          "" "" "" IDEATION Sticker 40 createdNow (newItems k) in
  let updatedSets :=
    (λ s, with_order (Some (orZero (order s) + 1)) s) <$> sets st in
  let finalSets := with_order (Some 0) newSet :: updatedSets in
  match Storage.saveStickerSets bh finalSets (db st) with
  | (Resolved, db') => setSets finalSets (setDb db' st)
  | (_, db') => setDb db' st
  end.

Definition handleSaveSet (bh : Behaviour) (updatedSet : StickerSet)
    (st : State) : State :=
  match Storage.saveStickerSet bh updatedSet (db st) with
  | (Resolved, db') =>
      setSets ((λ s, if decide (id s = id updatedSet) then updatedSet else s)
                 <$> sets st)
              (setDb db' st)
  | (_, db') => setDb db' st
  end.

Definition handleDeleteSet (bh : Behaviour) (k : string) (st : State) : State :=
  match Storage.deleteStickerSet bh k (db st) with
  | (Resolved, db') =>
      let st1 := setSets (filter (λ s, id s ≠ k) (sets st)) (setDb db' st) in
      if decide (swapSourceId st = Some k) then setSwapSourceId None st1
      else st1
  | (_, db') => setDb db' st
  end.

(** Lines 277-288: the two order values change places in a copy of the
    listing, which is then sorted by [(a.order || 0) - (b.order || 0)]. *)
Definition swapCmp (a b : StickerSet) : Z :=
  orZero (order a) - orZero (order b).

Definition swapOrders (indexA indexB : nat) (l : list StickerSet)
  : list StickerSet :=
  let newSets := l in
  match newSets !! indexA, newSets !! indexB with
  | Some a, Some b =>
      let orderA := orZero (order a) in
      let orderB := orZero (order b) in
      let newSets1 := <[indexA := with_order (Some orderB) a]> newSets in
      match newSets1 !! indexB with
      | Some b1 => <[indexB := with_order (Some orderA) b1]> newSets1
      | None => newSets1
      end
  | _, _ => newSets
  end.

(** The listing the swap would persist, when both ids are found. *)
Definition swapResult (src k : string) (l : list StickerSet)
  : option (list StickerSet) :=
  match findIndex src l, findIndex k l with
  | Some indexA, Some indexB => Some (Js.sort swapCmp (swapOrders indexA indexB l))
  | _, _ => None
  end.

Definition handleSwapClick (bh : Behaviour) (k : string) (st : State) : State :=
  match swapSourceId st with
  | None => setSwapSourceId (Some k) st
  | Some src =>
      if decide (src = k) then setSwapSourceId None st
      else
        match swapResult src k (sets st) with
        | Some sortedSets =>
            match Storage.saveStickerSets bh sortedSets (db st) with
            | (Resolved, db') =>
                setSwapSourceId None (setSets sortedSets (setDb db' st))
            | (Rejected, db') =>
                setSwapSourceId None (alert SwapSaveFailed (setDb db' st))
            | (Pending, db') => setDb db' st
            end
        | None => setSwapSourceId None st
        end
  end.

(** [downloaded] is what [githubSync.download()] settles with ([None]: it
    rejected); the login check and the confirmation dialog are passed. *)
Definition handleDownloadFromGist (bh : Behaviour)
    (downloaded : option (list StickerSet)) (st : State) : State :=
  match downloaded with
  | None => alert DownloadFailed st
  | Some remoteSets =>
      if (length remoteSets =? 0)%nat then alert NoCloudBackup st
      else
        match Storage.saveStickerSets bh remoteSets (db st) with
        | (Resolved, db') =>
            alert (DownloadSucceeded (length remoteSets))
                  (setSets remoteSets (setDb db' st))
        | (Rejected, db') => alert DownloadFailed (setDb db' st)
        | (Pending, db') => setDb db' st
        end
  end.

(** What the file reader and [JSON.parse] hand to the import. *)
Inductive FileContent :=
  | EmptyContent
  | Unparsable
  | NotAnArray
  | JsonArray (data : list StickerSet).

(** The two confirmation dialogs and the three transactions of an import. *)
Record ImportEnv := mkImportEnv {
  confirmImport : bool;
  shouldClear : bool;
  clearTx : Behaviour;
  saveTx : Behaviour;
  readTx : Behaviour
}.

(** Lines 502-505. *)
Definition cleanData (data : list StickerSet) : list StickerSet :=
  imap (λ idx s,
          with_order (Some (match order s with
                            | Some o => o
                            | None => Z.of_nat idx
                            end)) s) data.

(** Lines 496-507: the optional clear, then the bulk write. *)
Definition importWrites (env : ImportEnv) (data : list StickerSet)
    (d : ObjectStore) : PromiseState * ObjectStore :=
  let '(p1, d1) :=
    if shouldClear env then Storage.clearAllStickerSets (clearTx env) d
    else (Resolved, d) in
  match p1 with
  | Resolved =>
      if (0 <? length data)%nat
      then Storage.saveStickerSets (saveTx env) (cleanData data) d1
      else (Resolved, d1)
  | _ => (p1, d1)
  end.

Definition handleFileImport (env : ImportEnv) (content : FileContent)
    (st : State) : State :=
  match content with
  | EmptyContent => alert ImportEmptyContent st
  | Unparsable => alert ImportFailed st
  | NotAnArray => alert ImportBadFormat st
  | JsonArray data =>
      if confirmImport env then
        match importWrites env data (db st) with
        | (Resolved, d2) =>
            match Storage.getAllStickerSets (readTx env) d2 with
            | Some refreshedSets =>
                alert (ImportSucceeded (shouldClear env) (length data))
                      (setSets refreshedSets (setDb d2 st))
            | None => alert ImportFailed (setDb d2 st)
            end
        | (Rejected, d2) => alert ImportFailed (setDb d2 st)
        | (Pending, d2) => setDb d2 st
        end
      else st
  end.

(** The user's actions on the listing page, each with what the environment
    answers while it runs. *)
Inductive Action :=
  | Click (bh : Behaviour) (k : string)
  | Delete (bh : Behaviour) (k : string)
  | Create (bh : Behaviour) (now createdNow : Z) (defaultSeries : string)
  | Save (bh : Behaviour) (updatedSet : StickerSet)
  | Download (bh : Behaviour) (downloaded : option (list StickerSet))
  | Import (env : ImportEnv) (content : FileContent).

Definition step (a : Action) (st : State) : State :=
  match a with
  | Click bh k => handleSwapClick bh k st
  | Delete bh k => handleDeleteSet bh k st
  | Create bh now createdNow ser => handleCreateNew bh now createdNow ser st
  | Save bh s => handleSaveSet bh s st
  | Download bh r => handleDownloadFromGist bh r st
  | Import env c => handleFileImport env c st
  end.

Definition run (acts : list Action) (st : State) : State :=
  foldl (λ acc a, step a acc) st acts.

End App.

(* ===================================================================== *)
(** * utils/imageCompression.ts *)
(* ===================================================================== *)

Module ImageCompression.

Inductive Mime := ImagePng | ImageJpeg.

(** What the canvas is filled with before the image is drawn. *)
Inductive Fill := NoFill | White (* '#ffffff' *) | WarmPaper (* '#FDFBF7' *).

Inductive Error := FailedToReadFile | FailedToLoadImage | NoCanvasContext.

(** A decoded image: its natural size, and the RGBA bytes that
    [getImageData] reads back once the image is drawn on a fresh canvas of
    the given size ([None] when [getImageData] throws). *)
Record Decoded := mkDecoded {
  naturalWidth : Z;
  naturalHeight : Z;
  rendered : Z → Z → option (list Z)
}.

(** The browser: how a data URL decodes ([None]: [img.onerror]), and
    whether [getContext('2d')] gives a context. *)
Record Env := mkEnv {
  decode : string → option Decoded;
  context2d : bool
}.

(** A picked file: its MIME type and the data URL the reader produces
    ([None]: [reader.onerror]). *)
Record File := mkFile {
  file_type : string;
  file_dataUrl : option string
}.

(** The encoder's input: [canvas.toDataURL(mime, quality)] on a canvas of
    [width] by [height] pixels. *)
Record Output := mkOutput {
  mime : Mime;
  width : Z;
  height : Z;
  fill : Fill;
  quality : Q
}.

Inductive Result := Encoded (o : Output) | Failed (e : Error).

(** [(height * maxWidth) / width] *)
Definition scaledHeight (height maxWidth width : Z) : Q :=
  inject_Z (height * maxWidth) / inject_Z width.

(** Lines 85-92: the size asked of the canvas. *)
Definition targetSize (img : Decoded) (maxWidth : Z) : Q * Q :=
  let width := naturalWidth img in
  let height := naturalHeight img in
  if maxWidth <? width
  then (inject_Z maxWidth, scaledHeight height maxWidth width)
  else (inject_Z width, inject_Z height).

Definition truncate (x : Q) : Z := Z.quot (Qnum x) (Zpos (Qden x)).

(** [canvas.width = x] and [canvas.height = x]: the attribute is an
    unsigned long limited to non-negative numbers, so the fraction is
    dropped, and a value outside [0, 2^31 - 1] gives the default size. *)
Definition canvasDimension (default : Z) (x : Q) : Z :=
  let t := truncate x mod 2 ^ 32 in
  if t <=? 2147483647 then t else default.

Definition canvasSize (img : Decoded) (maxWidth : Z) : Z * Z :=
  let '(w, h) := targetSize img maxWidth in
  (canvasDimension 300 w, canvasDimension 150 h).

(** The loop of [hasTransparency]:
    [for (let i = 3; i < data.length; i += stride) if (data[i] < 255) return true;]
    [fuel] bounds the number of rounds; [length data] rounds are enough. *)
Fixpoint alphaLoop (stride : nat) (data : list Z) (i fuel : nat) : bool :=
  match fuel with
  | O => false
  | S fuel' =>
      match data !! i with
      | Some a => if a <? 255 then true
                  else alphaLoop stride data (i + stride) fuel'
      | None => false
      end
  end.

(** [None] is the [catch]: "assume it has transparency to be safe". *)
Definition hasTransparencyWith (stride : nat) (imageData : option (list Z))
  : bool :=
  match imageData with
  | Some data => alphaLoop stride data 3 (length data)
  | None => true
  end.

Definition isPNG (dataUrl : string) : bool :=
  String.prefix "data:image/png" dataUrl.

(** src/utils/imageCompression.ts, first revision: one alpha byte in a
    hundred is looked at ("sampling for performance"). *)
Module Sampled.

Definition hasTransparency := hasTransparencyWith 400.

Definition compressImage (env : Env) (file : File) (maxWidth : Z) (q : Q)
  : Result :=
  match file_dataUrl file with
  | None => Failed FailedToReadFile
  | Some url =>
      match decode env url with
      | None => Failed FailedToLoadImage
      | Some img =>
          let '(w, h) := canvasSize img maxWidth in
          if negb (context2d env) then Failed NoCanvasContext
          else if String.eqb (file_type file) "image/png"
                  && hasTransparency (rendered img w h)
          then Encoded (mkOutput ImagePng w h NoFill q)
          else Encoded (mkOutput ImageJpeg w h NoFill q)
      end
  end.

Definition compressExistingImage (env : Env) (dataUrl : string) (maxWidth : Z)
    (q : Q) : Result :=
  match decode env dataUrl with
  | None => Failed FailedToLoadImage
  | Some img =>
      let '(w, h) := canvasSize img maxWidth in
      if negb (context2d env) then Failed NoCanvasContext
      else if isPNG dataUrl && hasTransparency (rendered img w h)
      then Encoded (mkOutput ImagePng w h NoFill q)
      else Encoded (mkOutput ImageJpeg w h White q)
  end.

End Sampled.

(** The revision that scans every pixel ("Check ALL pixels' alpha channel
    (not just sampling)"). *)
Module FullScan.

Definition hasTransparency := hasTransparencyWith 4.

Definition compressExistingImage (env : Env) (dataUrl : string) (maxWidth : Z)
    (q : Q) : Result :=
  match decode env dataUrl with
  | None => Failed FailedToLoadImage
  | Some img =>
      let '(w, h) := canvasSize img maxWidth in
      if negb (context2d env) then Failed NoCanvasContext
      else if isPNG dataUrl && hasTransparency (rendered img w h)
      then Encoded (mkOutput ImagePng w h NoFill q)
      else Encoded (mkOutput ImageJpeg w h White q)
  end.

End FullScan.

(** src/utils/imageCompression.ts, second revision: "All images are now
    converted to JPEG with page background color". *)
Module Flattening.

Definition compressImage (env : Env) (file : File) (maxWidth : Z) (q : Q)
  : Result :=
  match file_dataUrl file with
  | None => Failed FailedToReadFile
  | Some url =>
      match decode env url with
      | None => Failed FailedToLoadImage
      | Some img =>
          let '(w, h) := canvasSize img maxWidth in
          if negb (context2d env) then Failed NoCanvasContext
          else Encoded (mkOutput ImageJpeg w h WarmPaper q)
      end
  end.

Definition compressExistingImage (env : Env) (dataUrl : string) (maxWidth : Z)
    (q : Q) : Result :=
  match decode env dataUrl with
  | None => Failed FailedToLoadImage
  | Some img =>
      let '(w, h) := canvasSize img maxWidth in
      if negb (context2d env) then Failed NoCanvasContext
      else Encoded (mkOutput ImageJpeg w h WarmPaper q)
  end.

End Flattening.

End ImageCompression.

(* ===================================================================== *)
(** * services/githubSync.ts (the revision with the size check, the
      re-fetch of truncated content and the HTML test) *)
(* ===================================================================== *)

Module GithubSync.

Definition GIST_FILENAME : string := "sticker-sets.json".

Definition BACKUP_DESCRIPTION : string := "L'Atelier de Stickers - Backup".

(** One file of a gist as the metadata endpoint describes it. *)
Record GistFile := mkGistFile {
  content : string;
  truncated : bool;
  raw_url : string
}.

Record Gist := mkGist {
  gist_id : string;
  description : string;
  files : gmap string GistFile
}.

Inductive Request :=
  | GetUser (token : string)
  | ListGists (token : string)
  | GetGist (token gistId : string)
  | GetRaw (token url : string)
  | CreateGist (token description filename body : string)
  | UpdateGist (token gistId filename body : string).

(** What [response.json()] gives.  [JsonOther] is an object of another
    shape: the fields the service reads of it are [undefined].  [JsonNull]
    is [null], or a body that is not JSON: reading it throws. *)
Inductive Json :=
  | JsonGist (g : Gist)
  | JsonGists (l : list Gist)
  | JsonError (message : option string)
  | JsonOther
  | JsonNull.

Record Response := mkResponse {
  ok : bool;
  status : Z;
  text : string;
  json : Json
}.

(** What [JSON.parse] followed by [Array.isArray] can give. *)
Inductive Parsed :=
  | ParsedArray (data : list StickerSet)
  | ParsedOther                   (* valid JSON, not an array *)
  | SyntaxErrorUnexpectedEnd      (* "Unterminated ..." / "Unexpected end ..." *)
  | SyntaxErrorOther.

(** The platform: the network ([None]: [fetch] rejects), [JSON.stringify]
    with two spaces, [JSON.parse], and the byte size of a [Blob]. *)
Record Env := mkEnv {
  fetch : Request → option Response;
  stringify : list StickerSet → string;
  parse : string → Parsed;
  blobSize : string → Z
}.

Record State := mkState {
  token : option string;
  gistId : option string
}.

Inductive SyncError :=
  | NotLoggedIn                   (* "未登入 GitHub" *)
  | LoginFailed                   (* "GitHub 登入失敗" *)
  | FormatFailed                  (* "資料格式化失敗" *)
  | SizeLimit (sizeInBytes : Z)   (* "資料太大 ... 超過 GitHub Gist 10MB 限制" *)
  | RemoteTooLarge                (* "上傳失敗：資料超過 GitHub 限制" *)
  | UploadFailed                  (* "上傳失敗：..." *)
  | TokenExpired                  (* "Token 已過期" *)
  | TokenForbidden                (* "Token 權限不足" *)
  | ListFailed (status : Z)       (* "無法取得 Gist 列表" *)
  | HttpError (status : Z)
  | RawFetchFailed (status : Z)   (* "無法獲取完整內容" *)
  | HtmlContent                   (* "保存了 HTML 而不是 JSON" *)
  | NotAnArray                    (* "下載的資料格式不正確（應該是陣列）" *)
  | TruncatedJson                 (* "下載的資料不完整，可能在上傳時被截斷" *)
  | MalformedJson                 (* "下載的資料格式錯誤" *)
  | UnexpectedResponse            (* a body of another shape: a TypeError *)
  | NetworkFailure.

Inductive Effect :=
  | Fetched (r : Request)
  | Warned (sizeInBytes : Z).

(** An operation settles with a value or an error, leaves the service in a
    state, and has performed some effects. *)
Record Outcome (A : Type) := mkOutcome {
  result : A + SyncError;
  final : State;
  trace : list Effect
}.
Arguments mkOutcome {A} _ _ _.
Arguments result {A} _.
Arguments final {A} _.
Arguments trace {A} _.

(** [!this.token], [!this.gistId]: an empty string counts as absent. *)
Definition present (o : option string) : option string :=
  match o with
  | Some s => if String.eqb s "" then None else Some s
  | None => None
  end.

Definition login (env : Env) (tok : string) (st : State) : Outcome unit :=
  match fetch env (GetUser tok) with
  | Some r =>
      if ok r then mkOutcome (inl ()) (mkState (Some tok) (gistId st))
                             [Fetched (GetUser tok)]
      else mkOutcome (inr LoginFailed) st [Fetched (GetUser tok)]
  | None => mkOutcome (inr LoginFailed) st [Fetched (GetUser tok)]
  end.

Definition logout (st : State) : State := mkState None None.

(** [message.includes(sub)] *)
Definition includes (sub s : string) : bool :=
  bool_decide (is_Some (String.index 0 sub s)).

(** The [catch] of [upload]. *)
Definition uploadError (message : option string) : SyncError :=
  match message with
  | Some m => if includes "too large" m then RemoteTooLarge else UploadFailed
  | None => UploadFailed
  end.

Definition createGist (env : Env) (tok body : string) (st : State)
  : Outcome unit :=
  let req := CreateGist tok BACKUP_DESCRIPTION GIST_FILENAME body in
  match fetch env req with
  | None => mkOutcome (inr UploadFailed) st [Fetched req]
  | Some r =>
      if ok r then
        (* lines 685-687: [this.gistId = gist.id], whatever the body is *)
        match json r with
        | JsonGist g =>
            mkOutcome (inl ()) (mkState (token st) (Some (gist_id g)))
                      [Fetched req]
        | JsonNull => mkOutcome (inr UploadFailed) st [Fetched req]
        | _ => mkOutcome (inl ()) (mkState (token st) None) [Fetched req]
        end
      else
        match json r with
        | JsonError m => mkOutcome (inr (uploadError m)) st [Fetched req]
        | _ => mkOutcome (inr UploadFailed) st [Fetched req]
        end
  end.

Definition updateGist (env : Env) (tok gid body : string) (st : State)
  : Outcome unit :=
  let req := UpdateGist tok gid GIST_FILENAME body in
  match fetch env req with
  | None => mkOutcome (inr UploadFailed) st [Fetched req]
  | Some r =>
      if ok r then mkOutcome (inl ()) st [Fetched req]
      else
        match json r with
        | JsonError m => mkOutcome (inr (uploadError m)) st [Fetched req]
        | _ => mkOutcome (inr UploadFailed) st [Fetched req]
        end
  end.

(** [sizeInBytes / (1024 * 1024)] *)
Definition sizeInMB (sizeInBytes : Z) : Q :=
  inject_Z sizeInBytes / inject_Z (1024 * 1024).

(** [a > b] on numbers. *)
Definition gt (a b : Q) : bool := negb (Qle_bool a b).

(** Lines 461-468: update the cached gist, or create one. *)
Definition send (env : Env) (tok body : string) (st : State) : Outcome unit :=
  match present (gistId st) with
  | Some gid => updateGist env tok gid body st
  | None => createGist env tok body st
  end.

Definition upload (env : Env) (stickerSets : list StickerSet) (st : State)
  : Outcome unit :=
  match present (token st) with
  | None => mkOutcome (inr NotLoggedIn) st []
  | Some tok =>
      let body := stringify env stickerSets in
      match parse env body with
      | ParsedArray _ =>
          let sizeInBytes := blobSize env body in
          let mb := sizeInMB sizeInBytes in
          if gt mb 10 then mkOutcome (inr (SizeLimit sizeInBytes)) st []
          else
            let warning := if gt mb 5 then [Warned sizeInBytes] else [] in
            let sent := send env tok body st in
            mkOutcome (result sent) (final sent) (warning ++ trace sent)
      | _ => mkOutcome (inr FormatFailed) st []
      end
  end.

(** [findGistByDescription]: the first gist whose description is the
    backup's. *)
Definition findGistByDescription (env : Env) (tok : string) (st : State)
  : Outcome unit :=
  let req := ListGists tok in
  match fetch env req with
  | None => mkOutcome (inr NetworkFailure) st [Fetched req]
  | Some r =>
      if ok r then
        match json r with
        | JsonGists gists =>
            match list_find (λ g, description g = BACKUP_DESCRIPTION) gists with
            | Some (_, backupGist) =>
                mkOutcome (inl ()) (mkState (token st) (Some (gist_id backupGist)))
                          [Fetched req]
            | None => mkOutcome (inl ()) st [Fetched req]
            end
        | _ => mkOutcome (inr UnexpectedResponse) st [Fetched req]
        end
      else if decide (status r = 401) then
        mkOutcome (inr TokenExpired) st [Fetched req]
      else if decide (status r = 403) then
        mkOutcome (inr TokenForbidden) st [Fetched req]
      else mkOutcome (inr (ListFailed (status r))) st [Fetched req]
  end.

(** The white space that [trim] removes, within ASCII. *)
Definition isSpace (c : ascii) : bool :=
  let n := nat_of_ascii c in
  ((9 <=? n) && (n <=? 13) || (n =? 32))%nat.

Fixpoint trimStart (s : string) : string :=
  match s with
  | String c s' => if isSpace c then trimStart s' else s
  | EmptyString => EmptyString
  end.

(** Lines 546-589, once the content is chosen.  Only the front of
    [content.trim()] matters to the tests made on it. *)
Definition interpret (env : Env) (text : string)
  : list StickerSet + SyncError :=
  if String.eqb (trimStart text) "" then inl []
  else if String.prefix "<!DOCTYPE" (trimStart text)
          || String.prefix "<html" (trimStart text)
  then inr HtmlContent
  else
    match parse env text with
    | ParsedArray data => inl data
    | ParsedOther => inr NotAnArray
    | SyntaxErrorUnexpectedEnd => inr TruncatedJson
    | SyntaxErrorOther => inr MalformedJson
    end.

(** Lines 524-544: the content of the file, fetched again from [raw_url]
    when the metadata marks it truncated. *)
Definition fileContent (env : Env) (tok : string) (file : GistFile)
  : (string + SyncError) * list Effect :=
  if truncated file then
    let req := GetRaw tok (raw_url file) in
    match fetch env req with
    | None => (inr NetworkFailure, [Fetched req])
    | Some rawResponse =>
        if ok rawResponse then (inl (text rawResponse), [Fetched req])
        else (inr (RawFetchFailed (status rawResponse)), [Fetched req])
    end
  else (inl (content file), []).

(** The part of [download] that follows the discovery scan. *)
Definition downloadGist (env : Env) (tok gid : string) (st : State)
  : Outcome (list StickerSet) :=
  let req := GetGist tok gid in
  match fetch env req with
  | None => mkOutcome (inr NetworkFailure) st [Fetched req]
  | Some response =>
      if ok response then
        match json response with
        | JsonGist gist =>
            match files gist !! GIST_FILENAME with
            | None => mkOutcome (inl []) st [Fetched req]
            | Some file =>
                let '(c, fx) := fileContent env tok file in
                match c with
                | inl text =>
                    mkOutcome (interpret env text) st (Fetched req :: fx)
                | inr e => mkOutcome (inr e) st (Fetched req :: fx)
                end
            end
        | _ => mkOutcome (inr UnexpectedResponse) st [Fetched req]
        end
      else if decide (status response = 404) then
        mkOutcome (inl []) (mkState (token st) None) [Fetched req]
      else if decide (status response = 401) then
        mkOutcome (inr TokenExpired) st [Fetched req]
      else mkOutcome (inr (HttpError (status response))) st [Fetched req]
  end.

(** Lines 487-490: the discovery scan, when no id is cached. *)
Definition locate (env : Env) (tok : string) (st : State) : Outcome unit :=
  match present (gistId st) with
  | None => findGistByDescription env tok st
  | Some _ => mkOutcome (inl ()) st []
  end.

Definition download (env : Env) (st : State) : Outcome (list StickerSet) :=
  match present (token st) with
  | None => mkOutcome (inr NotLoggedIn) st []
  | Some tok =>
      let found := locate env tok st in
      match result found with
      | inr e => mkOutcome (inr e) (final found) (trace found)
      | inl _ =>
          match present (gistId (final found)) with
          | None => mkOutcome (inl []) (final found) (trace found)
          | Some gid =>
              let got := downloadGist env tok gid (final found) in
              mkOutcome (result got) (final got) (trace found ++ trace got)
          end
      end
  end.

End GithubSync.

(* ===================================================================== *)
(** * The vocabulary of the specification *)
(* ===================================================================== *)

Module Spec.
Import Js IndexedDB.

(** The records a store holds, in no particular order. *)
Definition records (db : ObjectStore) : list StickerSet := (map_to_list db).*2.

Definition hasOrder (s : StickerSet) : Prop := is_Some (order s).

Definition ascendingByOrder (l : list StickerSet) : Prop :=
  StronglySorted (λ a b, match order a, order b with
                         | Some oa, Some ob => oa <= ob
                         | _, _ => False
                         end) l.

Definition descendingByCreatedAt (l : list StickerSet) : Prop :=
  StronglySorted (λ a b, createdAt b <= createdAt a) l.

(** The ordering policy of [getAll] as the specification words it. *)
Definition orderingPolicy (l : list StickerSet) : Prop :=
  (Forall hasOrder l → ascendingByOrder l)
  ∧ (¬ Forall hasOrder l → descendingByCreatedAt l).

(** [l] is in comparator order: no element is compared greater than a
    later one. *)
Definition ordered {A : Type} (cmp : A → A → Z) (l : list A) : Prop :=
  StronglySorted (λ x y, cmp x y <= 0) l.

(** The promise behind a run of handlers is resolved only once the
    transaction has completed: whenever it is resolved after some of the
    events, [TransactionComplete] is one of them. *)
Definition resolvesOnlyAfterCommit {St : Type} (handler : Event → St → St)
    (promiseOf : St → PromiseState) (init : St) (evs : list Event) : Prop :=
  ∀ pre post, evs = pre ++ post →
    promiseOf (deliver handler pre init) = Resolved →
    TransactionComplete ∈ pre.

(** [s'] is [s] in every field but [order]. *)
Definition sameButOrder (s s' : StickerSet) : Prop :=
  id s' = id s ∧ title s' = title s ∧ enTitle s' = enTitle s
  ∧ series s' = series s ∧ zhDesc s' = zhDesc s ∧ enDesc s' = enDesc s
  ∧ storeUrl s' = storeUrl s ∧ status s' = status s ∧ type s' = type s
  ∧ itemCount s' = itemCount s ∧ createdAt s' = createdAt s
  ∧ items s' = items s.


(** The order values of a store, as a multiset. *)
Definition orderValues (db : ObjectStore) : list (option Z) :=
  order <$> records db.

(** The listing is what the store holds under the same ids. *)
Definition listingStored (l : list StickerSet) (db : ObjectStore) : Prop :=
  ∀ s, s ∈ l → db !! id s = Some s.

(** [Math.round]: the nearest integer, halves upwards. *)
Definition round (x : Q) : Z := Qfloor (x + (1 # 2)).

(** [round(h * maxWidth / w)], the height the specification asks for. *)
Definition roundedHeight (w h maxWidth : Z) : Z :=
  round (inject_Z h * inject_Z maxWidth / inject_Z w).

(** The size the compression is bound to, for a source of [w] by [h]. *)
Definition sizeBound (w h maxWidth outW outH : Z) : Prop :=
  (maxWidth < w →
     outW = maxWidth ∧ Z.abs (outH - roundedHeight w h maxWidth) <= 1)
  ∧ (w <= maxWidth → outW = w ∧ outH = h).

(** The image has a pixel that is not fully opaque. *)
Definition hasAlphaPixel (data : list Z) : Prop :=
  ∃ (p : nat) (a : Z), data !! (4 * p + 3)%nat = Some a ∧ a < 255.

(** A card only exists for a collection of the listing, and the editor only
    saves the collection it was opened on: these actions name an [id] that
    the listing holds. *)
Definition enabled (a : App.Action) (st : App.State) : Prop :=
  match a with
  | App.Click _ k => k ∈ id <$> App.sets st
  | App.Delete _ k => k ∈ id <$> App.sets st
  | App.Save _ s => id s ∈ id <$> App.sets st
  | _ => True
  end.

(** The actions that change the listing collection by collection; the
    other two replace it wholesale. *)
Definition editsListing (a : App.Action) : Prop :=
  match a with
  | App.Click _ _ | App.Delete _ _ | App.Create _ _ _ _ | App.Save _ _ => True
  | App.Download _ _ | App.Import _ _ => False
  end.

(** The selection, when there is one, names a collection of the listing. *)
Definition selectionListed (st : App.State) : Prop :=
  ∀ k, App.swapSourceId st = Some k → k ∈ id <$> App.sets st.

Section Embedded.
Import GithubSync.

(** The same platform, except that the metadata endpoint embeds [c] as the
    content of every file it marks truncated. *)
Definition embed (c : string) (file : GistFile) : GistFile :=
  if truncated file then mkGistFile c true (raw_url file) else file.

Definition embedInResponse (c : string) (r : Response) : Response :=
  match json r with
  | JsonGist g =>
      mkResponse (ok r) (status r) (text r)
        (JsonGist (mkGist (gist_id g) (description g) (embed c <$> files g)))
  | _ => r
  end.

Definition withEmbedded (c : string) (env : Env) : Env :=
  mkEnv (λ req, match req with
                | GetGist _ _ => embedInResponse c <$> fetch env req
                | _ => fetch env req
                end)
        (stringify env) (parse env) (blobSize env).

End Embedded.

End Spec.


(* ===================================================================== *)
(** * components/StickerEditor.tsx *)
(* ===================================================================== *)

Module Editor.

(** [{ ...s, items }] and [{ ...s, itemCount, items }] *)
Definition with_items (l : list StickerItem) (s : StickerSet) : StickerSet :=
  mkSet (id s) (order s) (title s) (enTitle s) (series s) (zhDesc s) (enDesc s)
        (storeUrl s) (status s) (type s) (itemCount s) (createdAt s) l.

Definition with_count_items (n : Z) (l : list StickerItem) (s : StickerSet)
  : StickerSet :=
  mkSet (id s) (order s) (title s) (enTitle s) (series s) (zhDesc s) (enDesc s)
        (storeUrl s) (status s) (type s) n (createdAt s) l.

(** The component state the handlers touch. *)
Record State := mkState {
  editedSet : StickerSet;
  selectedItemId : option string
}.

(** [Partial<StickerItem>]: the fields an update carries.  For [imageUrl]
    the update [{ imageUrl: undefined }] is [Some None]. *)
Record Updates := mkUpdates {
  u_id : option string;
  u_originalOrder : option Z;
  u_name : option string;
  u_imageUrl : option (option string)
}.

(** [{ ...item, ...updates }] *)
Definition applyUpdates (updates : Updates) (item : StickerItem) : StickerItem :=
  mkItem (default (item_id item) (u_id updates))
         (default (originalOrder item) (u_originalOrder updates))
         (default (name item) (u_name updates))
         (default (imageUrl item) (u_imageUrl updates)).

Definition handleUpdateItem (k : string) (updates : Updates) (st : State)
  : State :=
  mkState
    (with_items ((λ item, if decide (item_id item = k)
                          then applyUpdates updates item else item)
                   <$> items (editedSet st))
                (editedSet st))
    (selectedItemId st).

(** [items.findIndex(i => i.id === k)] *)
Definition findIndex (k : string) (l : list StickerItem) : option nat :=
  fst <$> list_find (λ i, item_id i = k) l.

(** Lines 37-46: the two items change places in a copy of the sequence. *)
Definition swapItems (selected k : string) (l : list StickerItem)
  : list StickerItem :=
  match findIndex selected l, findIndex k l with
  | Some indexA, Some indexB =>
      match l !! indexA, l !! indexB with
      | Some temp, Some other => <[indexB := temp]> (<[indexA := other]> l)
      | _, _ => l
      end
  | _, _ => l
  end.

Definition handleItemClick (k : string) (st : State) : State :=
  match selectedItemId st with
  | None => mkState (editedSet st) (Some k)
  | Some selected =>
      if decide (selected = k) then mkState (editedSet st) None
      else mkState (with_items (swapItems selected k (items (editedSet st)))
                               (editedSet st))
                   None
  end.

(** [l.slice(0, n)] *)
Definition slice0 (n : Z) (l : list StickerItem) : list StickerItem :=
  let len := Z.of_nat (length l) in
  let stop := if n <? 0 then Z.max (len + n) 0 else Z.min n len in
  take (Z.to_nat stop) l.

(** Lines 72-76; [now i] is [Date.now()] when the [i]-th item is made. *)
Definition additionalItems (now : nat → Z) (len diff : nat) : list StickerItem :=
  (λ i, mkItem ("new-" +:+ pretty (now i) +:+ "-" +:+ pretty i)
               (Z.of_nat (len + i + 1))
               ("Image " +:+ pretty (len + i + 1)%nat)
               None) <$> seq 0 diff.

Definition handleCountChange (now : nat → Z) (newCount : Z) (st : State)
  : State :=
  let prev := editedSet st in
  let len := length (items prev) in
  let newItems :=
    if newCount <? Z.of_nat len then slice0 newCount (items prev)
    else if Z.of_nat len <? newCount
    then items prev
         ++ additionalItems now len (Z.to_nat (newCount - Z.of_nat len))
    else items prev in
  mkState (with_count_items newCount newItems prev) (selectedItemId st).

(** What the user does to the open collection. *)
Inductive Action :=
  | UpdateItem (k : string) (updates : Updates)
  | ItemClick (k : string)
  | CountChange (now : nat → Z) (newCount : Z).

Definition step (a : Action) (st : State) : State :=
  match a with
  | UpdateItem k u => handleUpdateItem k u st
  | ItemClick k => handleItemClick k st
  | CountChange now n => handleCountChange now n st
  end.

Definition run (acts : list Action) (st : State) : State :=
  foldl (λ acc a, step a acc) st acts.

(** [handleSaveClick]: [onSave] is [handleSaveSet] of App.tsx; a rejection
    is caught and reported ([true]: "儲存失敗，請重試"). *)
Definition handleSaveClick (bh : IndexedDB.Behaviour) (st : State)
    (app : App.State) : App.State * bool :=
  match Storage.saveStickerSet bh (editedSet st) (App.db app) with
  | (Js.Rejected, _) => (App.handleSaveSet bh (editedSet st) app, true)
  | _ => (App.handleSaveSet bh (editedSet st) app, false)
  end.

End Editor.

(* ===================================================================== *)
(** * components/StickerItemCard.tsx *)
(* ===================================================================== *)

Module ItemCard.
Import ImageCompression.

Inductive Alert :=
  | NotAnImage      (* "請上傳圖片檔案" *)
  | UploadFailed.   (* "圖片上傳失敗，請重試" *)

(** The platform of the card: the compression it imports (called with 800
    and 0.85) and the string that [canvas.toDataURL] makes of a canvas. *)
Record Env := mkEnv {
  compressImage : File → Z → Q → Result;
  toDataURL : Output → string
}.

(** Lines 19-36: only image files are compressed; the compressed image
    replaces the item's; a failure is reported and changes nothing. *)
Definition handleFileUpload (env : Env) (file : File) (item : StickerItem)
    (st : Editor.State) : Editor.State * list Alert :=
  if negb (String.prefix "image/" (file_type file)) then (st, [NotAnImage])
  else
    match compressImage env file 800 (85 # 100) with
    | Encoded o =>
        (Editor.handleUpdateItem (item_id item)
           (Editor.mkUpdates None None None (Some (Some (toDataURL env o))))
           st, [])
    | Failed _ => (st, [UploadFailed])
    end.

(** [handleDelete], once the dialog is confirmed. *)
Definition handleDelete (item : StickerItem) (st : Editor.State)
  : Editor.State :=
  Editor.handleUpdateItem (item_id item)
    (Editor.mkUpdates None None None (Some None)) st.

End ItemCard.

(* ===================================================================== *)
(** * Invariants of the catalogue *)
(* ===================================================================== *)

Module Invariants.
Import IndexedDB.

(** The listing and the store hold the same collections, one per id. *)
Definition mirrored (st : App.State) : Prop :=
  NoDup (id <$> App.sets st) ∧ App.db st = putAll (App.sets st) ∅.

(** The actions that edit the listing, with what the page guarantees when
    they run: the clock gives a new collection an id that no listed
    collection has, and the editor saves a collection of the listing. *)
Definition applicable (a : App.Action) (st : App.State) : Prop :=
  match a with
  | App.Click _ _ | App.Delete _ _ => True
  | App.Create _ now _ _ => pretty now ∉ id <$> App.sets st
  | App.Save _ s => id s ∈ id <$> App.sets st
  | App.Download _ _ | App.Import _ _ => False
  end.

(** Every record sits under its own id, as [keyPath: 'id'] makes it. *)
Definition keyedById (db : ObjectStore) : Prop :=
  ∀ k r, db !! k = Some r → id r = k.

(** The declared number of items is the number of items. *)
Definition countConsistent (s : StickerSet) : Prop :=
  itemCount s = Z.of_nat (length (items s)).

(** Counts come from the selector of the editor: they are not negative. *)
Definition countAction (a : Editor.Action) : Prop :=
  match a with
  | Editor.CountChange _ n => 0 <= n
  | _ => True
  end.

(** The last record of a batch with a given id. *)
Definition lastWithId (k : string) (batch : list StickerSet)
  : option StickerSet :=
  snd <$> list_find (λ s, id s = k) (reverse batch).

(** The pixels that the sampling scan looks at: every hundredth. *)
Definition hasSampledAlphaPixel (data : list Z) : Prop :=
  ∃ (p : nat) (a : Z), data !! (400 * p + 3)%nat = Some a ∧ a < 255.

End Invariants.

(* ===================================================================== *)
(** * Concrete catalogues and environments *)
(* ===================================================================== *)

Module Examples.
Import Js IndexedDB.

Definition collection (k : string) (o : option Z) (created : Z) : StickerSet :=
  mkSet k o "" "" "" "" "" "" IDEATION Sticker 0 created [].

Definition setA : StickerSet := collection "a" (Some 0) 1.

Definition setB : StickerSet := collection "b" (Some 1) 2.

(** A record written before the [order] field existed. *)
Definition legacyC : StickerSet := collection "c" None 0.

(** An engine on which every request and every commit succeeds. *)
Definition engineOk : Behaviour := mkBehaviour (λ _, true) true.

(** Every request succeeds, the commit does not. *)
Definition commitFails : Behaviour := mkBehaviour (λ _, true) false.

(** The first request is refused. *)
Definition requestFails : Behaviour := mkBehaviour (λ _, false) true.

Definition mixedDb : ObjectStore := putAll [setA; setB; legacyC] ∅.

(** A younger record without [order]. *)
Definition legacyD : StickerSet := collection "d" None 5.

(** A store in which every record has an order, and one in which none
    has. *)
Definition orderedDb : ObjectStore := putAll [setB; setA] ∅.

Definition legacyDb : ObjectStore := putAll [legacyC; legacyD] ∅.

(** A listing of two collections, mirrored by the store, nothing
    selected. *)
Definition listedAB : App.State :=
  App.mkState [setA; setB] None [] (putAll [setA; setB] ∅).

(** The same with [setA] selected as the source of a swap. *)
Definition selectedA : App.State :=
  App.mkState [setA; setB] (Some "a"%string) [] (putAll [setA; setB] ∅).

(** An import that the user confirms twice (restore), on an engine that
    accepts everything. *)
Definition restoreEnv : App.ImportEnv :=
  App.mkImportEnv true true engineOk engineOk engineOk.

(** A backup of five collections; the second and the fourth lack [order]. *)
Definition backup : list StickerSet :=
  [collection "p" (Some 7) 10; collection "q" None 11;
   collection "r" (Some 3) 12; collection "s" None 13;
   collection "t" (Some 5) 14].

(** A state whose store holds three collections unrelated to the backup. *)
Definition threeStored : App.State :=
  App.mkState [setA; setB; legacyC] None [] mixedDb.

(** One collection listed, nothing selected. *)
Definition onlyA : App.State :=
  App.mkState [setA] None [] (putAll [setA] ∅).

(** A PNG of two pixels in a row: the first opaque, the second fully
    transparent. *)
Definition twoPixels : list Z := [0; 0; 0; 255; 0; 0; 0; 0].

Definition pngUrl : string := "data:image/png;base64,iVBORw0KGgo=".

Definition twoPixelPng : ImageCompression.Decoded :=
  ImageCompression.mkDecoded 2 1 (λ _ _, Some twoPixels).

(** A browser that decodes every data URL to that image. *)
Definition browser : ImageCompression.Env :=
  ImageCompression.mkEnv (λ _, Some twoPixelPng) true.

(** A source of 2000 by 1001 pixels. *)
Definition wide : ImageCompression.Decoded :=
  ImageCompression.mkDecoded 2000 1001 (λ _ _, Some []).

Definition wideBrowser : ImageCompression.Env :=
  ImageCompression.mkEnv (λ _, Some wide) true.

Definition pickedFile : ImageCompression.File :=
  ImageCompression.mkFile "image/png" (Some pngUrl).

(** A platform on which the catalogue serializes to [size] bytes and the
    network accepts every request. *)
Definition cloud (size : Z) : GithubSync.Env :=
  GithubSync.mkEnv
    (λ _, Some (GithubSync.mkResponse true 200 ""
                  (GithubSync.JsonGist (GithubSync.mkGist "g1" "" ∅))))
    (λ _, "[]"%string)
    (λ _, GithubSync.ParsedArray [])
    (λ _, size).

Definition loggedIn : GithubSync.State :=
  GithubSync.mkState (Some "token"%string) None.

(** A backup whose metadata carries a cut copy of the content and marks it
    truncated; the raw location serves the whole content. *)
Definition cutFile : GithubSync.GistFile :=
  GithubSync.mkGistFile "[{" true "https://gist.example/raw".

Definition backupGist : GithubSync.Gist :=
  GithubSync.mkGist "g1" GithubSync.BACKUP_DESCRIPTION
    {[ GithubSync.GIST_FILENAME := cutFile ]}.

Definition fullText : string := "[{...},{...}]".

Definition remote : GithubSync.Env :=
  GithubSync.mkEnv
    (λ req, match req with
            | GithubSync.GetGist _ _ =>
                Some (GithubSync.mkResponse true 200 ""
                        (GithubSync.JsonGist backupGist))
            | GithubSync.GetRaw _ _ =>
                Some (GithubSync.mkResponse true 200 fullText
                        GithubSync.JsonOther)
            | _ => None
            end)
    (λ _, "[]"%string)
    (λ t, if String.eqb t fullText then GithubSync.ParsedArray [setA; setB]
          else GithubSync.SyntaxErrorUnexpectedEnd)
    (λ _, 0).

Definition synced : GithubSync.State :=
  GithubSync.mkState (Some "token"%string) (Some "g1"%string).

End Examples.
(* ===================================================================== *)
(** * Sorting *)
(* ===================================================================== *)

Section SortFacts.
Context {A : Type} (cmp : A → A → Z).

Lemma insert_Permutation (x : A) (l : list A) : Js.insert cmp x l ≡ₚ x :: l.
Proof.
  induction l as [|y l IH]; simpl; [done|].
  destruct (cmp x y <=? 0); [done|].
  rewrite IH. apply Permutation_swap.
Qed.

Lemma sort_Permutation (l : list A) : Js.sort cmp l ≡ₚ l.
Proof.
  induction l as [|x l IH]; simpl; [done|].
  by rewrite insert_Permutation, IH.
Qed.

Lemma sort_length (l : list A) : length (Js.sort cmp l) = length l.
Proof. apply Permutation_length, sort_Permutation. Qed.

Lemma elem_of_sort (x : A) (l : list A) : x ∈ Js.sort cmp l ↔ x ∈ l.
Proof. by rewrite sort_Permutation. Qed.

(** When the comparator agrees with an integer key on the elements that
    satisfy [P], sorting a list of such elements orders it by the key. *)
Section Keyed.
Context (P : A → Prop) (key : A → Z).
Hypothesis cmp_key : ∀ a b, P a → P b → (cmp a b <= 0 ↔ key a <= key b).

Lemma insert_sorted_by_key (x : A) (l : list A) :
  P x → Forall P l →
  StronglySorted (λ a b, key a <= key b) l →
  StronglySorted (λ a b, key a <= key b) (Js.insert cmp x l).
Proof using cmp_key.
  intros Hx HP Hs. induction Hs as [|y l Hs IH Hy]; simpl.
  - repeat constructor.
  - apply Forall_cons in HP as [Py Pl].
    destruct (Z.leb_spec (cmp x y) 0) as [Hle|Hgt].
    + apply cmp_key in Hle; [|done..].
      constructor; [by constructor|].
      constructor; [done|].
      eapply Forall_impl; [exact Hy|]. simpl. intros; lia.
    + assert (key y <= key x) as Hyx.
      { destruct (Z.le_gt_cases (key x) (key y)) as [H|H]; [|lia].
        apply cmp_key in H; [lia|done..]. }
      constructor; [by apply IH|].
      rewrite insert_Permutation. by constructor.
Qed.

Lemma sort_sorted_by_key (l : list A) :
  Forall P l → StronglySorted (λ a b, key a <= key b) (Js.sort cmp l).
Proof using cmp_key.
  induction 1 as [|x l Hx Hl IH]; simpl; [constructor|].
  apply insert_sorted_by_key; [done| |done].
  by rewrite sort_Permutation.
Qed.

End Keyed.
End SortFacts.

Lemma StronglySorted_weaken {A : Type} (P : A → Prop) (R R' : A → A → Prop)
    (l : list A) :
  (∀ a b, P a → P b → R a b → R' a b) →
  Forall P l → StronglySorted R l → StronglySorted R' l.
Proof.
  intros HR HP Hs. induction Hs as [|x l Hs IH Hx]; [constructor|].
  apply Forall_cons in HP as [Px Pl].
  constructor; [by apply IH|].
  rewrite Forall_forall in *. intros y Hy. apply HR; auto.
Qed.

(* ===================================================================== *)
(** * getAllStickerSets: the ordering of the listing *)
(* ===================================================================== *)

Section GetAll.
Import Js IndexedDB Spec.

Lemma getAll_Permutation (db : ObjectStore) : getAll db ≡ₚ records db.
Proof. apply sort_Permutation. Qed.

Lemma compareSets_ordered (a b : StickerSet) :
  hasOrder a → hasOrder b →
  Storage.compareSets a b <= 0 ↔ orZero (order a) <= orZero (order b).
Proof.
  intros [oa Ha] [ob Hb]. unfold Storage.compareSets.
  rewrite Ha, Hb. simpl. lia.
Qed.

Lemma compareSets_legacy (a b : StickerSet) :
  order a = None → order b = None →
  Storage.compareSets a b <= 0 ↔ - createdAt a <= - createdAt b.
Proof.
  intros Ha Hb. unfold Storage.compareSets. rewrite Ha. lia.
Qed.

Lemma sort_compareSets_ascending (l : list StickerSet) :
  Forall hasOrder l → ascendingByOrder (sort Storage.compareSets l).
Proof.
  intros Hl.
  eapply (StronglySorted_weaken hasOrder
            (λ a b, orZero (order a) <= orZero (order b))).
  - intros a b [oa Ha] [ob Hb]. rewrite Ha, Hb. done.
  - by rewrite sort_Permutation.
  - apply (sort_sorted_by_key _ hasOrder); [|done].
    intros a b. apply compareSets_ordered.
Qed.

Lemma sort_compareSets_descending (l : list StickerSet) :
  Forall (λ s, order s = None) l →
  descendingByCreatedAt (sort Storage.compareSets l).
Proof.
  intros Hl.
  eapply (StronglySorted_weaken (λ _, True)
            (λ a b, - createdAt a <= - createdAt b)).
  - intros a b _ _. lia.
  - by apply Forall_true.
  - apply (sort_sorted_by_key _ (λ s, order s = None)); [|done].
    intros a b. apply compareSets_legacy.
Qed.

(** C3, as amended.  A read that succeeds returns every stored collection
    once; the listing ascends by [order] when every collection has one and
    descends by creation time when none has one.  (When only some have
    one the comparator decides pair by pair, and nothing more is
    promised.) *)
Theorem getAll_ordering (bh : Behaviour) (db : ObjectStore) :
  requestOk bh 0 = true →
  ∃ l, Storage.getAllStickerSets bh db = Some l
       ∧ l ≡ₚ records db
       ∧ (Forall hasOrder l → ascendingByOrder l)
       ∧ (Forall (λ s, order s = None) l → descendingByCreatedAt l).
Proof.
  intros Hok. unfold Storage.getAllStickerSets. rewrite Hok.
  eexists; split; [reflexivity|].
  split; [by rewrite sort_Permutation, getAll_Permutation|].
  split; intros Hl.
  - apply sort_compareSets_ascending.
    by rewrite sort_Permutation in Hl.
  - apply sort_compareSets_descending.
    by rewrite sort_Permutation in Hl.
Qed.

Lemma getAll_ordering_witness :
  (∃ l, Storage.getAllStickerSets Examples.engineOk Examples.orderedDb = Some l
        ∧ l ≡ₚ records Examples.orderedDb
        ∧ Forall hasOrder l
        ∧ ascendingByOrder l)
  ∧ (∃ l, Storage.getAllStickerSets Examples.engineOk Examples.legacyDb
          = Some l
          ∧ l ≡ₚ records Examples.legacyDb
          ∧ Forall (λ s, order s = None) l
          ∧ descendingByCreatedAt l).
Proof.
  split.
  - destruct (getAll_ordering Examples.engineOk Examples.orderedDb eq_refl)
      as (l & Hl & Hp & Hasc & _).
    assert (Forall hasOrder l) as Hall.
    { assert (Some l = Some [Examples.setA; Examples.setB]) as Heq
        by (rewrite <- Hl; vm_compute; reflexivity).
      injection Heq as ->.
      apply Forall_cons_2; [by eexists|].
      apply Forall_cons_2; [by eexists|]. apply Forall_nil_2. }
    exists l. split; [exact Hl|]. split; [exact Hp|].
    split; [exact Hall|exact (Hasc Hall)].
  - destruct (getAll_ordering Examples.engineOk Examples.legacyDb eq_refl)
      as (l & Hl & Hp & _ & Hdesc).
    assert (Forall (λ s, order s = None) l) as Hall.
    { assert (Some l = Some [Examples.legacyD; Examples.legacyC]) as Heq
        by (rewrite <- Hl; vm_compute; reflexivity).
      injection Heq as ->.
      apply Forall_cons_2; [done|].
      apply Forall_cons_2; [done|]. apply Forall_nil_2. }
    exists l. split; [exact Hl|]. split; [exact Hp|].
    split; [exact Hall|exact (Hdesc Hall)].
Defined.

(** The two listings of that witness. *)
Example getAll_uniform_listings :
  Storage.getAllStickerSets Examples.engineOk Examples.orderedDb
  = Some [Examples.setA; Examples.setB]
  ∧ Storage.getAllStickerSets Examples.engineOk Examples.legacyDb
    = Some [Examples.legacyD; Examples.legacyC].
Proof. vm_compute. split; reflexivity. Qed.

(** With two ordered collections and one without [order], the listing is
    by [order] among the first two although the policy asks for creation
    time: [setA] is listed before the younger [setB]. *)
Lemma getAll_mixed_listing :
  Storage.getAllStickerSets Examples.engineOk Examples.mixedDb
  = Some [Examples.setA; Examples.setB; Examples.legacyC].
Proof. vm_compute. reflexivity. Qed.

(** C3, the counterexample: the listing of [mixedDb] does not follow the
    ordering policy. *)
Lemma getAll_mixed_orders_counterexample :
  Storage.getAllStickerSets Examples.engineOk Examples.mixedDb
  = Some [Examples.setA; Examples.setB; Examples.legacyC]
  ∧ ¬ orderingPolicy [Examples.setA; Examples.setB; Examples.legacyC].
Proof.
  split; [apply getAll_mixed_listing|].
  intros [_ Hdesc].
  assert (¬ Forall hasOrder [Examples.setA; Examples.setB; Examples.legacyC]) as Hmixed.
  { intros H. apply Forall_cons in H as [_ H]. apply Forall_cons in H as [_ H].
    apply Forall_cons in H as [[o Ho] _]. discriminate Ho. }
  specialize (Hdesc Hmixed).
  apply StronglySorted_inv in Hdesc as [_ Hhd].
  apply Forall_cons in Hhd as [Hab _].
  vm_compute in Hab. by apply Hab.
Qed.

(** The three comparisons of that catalogue agree with one ordering, so
    the listing does not depend on how the engine sorts: it is the only
    arrangement of the three records in comparator order. *)
Lemma getAll_mixed_listing_unique (l : list StickerSet) :
  l ≡ₚ [Examples.setA; Examples.setB; Examples.legacyC] →
  ordered Storage.compareSets l →
  l = [Examples.setA; Examples.setB; Examples.legacyC].
Proof.
  intros Hp Hs.
  pose proof (Permutation_length Hp) as Hlen.
  destruct l as [|x [|y [|z [|]]]]; try discriminate Hlen.
  assert (NoDup [x; y; z]) as Hnd.
  { rewrite Hp. compute_done. }
  assert (x ≠ y ∧ x ≠ z ∧ y ≠ z) as (Hxy & Hxz & Hyz).
  { apply NoDup_cons in Hnd as [Hx Hnd]. apply NoDup_cons in Hnd as [Hy _].
    apply not_elem_of_cons in Hx as [? Hx]. apply not_elem_of_cons in Hx as [? _].
    apply not_elem_of_cons in Hy as [? _]. done. }
  assert (Storage.compareSets x y <= 0 ∧ Storage.compareSets x z <= 0
          ∧ Storage.compareSets y z <= 0) as (Cxy & Cxz & Cyz).
  { apply StronglySorted_inv in Hs as [Hs Hx].
    apply StronglySorted_inv in Hs as [_ Hy].
    apply Forall_cons in Hx as [? Hx]. apply Forall_cons in Hx as [? _].
    apply Forall_cons in Hy as [? _]. done. }
  assert (x ∈ [Examples.setA; Examples.setB; Examples.legacyC]) as Ex
    by (rewrite <- Hp, !elem_of_cons; auto).
  assert (y ∈ [Examples.setA; Examples.setB; Examples.legacyC]) as Ey
    by (rewrite <- Hp, !elem_of_cons; auto).
  assert (z ∈ [Examples.setA; Examples.setB; Examples.legacyC]) as Ez
    by (rewrite <- Hp, !elem_of_cons; auto).
  clear Hp Hs Hnd Hlen.
  repeat match goal with
         | H : _ ∈ _ :: _ |- _ => apply elem_of_cons in H as [->|H]
         | H : _ ∈ [] |- _ => by apply elem_of_nil in H
         end;
    try reflexivity; try congruence; exfalso;
    vm_compute in Cxy, Cxz, Cyz; congruence.
Qed.

End GetAll.

(* ===================================================================== *)
(** * The object store and its transactions *)
(* ===================================================================== *)

Section StoreFacts.
Import Js IndexedDB Spec.

Lemma putAll_cons (s : StickerSet) (l : list StickerSet) (db : ObjectStore) :
  putAll (s :: l) db = putAll l (put s db).
Proof. reflexivity. Qed.

Lemma putAll_lookup_other (l : list StickerSet) (db : ObjectStore) (k : string) :
  k ∉ id <$> l → putAll l db !! k = db !! k.
Proof.
  revert db. induction l as [|s l IH]; intros db Hk; [done|].
  rewrite fmap_cons in Hk. apply not_elem_of_cons in Hk as [Hks Hkl].
  rewrite putAll_cons, IH by done.
  unfold put. by rewrite lookup_insert_ne.
Qed.

Lemma putAll_lookup_elem (l : list StickerSet) (db : ObjectStore) (s : StickerSet) :
  NoDup (id <$> l) → s ∈ l → putAll l db !! id s = Some s.
Proof.
  revert db. induction l as [|x l IH]; intros db Hnd Hs.
  - by apply elem_of_nil in Hs.
  - rewrite fmap_cons in Hnd. apply NoDup_cons in Hnd as [Hx Hnd].
    rewrite putAll_cons. apply elem_of_cons in Hs as [->|Hs].
    + rewrite putAll_lookup_other by done.
      unfold put. by rewrite lookup_insert_eq.
    + by apply IH.
Qed.

Lemma putAll_lookup_Some (l : list StickerSet) (db : ObjectStore)
    (k : string) (s : StickerSet) :
  putAll l db !! k = Some s → s ∈ l ∨ db !! k = Some s.
Proof.
  revert db. induction l as [|x l IH]; intros db Hs; [by right|].
  rewrite putAll_cons in Hs. apply IH in Hs as [Hs|Hs].
  - left. by apply list_elem_of_further.
  - unfold put in Hs. apply lookup_insert_Some in Hs as [[_ <-]|[_ Hs]].
    + left. apply list_elem_of_here.
    + by right.
Qed.

Lemma putAll_as_list_to_map (l : list StickerSet) :
  NoDup (id <$> l) →
  putAll l ∅ = list_to_map ((λ s, (id s, s)) <$> l).
Proof.
  intros Hnd. apply map_eq. intros k.
  destruct (decide (k ∈ id <$> l)) as [Hk|Hk].
  - apply list_elem_of_fmap in Hk as (s & -> & Hs).
    rewrite putAll_lookup_elem by done. symmetry.
    apply elem_of_list_to_map.
    + by rewrite <- list_fmap_compose.
    + apply list_elem_of_fmap. by exists s.
  - rewrite putAll_lookup_other, lookup_empty by done. symmetry.
    apply not_elem_of_list_to_map. by rewrite <- list_fmap_compose.
Qed.

(** A batch of records with distinct ids, put into an empty store, is
    exactly what the store then holds. *)
Lemma records_putAll_empty (l : list StickerSet) :
  NoDup (id <$> l) → records (putAll l ∅) ≡ₚ l.
Proof.
  intros Hnd. unfold records.
  rewrite putAll_as_list_to_map by done.
  rewrite map_to_list_to_map by (by rewrite <- list_fmap_compose).
  rewrite <- list_fmap_compose. by rewrite list_fmap_id.
Qed.

Lemma elem_of_records (db : ObjectStore) (s : StickerSet) :
  db !! id s = Some s → s ∈ records db.
Proof.
  intros Hs. unfold records. apply list_elem_of_fmap.
  exists (id s, s). split; [done|]. by apply elem_of_map_to_list.
Qed.

(** ** Events and promises *)

Lemma deliver_app {St : Type} (h : Event → St → St) (e1 e2 : list Event) (s : St) :
  deliver h (e1 ++ e2) s = deliver h e2 (deliver h e1 s).
Proof. apply foldl_app. Qed.

Lemma requestEvents_all_ok (ok : nat → bool) (i todo : nat) :
  forallb ok (seq i todo) = true →
  requestEvents ok i todo false = RequestSuccess <$> seq i todo.
Proof.
  revert i. induction todo as [|todo IH]; intros i Hall; [done|].
  simpl in *. apply andb_prop in Hall as [Hi Hall].
  rewrite Hi. f_equal. by apply IH.
Qed.

(** The current revision only listens to the transaction. *)
Lemma current_aborting (ok : nat → bool) (i todo : nat) :
  deliver Storage.onTransactionEvent (requestEvents ok i todo true) Rejected
  = Rejected.
Proof.
  revert i. induction todo as [|todo IH]; intros i; [done|].
  simpl. apply IH.
Qed.

Lemma current_requests (ok : nat → bool) (i todo : nat) :
  deliver Storage.onTransactionEvent (requestEvents ok i todo false) Pending
  = if forallb ok (seq i todo) then Pending else Rejected.
Proof.
  revert i. induction todo as [|todo IH]; intros i; [done|].
  simpl. destruct (ok i); simpl.
  - apply IH.
  - apply current_aborting.
Qed.

(** How a write of the current revision settles: resolved when the
    transaction commits, rejected when a request fails, and never when the
    commit itself fails. *)
Lemma current_settles (bh : Behaviour) (n : nat) :
  deliver Storage.onTransactionEvent (events bh n) Pending
  = if commits bh n then Resolved
    else if forallb (requestOk bh) (seq 0 n) then Pending else Rejected.
Proof.
  unfold events, commits. rewrite deliver_app, current_requests.
  destruct (forallb (requestOk bh) (seq 0 n)); simpl; [|done].
  by destruct (commitOk bh).
Qed.

Lemma current_resolved_iff (bh : Behaviour) (n : nat) :
  deliver Storage.onTransactionEvent (events bh n) Pending = Resolved
  ↔ commits bh n = true.
Proof.
  rewrite current_settles. destruct (commits bh n); [done|].
  by destruct (forallb _ _).
Qed.

Lemma current_rejected_not_committed (bh : Behaviour) (n : nat) :
  deliver Storage.onTransactionEvent (events bh n) Pending = Rejected →
  commits bh n = false.
Proof. rewrite current_settles. by destruct (commits bh n). Qed.

(** Whatever the events are, the current handlers resolve on
    [TransactionComplete] only. *)
Lemma current_resolves_on_complete (evs : list Event) (p : PromiseState) :
  deliver Storage.onTransactionEvent evs p = Resolved →
  p = Resolved ∨ TransactionComplete ∈ evs.
Proof.
  revert p. induction evs as [|e evs IH]; intros p Hp; [by left|].
  simpl in Hp. apply IH in Hp as [Hp|Hp].
  - destruct e, p; simpl in Hp; try discriminate; auto;
      right; apply list_elem_of_here.
  - right. by apply list_elem_of_further.
Qed.

Lemma current_resolvesOnlyAfterCommit (evs : list Event) :
  resolvesOnlyAfterCommit Storage.onTransactionEvent (λ p, p) Pending evs.
Proof.
  intros pre post _ Hp.
  by apply current_resolves_on_complete in Hp as [?|?].
Qed.

(** ** The current [saveStickerSets] is all-or-nothing *)

Lemma saveStickerSets_resolved (bh : Behaviour) (sets : list StickerSet)
    (db : ObjectStore) :
  (Storage.saveStickerSets bh sets db).1 = Resolved →
  (Storage.saveStickerSets bh sets db).2 = putAll sets db.
Proof.
  unfold Storage.saveStickerSets.
  destruct (Nat.eqb_spec (length sets) 0) as [Hn|Hn]; simpl.
  - by destruct sets.
  - intros Hc%current_resolved_iff. unfold finish. by rewrite Hc.
Qed.

Lemma saveStickerSets_rejected (bh : Behaviour) (sets : list StickerSet)
    (db : ObjectStore) :
  (Storage.saveStickerSets bh sets db).1 = Rejected →
  (Storage.saveStickerSets bh sets db).2 = db.
Proof.
  unfold Storage.saveStickerSets.
  destruct (Nat.eqb_spec (length sets) 0) as [Hn|Hn]; simpl; [done|].
  intros Hc%current_rejected_not_committed. unfold finish. by rewrite Hc.
Qed.

Lemma saveStickerSets_commits (bh : Behaviour) (sets : list StickerSet)
    (db : ObjectStore) :
  commits bh (length sets) = true →
  Storage.saveStickerSets bh sets db = (Resolved, putAll sets db).
Proof.
  intros Hc. unfold Storage.saveStickerSets.
  destruct (Nat.eqb_spec (length sets) 0) as [Hn|Hn].
  - by destruct sets.
  - f_equal; [by apply current_resolved_iff|]. unfold finish. by rewrite Hc.
Qed.

(** The current revision meets the contract of [putMany]: a resolved write
    made every record of the batch readable, a rejected one left the store
    as it was, no other store is ever seen, and the promise is resolved
    only after the transaction has completed. *)
Lemma saveStickerSets_atomic (bh rd : Behaviour) (sets : list StickerSet)
    (db : ObjectStore) :
  NoDup (id <$> sets) → requestOk rd 0 = true →
  let out := Storage.saveStickerSets bh sets db in
  (out.1 = Resolved →
     ∃ l, Storage.getAllStickerSets rd out.2 = Some l ∧ ∀ s, s ∈ sets → s ∈ l)
  ∧ (out.1 = Rejected → out.2 = db)
  ∧ (out.2 = db ∨ out.2 = putAll sets db)
  ∧ resolvesOnlyAfterCommit Storage.onTransactionEvent (λ p, p) Pending
      (events bh (length sets)).
Proof.
  intros Hnd Hrd out. split_and!.
  - intros Hres. subst out. rewrite saveStickerSets_resolved by done.
    unfold Storage.getAllStickerSets. rewrite Hrd. eexists; split; [done|].
    intros s Hs. rewrite elem_of_sort, getAll_Permutation.
    apply elem_of_records. by apply putAll_lookup_elem.
  - apply saveStickerSets_rejected.
  - subst out. unfold Storage.saveStickerSets.
    destruct (length sets =? 0)%nat; simpl; [by left|].
    unfold finish. destruct (commits _ _); auto.
  - apply current_resolvesOnlyAfterCommit.
Qed.

End StoreFacts.

(* ===================================================================== *)
(** * src/services/storage.ts: the early resolution of [saveStickerSets] *)
(* ===================================================================== *)

Section LegacySave.
Import Js IndexedDB Spec.

Lemma legacy_success_step (n c i : nat) :
  StorageLegacy.onEvent n (RequestSuccess i)
    (StorageLegacy.mkSaveState c false Pending)
  = StorageLegacy.mkSaveState (S c) false
      (if (S c =? n)%nat then Resolved else Pending).
Proof. reflexivity. Qed.

(** Once as many requests have succeeded as the batch has records, the
    promise is resolved, whatever follows. *)
Lemma legacy_counts_successes (n c m i : nat) :
  (0 < m)%nat → (c + m = n)%nat →
  deliver (StorageLegacy.onEvent n) (RequestSuccess <$> seq i m)
    (StorageLegacy.mkSaveState c false Pending)
  = StorageLegacy.mkSaveState n false Resolved.
Proof.
  revert c i. induction m as [|m IH]; intros c i Hm Hn; [lia|].
  change (deliver (StorageLegacy.onEvent n) (RequestSuccess <$> seq i (S m))
            (StorageLegacy.mkSaveState c false Pending))
    with (deliver (StorageLegacy.onEvent n) (RequestSuccess <$> seq (S i) m)
            (StorageLegacy.onEvent n (RequestSuccess i)
               (StorageLegacy.mkSaveState c false Pending))).
  rewrite legacy_success_step.
  destruct (Nat.eqb_spec (S c) n) as [Heq|Hneq].
  - assert (m = 0%nat) as -> by lia. by rewrite <- Heq.
  - apply IH; lia.
Qed.

(** For every batch that is not empty: when each request succeeds, the
    earlier [saveStickerSets] reports success without regard to the
    commit, and with a failed commit the store is what it was. *)
Lemma legacy_resolves_without_commit (bh : Behaviour) (sets : list StickerSet)
    (db : ObjectStore) :
  sets ≠ [] →
  forallb (requestOk bh) (seq 0 (length sets)) = true →
  (StorageLegacy.saveStickerSets bh sets db).1 = Resolved
  ∧ (commitOk bh = false → (StorageLegacy.saveStickerSets bh sets db).2 = db).
Proof.
  intros Hne Hall. unfold StorageLegacy.saveStickerSets.
  destruct (Nat.eqb_spec (length sets) 0) as [Hn|Hn]; [by destruct sets|].
  simpl. split.
  - unfold events. rewrite deliver_app, requestEvents_all_ok by done.
    rewrite (legacy_counts_successes _ 0) by lia.
    by destruct (commits bh (length sets)).
  - intros Hc. unfold finish, commits. by rewrite Hc, andb_false_r.
Qed.

(** C1, at the failing input.  In src/services/storage.ts the promise of
    [saveStickerSets] is resolved by the success event of the last request,
    before the transaction has completed; when the commit then fails, the
    caller was told the batch is saved and a later read returns none of
    it.  (On the same engine the later revision never reports success.) *)
Theorem legacy_saveStickerSets_resolves_before_commit :
  events Examples.engineOk 1 = [RequestSuccess 0; TransactionComplete]
  ∧ StorageLegacy.promise
      (deliver (StorageLegacy.onEvent 1) [RequestSuccess 0]
         (StorageLegacy.mkSaveState 0 false Pending)) = Resolved
  ∧ ¬ resolvesOnlyAfterCommit (StorageLegacy.onEvent 1) StorageLegacy.promise
        (StorageLegacy.mkSaveState 0 false Pending)
        (events Examples.engineOk 1)
  ∧ StorageLegacy.saveStickerSets Examples.commitFails [Examples.setA] ∅
    = (Resolved, ∅)
  ∧ Storage.getAllStickerSets Examples.engineOk ∅ = Some []
  ∧ Storage.saveStickerSets Examples.commitFails [Examples.setA] ∅
    = (Pending, ∅).
Proof.
  split_and!; try (vm_compute; reflexivity).
  intros Honly.
  specialize (Honly [RequestSuccess 0] [TransactionComplete] eq_refl eq_refl).
  apply list_elem_of_singleton in Honly. discriminate Honly.
Qed.

End LegacySave.

(* ===================================================================== *)
(** * The reorder protocol: handleSwapClick *)
(* ===================================================================== *)

Section ListFacts.
Context {A : Type}.

Lemma insert_Permutation_delete (l : list A) (i : nat) (x y : A) :
  l !! i = Some x → <[i:=y]> l ≡ₚ y :: delete i l.
Proof.
  revert i. induction l as [|z l IH]; intros [|i] Hi; try done.
  simpl in *. rewrite (IH i Hi). apply Permutation_swap.
Qed.

(** Writing [y] where [x] was and [x] where [y] was keeps the multiset. *)
Lemma exchange_Permutation (l : list A) (i j : nat) (x y : A) :
  i ≠ j → l !! i = Some x → l !! j = Some y →
  <[j:=x]> (<[i:=y]> l) ≡ₚ l.
Proof.
  revert i j. induction l as [|z l IH]; intros [|i] [|j] Hij Hi Hj;
    try done; simpl in *.
  - injection Hi as ->.
    rewrite (insert_Permutation_delete l j y x Hj).
    rewrite (delete_Permutation l j y Hj) at 2. apply Permutation_swap.
  - injection Hj as ->.
    rewrite (insert_Permutation_delete l i x y Hi).
    rewrite (delete_Permutation l i x Hi) at 2. apply Permutation_swap.
  - rewrite (IH i j) by (done || lia). done.
Qed.

Lemma elem_of_insert_inv (l : list A) (i : nat) (x y : A) :
  x ∈ <[i:=y]> l → x = y ∨ x ∈ l.
Proof.
  intros (j & Hj)%list_elem_of_lookup_1.
  apply list_lookup_insert_Some in Hj as [(-> & -> & _)|[_ Hj]]; [by left|].
  right. by eapply list_elem_of_lookup_2.
Qed.

End ListFacts.

Section SwapFacts.
Import Js IndexedDB Spec.

Lemma with_order_id (o : option Z) (s : StickerSet) : id (with_order o s) = id s.
Proof. reflexivity. Qed.

Lemma with_order_order (o : option Z) (s : StickerSet) :
  order (with_order o s) = o.
Proof. reflexivity. Qed.

Lemma with_order_sameButOrder (o : option Z) (s : StickerSet) :
  sameButOrder s (with_order o s).
Proof. by repeat split. Qed.


(** Ids identify the collections of a listing without duplicates. *)
Lemma same_id_same_set (l : list StickerSet) (a x : StickerSet) :
  NoDup (id <$> l) → a ∈ l → x ∈ l → id x = id a → x = a.
Proof.
  intros Hnd (i & Hi)%list_elem_of_lookup_1 (j & Hj)%list_elem_of_lookup_1 Hid.
  assert (i = j) as ->.
  { eapply (NoDup_lookup _ _ _ (id a) Hnd).
    - by rewrite list_lookup_fmap, Hi.
    - by rewrite list_lookup_fmap, Hj, <- Hid. }
  congruence.
Qed.

Lemma findIndex_listed (l : list StickerSet) (a : StickerSet) :
  NoDup (id <$> l) → a ∈ l →
  ∃ i, App.findIndex (id a) l = Some i ∧ l !! i = Some a.
Proof.
  intros Hnd Ha. unfold App.findIndex.
  destruct (list_find_elem_of (λ s, id s = id a) l a Ha eq_refl) as [[i x] Hf].
  rewrite Hf. exists i. split; [done|].
  apply list_find_Some in Hf as (Hi & Hid & _).
  rewrite Hi. f_equal. eapply same_id_same_set; eauto.
  by eapply list_elem_of_lookup_2.
Qed.

Lemma findIndex_None (l : list StickerSet) (k : string) :
  k ∉ id <$> l → App.findIndex k l = None.
Proof.
  intros Hk. unfold App.findIndex.
  destruct (list_find _ l) as [[i x]|] eqn:Hf; [|done].
  apply list_find_Some in Hf as (Hi & Hid & _).
  destruct Hk. apply list_elem_of_fmap. exists x. split; [done|].
  by eapply list_elem_of_lookup_2.
Qed.

Lemma swapCmp_key (a b : StickerSet) :
  App.swapCmp a b <= 0 ↔ orZero (order a) <= orZero (order b).
Proof. unfold App.swapCmp. lia. Qed.

Lemma sort_swapCmp_ordered (l : list StickerSet) :
  ordered App.swapCmp (sort App.swapCmp l).
Proof.
  eapply (StronglySorted_weaken (λ _, True)
            (λ a b, orZero (order a) <= orZero (order b))).
  - intros a b _ _. by rewrite swapCmp_key.
  - by apply Forall_true.
  - apply (sort_sorted_by_key _ (λ _, True)); [|by apply Forall_true].
    intros a b _ _. apply swapCmp_key.
Qed.

(** What lines 277-285 make of the listing. *)
Lemma swapOrders_spec (l : list StickerSet) (iA iB : nat) (a b : StickerSet)
    (oA oB : Z) :
  iA ≠ iB → l !! iA = Some a → l !! iB = Some b →
  order a = Some oA → order b = Some oB →
  App.swapOrders iA iB l
  = <[iB := with_order (Some oA) b]> (<[iA := with_order (Some oB) a]> l).
Proof.
  intros Hne Ha Hb HoA HoB. unfold App.swapOrders.
  rewrite Ha, Hb, HoA, HoB. simpl.
  by rewrite list_lookup_insert_ne, Hb by done.
Qed.

Lemma orderValues_exchange (d : ObjectStore) (a b : StickerSet) (oA oB : Z) :
  id a ≠ id b → d !! id a = Some a → d !! id b = Some b →
  order a = Some oA → order b = Some oB →
  orderValues (<[id a := with_order (Some oB) a]>
                 (<[id b := with_order (Some oA) b]> d))
  ≡ₚ orderValues d.
Proof.
  intros Hne Ha Hb HoA HoB. unfold orderValues, records.
  set (d0 := delete (id a) (delete (id b) d)).
  assert (d0 !! id a = None) as Ha0 by apply lookup_delete_eq.
  assert (d0 !! id b = None) as Hb0.
  { unfold d0. by rewrite lookup_delete_ne, lookup_delete_eq. }
  assert (∀ x y, <[id a := x]> (<[id b := y]> d)
                 = <[id a := x]> (<[id b := y]> d0)) as Hins.
  { intros x y. apply map_eq. intros k. unfold d0.
    destruct (decide (k = id a)) as [->|?]; [by rewrite !lookup_insert_eq|].
    rewrite !(lookup_insert_ne _ (id a)) by done.
    destruct (decide (k = id b)) as [->|?]; [by rewrite !lookup_insert_eq|].
    by rewrite !(lookup_insert_ne _ (id b)), !lookup_delete_ne by done. }
  assert (d = <[id a := a]> (<[id b := b]> d0)) as Hd.
  { rewrite <- Hins, (insert_id d (id b)) by done. by rewrite insert_id. }
  rewrite Hins. clearbody d0. rewrite Hd at 1.
  rewrite !map_to_list_insert by (by rewrite ?lookup_insert_ne).
  rewrite !fmap_cons. simpl. rewrite HoA, HoB. apply Permutation_swap.
Qed.

(** The click on [b] while [a] is selected, when the save commits: the
    listing that is saved and shown. *)
Lemma swap_from_selected (bh : Behaviour) (st : App.State)
    (a b : StickerSet) (oA oB : Z) :
  NoDup (id <$> App.sets st) →
  a ∈ App.sets st → b ∈ App.sets st → id a ≠ id b →
  order a = Some oA → order b = Some oB →
  App.swapSourceId st = Some (id a) →
  commits bh (length (App.sets st)) = true →
  let st' := App.handleSwapClick bh (id b) st in
  with_order (Some oB) a ∈ App.sets st'
  ∧ with_order (Some oA) b ∈ App.sets st'
  ∧ (∀ c, c ∈ App.sets st → id c ≠ id a → id c ≠ id b → c ∈ App.sets st')
  ∧ (∀ x, x ∈ App.sets st' →
       x = with_order (Some oB) a ∨ x = with_order (Some oA) b
       ∨ (x ∈ App.sets st ∧ id x ≠ id a ∧ id x ≠ id b))
  ∧ order <$> App.sets st' ≡ₚ order <$> App.sets st
  ∧ ordered App.swapCmp (App.sets st')
  ∧ NoDup (id <$> App.sets st')
  ∧ listingStored (App.sets st') (App.db st')
  ∧ (∀ k, k ∉ id <$> App.sets st → App.db st' !! k = App.db st !! k)
  ∧ (listingStored (App.sets st) (App.db st) →
     (∀ k, k ≠ id a → k ≠ id b → App.db st' !! k = App.db st !! k)
     ∧ orderValues (App.db st') ≡ₚ orderValues (App.db st))
  ∧ App.swapSourceId st' = None.
Proof.
  intros Hnd Ha Hb Hne HoA HoB Hsel Hcommit.
  destruct (findIndex_listed _ a Hnd Ha) as (iA & HfA & HiA).
  destruct (findIndex_listed _ b Hnd Hb) as (iB & HfB & HiB).
  assert (iA ≠ iB) as Hidx by (intros ->; congruence).
  set (a' := with_order (Some oB) a). set (b' := with_order (Some oA) b).
  set (l2 := <[iB := b']> (<[iA := a']> (App.sets st))).
  set (sorted := sort App.swapCmp l2).
  assert (App.swapResult (id a) (id b) (App.sets st) = Some sorted) as Hres.
  { unfold App.swapResult. rewrite HfA, HfB.
    by rewrite (swapOrders_spec _ _ _ a b oA oB). }
  assert (length sorted = length (App.sets st)) as Hlen.
  { unfold sorted, l2. by rewrite sort_length, !length_insert. }
  assert (id <$> l2 = id <$> App.sets st) as Hids.
  { unfold l2. rewrite !list_fmap_insert. simpl.
    rewrite (list_insert_id _ iA) by (by rewrite list_lookup_fmap, HiA).
    by rewrite list_insert_id by (by rewrite list_lookup_fmap, HiB). }
  assert (NoDup (id <$> sorted)) as Hnd'.
  { unfold sorted. by rewrite sort_Permutation, Hids. }
  assert (a' ∈ l2) as Ha2.
  { apply (list_elem_of_lookup_2 _ iA). unfold l2.
    rewrite list_lookup_insert_ne by done.
    apply list_lookup_insert_eq. by eapply lookup_lt_Some. }
  assert (b' ∈ l2) as Hb2.
  { apply (list_elem_of_lookup_2 _ iB). unfold l2.
    apply list_lookup_insert_eq. rewrite length_insert. by eapply lookup_lt_Some. }
  assert (∀ c, c ∈ App.sets st → id c ≠ id a → id c ≠ id b → c ∈ l2) as Hothers.
  { intros c (j & Hj)%list_elem_of_lookup_1 Hca Hcb.
    apply (list_elem_of_lookup_2 _ j). unfold l2.
    rewrite !list_lookup_insert_ne; [done|intros ->; congruence..]. }
  assert (∀ c, c ∈ l2 →
            c = a' ∨ c = b'
            ∨ (c ∈ App.sets st ∧ id c ≠ id a ∧ id c ≠ id b)) as Hinv.
  { intros c (j & Hj)%list_elem_of_lookup_1. unfold l2 in Hj.
    apply list_lookup_insert_Some in Hj as [(-> & <- & _)|[HjB Hj]]; [auto|].
    apply list_lookup_insert_Some in Hj as [(-> & <- & _)|[HjA Hj]]; [auto|].
    right. right. split; [by eapply list_elem_of_lookup_2|].
    split; intros Hid.
    - apply HjA. eapply (NoDup_lookup _ _ _ (id a) Hnd).
      + by rewrite list_lookup_fmap, HiA.
      + by rewrite list_lookup_fmap, Hj; simpl; rewrite Hid.
    - apply HjB. eapply (NoDup_lookup _ _ _ (id b) Hnd).
      + by rewrite list_lookup_fmap, HiB.
      + by rewrite list_lookup_fmap, Hj; simpl; rewrite Hid. }
  assert (order <$> l2 ≡ₚ order <$> App.sets st) as Horders.
  { unfold l2. rewrite !list_fmap_insert. simpl.
    apply exchange_Permutation; [done|..].
    - by rewrite list_lookup_fmap, HiA; simpl; rewrite HoA.
    - by rewrite list_lookup_fmap, HiB; simpl; rewrite HoB. }
  assert (App.handleSwapClick bh (id b) st
          = App.setSwapSourceId None
              (App.setSets sorted (App.setDb (putAll sorted (App.db st)) st)))
    as Hstep.
  { unfold App.handleSwapClick. rewrite Hsel.
    destruct (decide (id a = id b)); [done|]. rewrite Hres.
    rewrite saveStickerSets_commits; [done|by rewrite Hlen]. }
  assert (∀ c, c ∈ sorted → putAll sorted (App.db st) !! id c = Some c) as Hput.
  { intros c Hc. by apply putAll_lookup_elem. }
  assert (id <$> sorted ≡ₚ id <$> App.sets st) as Hids'.
  { unfold sorted. by rewrite sort_Permutation, Hids. }
  intros st'. subst st'. rewrite Hstep. simpl. split_and!.
  - by apply elem_of_sort.
  - by apply elem_of_sort.
  - intros c Hc Hca Hcb. apply elem_of_sort. by apply Hothers.
  - intros x Hx. apply Hinv. by apply elem_of_sort in Hx.
  - unfold sorted. by rewrite sort_Permutation.
  - apply sort_swapCmp_ordered.
  - done.
  - exact Hput.
  - intros k Hk. apply putAll_lookup_other. by rewrite Hids'.
  - intros Hstored.
    assert (∀ k, k ≠ id a → k ≠ id b →
                 putAll sorted (App.db st) !! k = App.db st !! k) as Hrest.
    { intros k Hka Hkb. destruct (decide (k ∈ id <$> sorted)) as [Hk|Hk].
      - apply list_elem_of_fmap in Hk as (c & -> & Hc).
        rewrite Hput by done. symmetry.
        apply elem_of_sort, Hinv in Hc as [->|[->|(Hc & _ & _)]]; [done..|].
        by apply Hstored.
      - by apply putAll_lookup_other. }
    split; [exact Hrest|].
    assert (putAll sorted (App.db st)
            = <[id a := a']> (<[id b := b']> (App.db st))) as ->.
    { apply map_eq. intros k.
      destruct (decide (k = id a)) as [->|Hka].
      - rewrite lookup_insert_eq. apply (Hput a'). by apply elem_of_sort.
      - rewrite lookup_insert_ne by done.
        destruct (decide (k = id b)) as [->|Hkb].
        + rewrite lookup_insert_eq. apply (Hput b'). by apply elem_of_sort.
        + rewrite lookup_insert_ne by done. by apply Hrest. }
    apply orderValues_exchange; auto.
  - done.
Qed.

(** C2, as amended.  Selecting [a] and then clicking [b], two collections
    with order values [oA] and [oB] of a listing with one collection per
    id, with the save succeeding.  In the listing and in the store [a] has
    order [oB] and [b] has order [oA], and no other field of either has
    changed; every other listed collection is listed as before and stored
    as listed; nothing else is listed; the order values of the listing
    are the same multiset as before, and the listing is sorted by them;
    the selection is cleared.  What the store holds under ids that are not
    listed is untouched.  When the store held every listed collection as
    listed, the swap changes the store under the two ids only and the
    order values of the whole store are the same multiset as before.
    (Without that, the swap writes the listing's order values over the
    stored ones.) *)
Theorem swap_exchanges_orders (bh0 bh : Behaviour) (st : App.State)
    (a b : StickerSet) (oA oB : Z) :
  NoDup (id <$> App.sets st) →
  a ∈ App.sets st → b ∈ App.sets st → id a ≠ id b →
  order a = Some oA → order b = Some oB →
  App.swapSourceId st = None →
  commits bh (length (App.sets st)) = true →
  let st' := App.run [App.Click bh0 (id a); App.Click bh (id b)] st in
  ∃ a' b',
    order a' = Some oB ∧ order b' = Some oA
    ∧ sameButOrder a a' ∧ sameButOrder b b'
    ∧ a' ∈ App.sets st' ∧ b' ∈ App.sets st'
    ∧ App.db st' !! id a = Some a' ∧ App.db st' !! id b = Some b'
    ∧ (∀ c, c ∈ App.sets st → id c ≠ id a → id c ≠ id b →
         c ∈ App.sets st' ∧ App.db st' !! id c = Some c)
    ∧ (∀ x, x ∈ App.sets st' →
         x = a' ∨ x = b' ∨ (x ∈ App.sets st ∧ id x ≠ id a ∧ id x ≠ id b))
    ∧ NoDup (id <$> App.sets st')
    ∧ order <$> App.sets st' ≡ₚ order <$> App.sets st
    ∧ ordered App.swapCmp (App.sets st')
    ∧ (∀ k, k ∉ id <$> App.sets st → App.db st' !! k = App.db st !! k)
    ∧ (listingStored (App.sets st) (App.db st) →
       (∀ k, k ≠ id a → k ≠ id b → App.db st' !! k = App.db st !! k)
       ∧ orderValues (App.db st') ≡ₚ orderValues (App.db st))
    ∧ App.swapSourceId st' = None.
Proof.
  intros Hnd Ha Hb Hne HoA HoB Hsel Hcommit.
  assert (App.run [App.Click bh0 (id a); App.Click bh (id b)] st
          = App.handleSwapClick bh (id b)
              (App.setSwapSourceId (Some (id a)) st)) as ->.
  { unfold App.run. simpl. unfold App.handleSwapClick at 2. by rewrite Hsel. }
  destruct (swap_from_selected bh (App.setSwapSourceId (Some (id a)) st)
              a b oA oB Hnd Ha Hb Hne HoA HoB eq_refl Hcommit)
    as (Ha' & Hb' & Hothers & Hinv & Hord & Hsorted & Hnd' & Hstored' & Hkeys
        & Hmirror & Hsel').
  exists (with_order (Some oB) a), (with_order (Some oA) b).
  split; [done|]. split; [done|].
  split; [apply with_order_sameButOrder|].
  split; [apply with_order_sameButOrder|].
  split; [done|]. split; [done|].
  split; [by apply (Hstored' (with_order (Some oB) a))|].
  split; [by apply (Hstored' (with_order (Some oA) b))|].
  split.
  { intros c Hc Hca Hcb.
    pose proof (Hothers c Hc Hca Hcb) as Hc'.
    split; [done|]. by apply Hstored'. }
  split; [exact Hinv|]. split; [exact Hnd'|]. split; [exact Hord|].
  split; [exact Hsorted|]. split; [exact Hkeys|].
  split; [exact Hmirror|exact Hsel'].
Qed.

End SwapFacts.

Section SwapWitness.
Import Js IndexedDB Spec.

Lemma listedAB_stored :
  listingStored (App.sets Examples.listedAB) (App.db Examples.listedAB).
Proof.
  intros s Hs. simpl in Hs.
  apply elem_of_cons in Hs as [->|Hs]; [by vm_compute|].
  apply elem_of_cons in Hs as [->|Hs]; [by vm_compute|].
  by apply elem_of_nil in Hs.
Qed.

Lemma swap_exchanges_orders_witness :
  let st' := App.run [App.Click Examples.engineOk (id Examples.setA);
                      App.Click Examples.engineOk (id Examples.setB)]
               Examples.threeStored in
  ∃ a' b',
    order a' = Some 1 ∧ order b' = Some 0
    ∧ sameButOrder Examples.setA a' ∧ sameButOrder Examples.setB b'
    ∧ a' ∈ App.sets st' ∧ b' ∈ App.sets st'
    ∧ App.db st' !! id Examples.setA = Some a'
    ∧ App.db st' !! id Examples.setB = Some b'
    ∧ (∀ c, c ∈ App.sets Examples.threeStored →
         id c ≠ id Examples.setA → id c ≠ id Examples.setB →
         c ∈ App.sets st' ∧ App.db st' !! id c = Some c)
    ∧ (∀ x, x ∈ App.sets st' →
         x = a' ∨ x = b'
         ∨ (x ∈ App.sets Examples.threeStored
            ∧ id x ≠ id Examples.setA ∧ id x ≠ id Examples.setB))
    ∧ NoDup (id <$> App.sets st')
    ∧ order <$> App.sets st' ≡ₚ order <$> App.sets Examples.threeStored
    ∧ ordered App.swapCmp (App.sets st')
    ∧ (∀ k, k ∉ id <$> App.sets Examples.threeStored →
         App.db st' !! k = App.db Examples.threeStored !! k)
    ∧ (listingStored (App.sets Examples.threeStored)
         (App.db Examples.threeStored) →
       (∀ k, k ≠ id Examples.setA → k ≠ id Examples.setB →
          App.db st' !! k = App.db Examples.threeStored !! k)
       ∧ orderValues (App.db st')
         ≡ₚ orderValues (App.db Examples.threeStored))
    ∧ App.swapSourceId st' = None.
Proof.
  apply (swap_exchanges_orders Examples.engineOk Examples.engineOk
           Examples.threeStored Examples.setA Examples.setB 0 1).
  - compute_done.
  - compute_done.
  - compute_done.
  - compute_done.
  - reflexivity.
  - reflexivity.
  - reflexivity.
  - reflexivity.
Defined.

(** C2, the counterexample.  The page is loaded on a store that holds
    [setA], [setB] and the order-less [legacyC]: the listing gives
    [legacyC] the order 2, the store still holds it without order.  The
    swap of [setA] and [setB] then saves the whole listing: the stored
    [legacyC], which is neither of the two, gets the order 2, and the order
    values of the store are not the multiset they were. *)
Lemma swap_rewrites_stored_order_counterexample :
  let st := App.loadOnMount Examples.engineOk
              (App.mkState [] None [] Examples.mixedDb) in
  let st' := App.run [App.Click Examples.engineOk "a";
                      App.Click Examples.engineOk "b"] st in
  App.db st = Examples.mixedDb
  ∧ App.sets st
    = [Examples.setA; Examples.setB; Examples.collection "c" (Some 2) 0]
  ∧ App.db st !! "a"%string = Some Examples.setA
  ∧ App.db st !! "b"%string = Some Examples.setB
  ∧ App.db st !! "c"%string = Some Examples.legacyC
  ∧ order Examples.legacyC = None
  ∧ App.db st' !! "c"%string = Some (Examples.collection "c" (Some 2) 0)
  ∧ ¬ orderValues (App.db st') ≡ₚ orderValues (App.db st).
Proof.
  cbv zeta.
  assert (App.db (App.run [App.Click Examples.engineOk "a";
                           App.Click Examples.engineOk "b"]
                    (App.loadOnMount Examples.engineOk
                       (App.mkState [] None [] Examples.mixedDb)))
          = putAll [Examples.collection "b" (Some 0) 2;
                    Examples.collection "a" (Some 1) 1;
                    Examples.collection "c" (Some 2) 0] ∅) as ->
    by (vm_compute; reflexivity).
  split_and!; try (vm_compute; reflexivity).
  intros Hperm.
  assert (None ∈ orderValues
            (putAll [Examples.collection "b" (Some 0) 2;
                     Examples.collection "a" (Some 1) 1;
                     Examples.collection "c" (Some 2) 0] ∅)) as Hin.
  { rewrite Hperm. apply list_elem_of_fmap. exists Examples.legacyC.
    split; [done|]. apply elem_of_records. by vm_compute. }
  unfold orderValues in Hin. rewrite records_putAll_empty in Hin
    by compute_done.
  repeat (apply elem_of_cons in Hin as [Hin|Hin]; [discriminate Hin|]).
  by apply elem_of_nil in Hin.
Qed.

(** Scenario 1 of the specification: A (order 0) and B (order 1); select
    A, then B; the listing is then [B, A] with the orders exchanged. *)
Example swap_scenario :
  let st' := App.run [App.Click Examples.engineOk "a";
                      App.Click Examples.engineOk "b"] Examples.listedAB in
  App.sets st'
  = [with_order (Some 0) Examples.setB; with_order (Some 1) Examples.setA]
  ∧ Storage.getAllStickerSets Examples.engineOk (App.db st')
    = Some [with_order (Some 0) Examples.setB;
            with_order (Some 1) Examples.setA].
Proof. vm_compute. split; reflexivity. Qed.

(** When the save of a swap is rejected, the handler reports the
    failure, the listing and the store are the ones from before the swap,
    and the selection is cleared. *)
Lemma swap_persist_failure_keeps_listing (bh : Behaviour) (k src : string)
    (sorted : list StickerSet) (st : App.State) :
  App.swapSourceId st = Some src → src ≠ k →
  App.swapResult src k (App.sets st) = Some sorted →
  (Storage.saveStickerSets bh sorted (App.db st)).1 = Rejected →
  let st' := App.handleSwapClick bh k st in
  App.sets st' = App.sets st
  ∧ App.db st' = App.db st
  ∧ App.alerts st' = App.alerts st ++ [App.SwapSaveFailed]
  ∧ App.swapSourceId st' = None.
Proof.
  intros Hsel Hne Hres Hrej st'. subst st'.
  pose proof (saveStickerSets_rejected _ _ _ Hrej) as Hdb.
  unfold App.handleSwapClick. rewrite Hsel.
  destruct (decide (src = k)); [done|]. rewrite Hres.
  destruct (Storage.saveStickerSets bh sorted (App.db st)) as [p d'].
  simpl in *. subst p d'. done.
Qed.

Lemma swap_persist_failure_keeps_listing_witness :
  let st' := App.handleSwapClick Examples.requestFails "b" Examples.selectedA in
  App.sets st' = App.sets Examples.selectedA
  ∧ App.db st' = App.db Examples.selectedA
  ∧ App.alerts st' = App.alerts Examples.selectedA ++ [App.SwapSaveFailed]
  ∧ App.swapSourceId st' = None.
Proof.
  apply (swap_persist_failure_keeps_listing Examples.requestFails "b" "a"
           [with_order (Some 0) Examples.setB; with_order (Some 1) Examples.setA]).
  - reflexivity.
  - compute_done.
  - vm_compute. reflexivity.
  - vm_compute. reflexivity.
Defined.

(** C6, at the failing input.  [setA] is selected and [setB] is clicked on
    an engine that accepts both puts and then fails to commit.  The
    transaction fires [abort] only, which [saveStickerSets] does not listen
    to: nothing is stored and its promise settles neither way, so the
    handler never resumes.  The listing is the one from before the swap,
    but no error is reported and the selection is still [setA].  (When a
    put is refused instead, the promise is rejected and the handler does
    report the failure and clear the selection.) *)
Theorem swap_commit_failure_unreported :
  let st' := App.handleSwapClick Examples.commitFails "b" Examples.selectedA in
  events Examples.commitFails 2
  = [RequestSuccess 0; RequestSuccess 1; TransactionAbort]
  ∧ App.swapResult "a" "b" (App.sets Examples.selectedA)
    = Some [Examples.collection "b" (Some 0) 2;
            Examples.collection "a" (Some 1) 1]
  ∧ Storage.saveStickerSets Examples.commitFails
      [Examples.collection "b" (Some 0) 2; Examples.collection "a" (Some 1) 1]
      (App.db Examples.selectedA)
    = (Pending, App.db Examples.selectedA)
  ∧ App.sets st' = App.sets Examples.selectedA
  ∧ App.db st' = App.db Examples.selectedA
  ∧ App.alerts st' = []
  ∧ App.swapSourceId st' = Some "a"%string
  ∧ App.alerts (App.handleSwapClick Examples.requestFails "b"
                  Examples.selectedA) = [App.SwapSaveFailed]
  ∧ App.swapSourceId (App.handleSwapClick Examples.requestFails "b"
                        Examples.selectedA) = None.
Proof. cbv zeta. split_and!; vm_compute; reflexivity. Qed.

End SwapWitness.

(* ===================================================================== *)
(** * Import *)
(* ===================================================================== *)

Section ImportFacts.
Import Js IndexedDB Spec.

Lemma cleanData_lookup (data : list StickerSet) (idx : nat) :
  App.cleanData data !! idx
  = (λ s, with_order (Some (match order s with
                            | Some o => o
                            | None => Z.of_nat idx
                            end)) s) <$> data !! idx.
Proof. unfold App.cleanData. by rewrite list_lookup_imap. Qed.

Lemma cleanData_ids (data : list StickerSet) :
  id <$> App.cleanData data = id <$> data.
Proof.
  apply list_eq. intros i.
  rewrite !list_lookup_fmap, cleanData_lookup. by destruct (data !! i).
Qed.

Lemma cleanData_length (data : list StickerSet) :
  length (App.cleanData data) = length data.
Proof. unfold App.cleanData. apply length_imap. Qed.

Lemma with_order_same (s : StickerSet) (o : Z) :
  order s = Some o → with_order (Some o) s = s.
Proof. destruct s. simpl. by intros ->. Qed.

Lemma clearAll_commits (bh : Behaviour) (d : ObjectStore) :
  commits bh 1 = true → Storage.clearAllStickerSets bh d = (Resolved, ∅).
Proof.
  intros Hc. unfold Storage.clearAllStickerSets, finish. rewrite Hc.
  f_equal. by apply current_resolved_iff.
Qed.





(** Scenario 4 of the specification: five records restored over three;
    the store then holds the five, in the order of their [order] values,
    and the listing shows them. *)
Example import_scenario :
  let st' := App.handleFileImport Examples.restoreEnv
               (App.JsonArray Examples.backup) Examples.threeStored in
  size (App.db Examples.threeStored) = 3%nat
  ∧ size (App.db st') = 5%nat
  ∧ id <$> App.sets st' = ["q"; "r"; "s"; "t"; "p"]%string
  ∧ order <$> App.sets st' = [Some 1; Some 3; Some 3; Some 5; Some 7]
  ∧ App.alerts st' = [App.ImportSucceeded true 5].
Proof. vm_compute. repeat split. Qed.

(** With the same id twice in the array the later record overwrites the
    earlier one: the store ends with fewer records than the array has. *)
Example import_duplicate_ids :
  size (App.db (App.handleFileImport Examples.restoreEnv
                  (App.JsonArray [Examples.setA; Examples.setA])
                  Examples.threeStored)) = 1%nat.
Proof. vm_compute. reflexivity. Qed.

End ImportFacts.

(* ===================================================================== *)
(** * The selection and the listing *)
(* ===================================================================== *)

Section SelectionFacts.
Import Js IndexedDB Spec.

Lemma selectionListed_None (st : App.State) :
  App.swapSourceId st = None → selectionListed st.
Proof. intros H k Hk. congruence. Qed.

Lemma selectionListed_same (st st' : App.State) :
  App.swapSourceId st' = App.swapSourceId st →
  id <$> App.sets st' = id <$> App.sets st →
  selectionListed st → selectionListed st'.
Proof. intros Hsel Hids H k Hk. rewrite Hids. apply H. congruence. Qed.

Lemma click_keeps_selection_listed (bh : Behaviour) (k : string)
    (st : App.State) :
  k ∈ id <$> App.sets st → selectionListed st →
  selectionListed (App.handleSwapClick bh k st).
Proof.
  intros Hk Hinv. unfold App.handleSwapClick.
  destruct (App.swapSourceId st) as [src|] eqn:Hsel.
  - destruct (decide (src = k)); [by apply selectionListed_None|].
    destruct (App.swapResult src k (App.sets st)) as [sorted|];
      [|by apply selectionListed_None].
    destruct (Storage.saveStickerSets bh sorted (App.db st)) as [[] d'];
      [|(by apply selectionListed_None)..].
    by apply (selectionListed_same st).
  - intros j Hj. simpl in Hj. by injection Hj as <-.
Qed.

Lemma delete_keeps_selection_listed (bh : Behaviour) (k : string)
    (st : App.State) :
  selectionListed st → selectionListed (App.handleDeleteSet bh k st).
Proof.
  intros Hinv. unfold App.handleDeleteSet.
  destruct (Storage.deleteStickerSet bh k (App.db st)) as [[] d'];
    [by apply (selectionListed_same st)| |by apply (selectionListed_same st)].
  destruct (decide (App.swapSourceId st = Some k)) as [Hk|Hk];
    [by apply selectionListed_None|].
  intros j Hj. simpl in *.
  pose proof (Hinv j Hj) as Hin.
  apply list_elem_of_fmap in Hin as (s & -> & Hs). apply list_elem_of_fmap.
  exists s. split; [done|]. apply list_elem_of_filter. split; [|done].
  intros <-. by apply Hk.
Qed.

Lemma create_keeps_selection_listed (bh : Behaviour) (now createdNow : Z)
    (ser : string) (st : App.State) :
  selectionListed st →
  selectionListed (App.handleCreateNew bh now createdNow ser st).
Proof.
  intros Hinv. unfold App.handleCreateNew.
  destruct (Storage.saveStickerSets _ _ _) as [[] d'];
    [by apply (selectionListed_same st)| |by apply (selectionListed_same st)].
  intros j Hj. simpl in *.
  apply list_elem_of_further. rewrite <- list_fmap_compose.
  by apply Hinv.
Qed.

Lemma save_keeps_selection_listed (bh : Behaviour) (u : StickerSet)
    (st : App.State) :
  selectionListed st → selectionListed (App.handleSaveSet bh u st).
Proof.
  intros Hinv. unfold App.handleSaveSet.
  destruct (Storage.saveStickerSet _ _ _) as [[] d'];
    [by apply (selectionListed_same st)| |by apply (selectionListed_same st)].
  apply (selectionListed_same st); [done| |done]. simpl.
  rewrite <- list_fmap_compose. apply list_fmap_ext.
  intros i s _. simpl. by destruct (decide (id s = id u)).
Qed.

(** X14.  The selection keeps naming a collection of the listing through every
    click on a card, deletion, creation and editor save; a deletion that
    goes through while its collection is selected clears the selection and
    removes the collection. *)
Theorem selection_stays_listed (a : App.Action) (st : App.State) :
  editsListing a → enabled a st → selectionListed st →
  selectionListed (App.step a st)
  ∧ (∀ bh k, a = App.Delete bh k → App.swapSourceId st = Some k →
       (Storage.deleteStickerSet bh k (App.db st)).1 = Resolved →
       App.swapSourceId (App.step a st) = None
       ∧ k ∉ id <$> App.sets (App.step a st)).
Proof.
  intros Hedit Hen Hinv. split.
  - destruct a; simpl in *; try done.
    + by apply click_keeps_selection_listed.
    + by apply delete_keeps_selection_listed.
    + by apply create_keeps_selection_listed.
    + by apply save_keeps_selection_listed.
  - intros bh k -> Hsel Hres. simpl. unfold App.handleDeleteSet.
    destruct (Storage.deleteStickerSet bh k (App.db st)) as [p d'].
    simpl in Hres. subst p.
    destruct (decide (App.swapSourceId st = Some k)); [|done].
    split; [done|]. simpl.
    intros (s & -> & Hs)%list_elem_of_fmap.
    by apply list_elem_of_filter in Hs as [Hs _].
Qed.

Lemma selection_stays_listed_witness :
  selectionListed
    (App.step (App.Delete Examples.engineOk "a") Examples.selectedA)
  ∧ (∀ bh k, App.Delete Examples.engineOk "a" = App.Delete bh k →
       App.swapSourceId Examples.selectedA = Some k →
       (Storage.deleteStickerSet bh k (App.db Examples.selectedA)).1 = Resolved →
       App.swapSourceId
         (App.step (App.Delete Examples.engineOk "a") Examples.selectedA) = None
       ∧ k ∉ id <$> App.sets
               (App.step (App.Delete Examples.engineOk "a") Examples.selectedA)).
Proof.
  apply (selection_stays_listed (App.Delete Examples.engineOk "a")
           Examples.selectedA).
  - exact I.
  - apply list_elem_of_here.
  - intros k Hk. injection Hk as <-. apply list_elem_of_here.
Defined.

(** Deleting the selected collection: the listing loses it and nothing is
    selected any more. *)
Example delete_selected :
  let st' := App.handleDeleteSet Examples.engineOk "a" Examples.selectedA in
  App.sets st' = [Examples.setB] ∧ App.swapSourceId st' = None.
Proof. vm_compute. split; reflexivity. Qed.

(** X15.  A selection that names no collection of the listing leads to no swap:
    the click only clears it. *)
Lemma stale_selection_swaps_nothing (bh : Behaviour) (k src : string)
    (st : App.State) :
  App.swapSourceId st = Some src → src ∉ id <$> App.sets st →
  App.handleSwapClick bh k st = App.setSwapSourceId None st.
Proof.
  intros Hsel Hsrc. unfold App.handleSwapClick. rewrite Hsel.
  destruct (decide (src = k)); [done|].
  unfold App.swapResult. by rewrite findIndex_None.
Qed.

(** C10, at the failing input.  With [setA] selected, a restore of a backup
    without it replaces the listing and leaves the selection as it is:
    [handleFileImport] (like [handleDownloadFromGist]) has no counterpart
    of the reset made by [handleDeleteSet], and the selection then names a
    collection that is not listed. *)
Lemma import_leaves_stale_selection :
  selectionListed Examples.onlyA
  ∧ enabled (App.Click Examples.engineOk "a") Examples.onlyA
  ∧ App.swapSourceId
      (App.run [App.Click Examples.engineOk "a";
                App.Import Examples.restoreEnv (App.JsonArray [Examples.setB])]
         Examples.onlyA) = Some "a"%string
  ∧ App.sets
      (App.run [App.Click Examples.engineOk "a";
                App.Import Examples.restoreEnv (App.JsonArray [Examples.setB])]
         Examples.onlyA) = [Examples.setB]
  ∧ ¬ selectionListed
        (App.run [App.Click Examples.engineOk "a";
                  App.Import Examples.restoreEnv (App.JsonArray [Examples.setB])]
           Examples.onlyA).
Proof.
  assert (App.run [App.Click Examples.engineOk "a";
                   App.Import Examples.restoreEnv (App.JsonArray [Examples.setB])]
            Examples.onlyA
          = App.mkState [Examples.setB] (Some "a"%string)
              [App.ImportSucceeded true 1] (putAll [Examples.setB] ∅)) as ->
    by (vm_compute; reflexivity).
  split_and!; [by apply selectionListed_None|apply list_elem_of_here|done|done|].
  intros H. specialize (H "a"%string eq_refl). simpl in H.
  apply list_elem_of_singleton in H. discriminate H.
Qed.

(** The same after a download from the backup. *)
Example download_leaves_stale_selection :
  let st' := App.run [App.Click Examples.engineOk "a";
                      App.Download Examples.engineOk (Some [Examples.setB])]
               Examples.onlyA in
  App.swapSourceId st' = Some "a"%string ∧ App.sets st' = [Examples.setB].
Proof. vm_compute. split; reflexivity. Qed.

(** The click that follows swaps nothing and clears the selection. *)
Example click_after_stale_selection :
  let st' := App.run [App.Click Examples.engineOk "a";
                      App.Download Examples.engineOk (Some [Examples.setB]);
                      App.Click Examples.engineOk "b"]
               Examples.onlyA in
  App.swapSourceId st' = None ∧ App.sets st' = [Examples.setB].
Proof. vm_compute. split; reflexivity. Qed.

End SelectionFacts.

(* ===================================================================== *)
(** * Image compression: the size of the output *)
(* ===================================================================== *)

Section ImageSize.
Import ImageCompression Spec.

Lemma truncate_inject_Z (z : Z) : truncate (inject_Z z) = z.
Proof. unfold truncate. simpl. apply Z.quot_1_r. Qed.

Lemma canvasDimension_integer (default z : Z) :
  0 <= z <= 2147483647 → canvasDimension default (inject_Z z) = z.
Proof.
  intros Hz. unfold canvasDimension. rewrite truncate_inject_Z.
  rewrite Z.mod_small by lia.
  destruct (Z.leb_spec z 2147483647); [done|lia].
Qed.

(** For a positive width the quotient is the fraction [a / w]. *)
Lemma scaledHeight_fraction (h mw w : Z) :
  0 < w → scaledHeight h mw w = Qmake (h * mw * 1) (Z.to_pos w).
Proof.
  intros Hw. unfold scaledHeight, Qdiv, Qmult, Qinv. simpl.
  destruct w as [|p|p]; try lia. simpl. reflexivity.
Qed.

Lemma truncate_scaledHeight (h mw w : Z) :
  0 < w → 0 <= h * mw → truncate (scaledHeight h mw w) = (h * mw) / w.
Proof.
  intros Hw Ha. rewrite scaledHeight_fraction by done.
  unfold truncate. simpl. rewrite Z2Pos.id, Z.mul_1_r by done.
  apply Z.quot_div_nonneg; lia.
Qed.

Lemma round_scaledHeight (h mw w : Z) :
  0 < w → round (scaledHeight h mw w) = (2 * (h * mw) + w) / (2 * w).
Proof.
  intros Hw. rewrite scaledHeight_fraction by done.
  unfold round, Qfloor, Qplus. simpl.
  rewrite Z2Pos.id, Pos2Z.inj_mul, Z2Pos.id by done.
  f_equal; lia.
Qed.

(** The height the specification asks for, in integers. *)
Lemma roundedHeight_fraction (w h mw : Z) :
  0 < w → roundedHeight w h mw = (2 * (h * mw) + w) / (2 * w).
Proof.
  intros Hw. rewrite <- round_scaledHeight by done.
  unfold roundedHeight, round, scaledHeight.
  apply Qfloor_comp. by rewrite inject_Z_mult.
Qed.

(** Dropping the fraction and rounding differ by one pixel at most. *)
Lemma floor_round_close (a w : Z) :
  0 < w → Z.abs (a / w - (2 * a + w) / (2 * w)) <= 1.
Proof.
  intros Hw.
  pose proof (Z.div_mod a w ltac:(lia)) as Ha.
  pose proof (Z.mod_pos_bound a w Hw) as Hr.
  set (q := a / w) in *. set (r := a mod w) in *.
  assert (2 * a + w = q * (2 * w) + (2 * r + w)) as -> by lia.
  rewrite Z.div_add_l by lia.
  assert (0 <= (2 * r + w) / (2 * w) <= 1).
  { split; [apply Z.div_pos; lia|].
    apply Z.lt_succ_r. apply Z.div_lt_upper_bound; lia. }
  lia.
Qed.

(** The size of the canvas is the source's, or [maxWidth] wide with the
    height scaled and cut to whole pixels. *)
Lemma canvasSize_bound (img : Decoded) (maxWidth : Z) :
  0 <= maxWidth →
  0 <= naturalWidth img <= 2147483647 →
  0 <= naturalHeight img <= 2147483647 →
  sizeBound (naturalWidth img) (naturalHeight img) maxWidth
    (canvasSize img maxWidth).1 (canvasSize img maxWidth).2.
Proof.
  intros Hm Hw Hh. unfold canvasSize, targetSize.
  destruct (Z.ltb_spec maxWidth (naturalWidth img)) as [Hlt|Hge]; simpl.
  - split; [intros _|lia].
    split; [apply canvasDimension_integer; lia|].
    set (w := naturalWidth img) in *. set (h := naturalHeight img) in *.
    assert (0 <= h * maxWidth) by lia.
    assert (h * maxWidth / w <= h).
    { apply Z.div_le_upper_bound; nia. }
    assert (0 <= h * maxWidth / w) by (apply Z.div_pos; lia).
    unfold canvasDimension.
    rewrite truncate_scaledHeight, roundedHeight_fraction by lia.
    rewrite Z.mod_small by lia.
    destruct (Z.leb_spec (h * maxWidth / w) 2147483647); [|lia].
    apply floor_round_close. lia.
  - split; [lia|intros _].
    split; apply canvasDimension_integer; lia.
Qed.

(** C8.  Whenever the image decodes and a canvas is available, the four
    compression functions of src/utils/imageCompression.ts encode a canvas
    that is [maxWidth] wide, with a height within one pixel of the rounded
    scaled height, when the source is wider than [maxWidth], and a canvas
    of the source's size otherwise. *)
Theorem compression_output_size (env : Env) (file : File) (dataUrl : string)
    (img : Decoded) (maxWidth : Z) (q : Q) :
  decode env dataUrl = Some img → context2d env = true →
  file_dataUrl file = Some dataUrl →
  0 <= maxWidth →
  0 <= naturalWidth img <= 2147483647 →
  0 <= naturalHeight img <= 2147483647 →
  ∃ o1 o2 o3 o4,
    Sampled.compressImage env file maxWidth q = Encoded o1
    ∧ Sampled.compressExistingImage env dataUrl maxWidth q = Encoded o2
    ∧ Flattening.compressImage env file maxWidth q = Encoded o3
    ∧ Flattening.compressExistingImage env dataUrl maxWidth q = Encoded o4
    ∧ Forall (λ o, sizeBound (naturalWidth img) (naturalHeight img) maxWidth
                     (width o) (height o)) [o1; o2; o3; o4].
Proof.
  intros Hdec Hctx Hfile Hm Hw Hh.
  pose proof (canvasSize_bound img maxWidth Hm Hw Hh) as Hsize.
  unfold Sampled.compressImage, Sampled.compressExistingImage,
    Flattening.compressImage, Flattening.compressExistingImage.
  rewrite Hfile, Hdec, Hctx.
  destruct (canvasSize img maxWidth) as [cw ch]. simpl in *.
  destruct (String.eqb _ _ && _), (isPNG dataUrl && _);
    do 4 eexists; (split_and!; [reflexivity..|]);
    repeat (apply Forall_cons_2; [exact Hsize|]); apply Forall_nil_2.
Qed.

Lemma compression_output_size_witness :
  (∃ o1 o2 o3 o4,
    Sampled.compressImage Examples.wideBrowser Examples.pickedFile 800 (85 # 100)
      = Encoded o1
    ∧ Sampled.compressExistingImage Examples.wideBrowser Examples.pngUrl 800
        (85 # 100) = Encoded o2
    ∧ Flattening.compressImage Examples.wideBrowser Examples.pickedFile 800
        (85 # 100) = Encoded o3
    ∧ Flattening.compressExistingImage Examples.wideBrowser Examples.pngUrl 800
        (85 # 100) = Encoded o4
    ∧ Forall (λ o, sizeBound (naturalWidth Examples.wide)
                     (naturalHeight Examples.wide) 800 (width o) (height o))
             [o1; o2; o3; o4])
  ∧ (∃ o1 o2 o3 o4,
    Sampled.compressImage Examples.browser Examples.pickedFile 800 (85 # 100)
      = Encoded o1
    ∧ Sampled.compressExistingImage Examples.browser Examples.pngUrl 800
        (85 # 100) = Encoded o2
    ∧ Flattening.compressImage Examples.browser Examples.pickedFile 800
        (85 # 100) = Encoded o3
    ∧ Flattening.compressExistingImage Examples.browser Examples.pngUrl 800
        (85 # 100) = Encoded o4
    ∧ Forall (λ o, sizeBound (naturalWidth Examples.twoPixelPng)
                     (naturalHeight Examples.twoPixelPng) 800
                     (width o) (height o))
             [o1; o2; o3; o4]).
Proof.
  split.
  - apply (compression_output_size Examples.wideBrowser Examples.pickedFile
             Examples.pngUrl Examples.wide 800 (85 # 100)).
    + reflexivity.
    + reflexivity.
    + reflexivity.
    + lia.
    + simpl. lia.
    + simpl. lia.
  - apply (compression_output_size Examples.browser Examples.pickedFile
             Examples.pngUrl Examples.twoPixelPng 800 (85 # 100)).
    + reflexivity.
    + reflexivity.
    + reflexivity.
    + lia.
    + simpl. lia.
    + simpl. lia.
Defined.

(** A source of 2000 by 1001 pixels at [maxWidth = 800]: the canvas is 800
    by 400, where rounding the scaled height 400.4 gives 400 too; at 2000
    by 1004 the scaled height 401.6 is cut to 401, where rounding gives
    402. *)
Example canvasSize_wide :
  canvasSize Examples.wide 800 = (800, 400)
  ∧ roundedHeight 2000 1001 800 = 400
  ∧ canvasSize (mkDecoded 2000 1004 (λ _ _, None)) 800 = (800, 401)
  ∧ roundedHeight 2000 1004 800 = 402.
Proof. vm_compute. repeat split. Qed.

End ImageSize.

(* ===================================================================== *)
(** * Image compression: the choice of the format *)
(* ===================================================================== *)

Section AlphaScan.
Import ImageCompression Spec.

Lemma alphaLoop_sound (stride : nat) (data : list Z) (i fuel : nat) :
  alphaLoop stride data i fuel = true →
  ∃ (j : nat) (a : Z), data !! (i + j * stride)%nat = Some a ∧ a < 255.
Proof.
  revert i. induction fuel as [|fuel IH]; intros i Hloop; [done|].
  simpl in Hloop. destruct (data !! i) as [a|] eqn:Hi; [|done].
  destruct (Z.ltb_spec a 255) as [Ha|Ha].
  - exists 0%nat, a. by rewrite Nat.add_0_r.
  - apply IH in Hloop as (j & b & Hj & Hb). exists (S j), b.
    split; [|done]. rewrite <- Hj. f_equal. lia.
Qed.

Lemma alphaLoop_complete (stride : nat) (data : list Z) (i j fuel : nat) (a : Z) :
  data !! (i + j * stride)%nat = Some a → a < 255 → (j < fuel)%nat →
  alphaLoop stride data i fuel = true.
Proof.
  revert i j. induction fuel as [|fuel IH]; intros i j Hj Ha Hfuel; [lia|].
  simpl. destruct (data !! i) as [b|] eqn:Hi.
  - destruct (Z.ltb_spec b 255) as [Hb|Hb]; [done|].
    destruct j as [|j].
    + rewrite Nat.add_0_r in Hj. assert (a = b) by congruence. lia.
    + apply (IH (i + stride)%nat j); [|done|lia].
      rewrite <- Hj. f_equal. lia.
  - apply lookup_ge_None in Hi. apply lookup_lt_Some in Hj. lia.
Qed.

(** The scan of every fourth byte finds exactly the images that have a
    pixel short of full opacity. *)
Lemma fullScan_detects (data : list Z) :
  FullScan.hasTransparency (Some data) = true ↔ hasAlphaPixel data.
Proof.
  unfold FullScan.hasTransparency, hasTransparencyWith, hasAlphaPixel. split.
  - intros (j & a & Hj & Ha)%alphaLoop_sound. exists j, a.
    split; [|done]. rewrite <- Hj. f_equal. lia.
  - intros (p & a & Hp & Ha).
    apply (alphaLoop_complete 4 data 3 p _ a); [|done|].
    + rewrite <- Hp. f_equal. lia.
    + apply lookup_lt_Some in Hp. lia.
Qed.

(** X24.  The revision with the full scan does what the specification asks of
    the re-compression: a PNG keeps its format exactly when the canvas has
    a pixel short of full opacity, and is flattened on white otherwise. *)
Lemma fullScan_recompression (env : Env) (dataUrl : string) (img : Decoded)
    (maxWidth : Z) (q : Q) (data : list Z) :
  decode env dataUrl = Some img → context2d env = true →
  isPNG dataUrl = true →
  rendered img (canvasSize img maxWidth).1 (canvasSize img maxWidth).2
    = Some data →
  ∃ o, FullScan.compressExistingImage env dataUrl maxWidth q = Encoded o
       ∧ (hasAlphaPixel data → mime o = ImagePng ∧ fill o = NoFill)
       ∧ (¬ hasAlphaPixel data → mime o = ImageJpeg ∧ fill o = White).
Proof.
  intros Hdec Hctx Hpng Hdata. unfold FullScan.compressExistingImage.
  rewrite Hdec, Hctx, Hpng.
  destruct (canvasSize img maxWidth) as [cw ch]. simpl in *. rewrite Hdata.
  destruct (FullScan.hasTransparency (Some data)) eqn:Hscan;
    eexists; (split; [reflexivity|]); simpl.
  - split; [done|]. intros Hno. destruct Hno. by apply fullScan_detects.
  - split; [|done]. intros Hyes%fullScan_detects. congruence.
Qed.

(** The sampling revision keeps a PNG lossless exactly when one of the
    alpha bytes it looks at is below 255 (or the canvas cannot be read). *)
Lemma sampled_recompression (env : Env) (dataUrl : string) (img : Decoded)
    (maxWidth : Z) (q : Q) :
  decode env dataUrl = Some img → context2d env = true →
  isPNG dataUrl = true →
  ∃ o, Sampled.compressExistingImage env dataUrl maxWidth q = Encoded o
       ∧ (mime o = ImagePng
          ↔ Sampled.hasTransparency
              (rendered img (canvasSize img maxWidth).1
                 (canvasSize img maxWidth).2) = true).
Proof.
  intros Hdec Hctx Hpng. unfold Sampled.compressExistingImage.
  rewrite Hdec, Hctx, Hpng.
  destruct (canvasSize img maxWidth) as [cw ch]. simpl.
  destruct (Sampled.hasTransparency (rendered img cw ch));
    eexists; (split; [reflexivity|]); simpl; split; done.
Qed.

(** The last revision has no lossless path at all. *)
Lemma flattening_always_jpeg (env : Env) (dataUrl : string) (maxWidth : Z)
    (q : Q) (o : Output) :
  Flattening.compressExistingImage env dataUrl maxWidth q = Encoded o →
  mime o = ImageJpeg ∧ fill o = WarmPaper.
Proof.
  unfold Flattening.compressExistingImage.
  destruct (decode env dataUrl) as [img|]; [|done].
  destruct (canvasSize img maxWidth) as [cw ch].
  destruct (context2d env); simpl; [|done].
  by intros [= <-].
Qed.

(** C9, at the failing input: a PNG of two pixels whose second pixel is
    fully transparent.  The revision that samples one alpha byte in a
    hundred reads the first pixel only and flattens the image on white;
    the later revision flattens every image on the page colour.  Both
    encode it as a JPEG, the revision with the full scan as a PNG. *)
Theorem recompression_flattens_transparent_png :
  isPNG Examples.pngUrl = true
  ∧ hasAlphaPixel Examples.twoPixels
  ∧ Sampled.hasTransparency (Some Examples.twoPixels) = false
  ∧ Sampled.compressExistingImage Examples.browser Examples.pngUrl 800 (85 # 100)
    = Encoded (mkOutput ImageJpeg 2 1 White (85 # 100))
  ∧ Flattening.compressExistingImage Examples.browser Examples.pngUrl 800
      (85 # 100)
    = Encoded (mkOutput ImageJpeg 2 1 WarmPaper (85 # 100))
  ∧ FullScan.compressExistingImage Examples.browser Examples.pngUrl 800
      (85 # 100)
    = Encoded (mkOutput ImagePng 2 1 NoFill (85 # 100)).
Proof.
  split_and!; try (vm_compute; reflexivity).
  exists 1%nat, 0. split; [reflexivity|lia].
Qed.

End AlphaScan.

(* ===================================================================== *)
(** * The sync service *)
(* ===================================================================== *)

Section SyncFacts.
Import GithubSync.

Lemma gt_sizeInMB (sizeInBytes limit : Z) :
  gt (sizeInMB sizeInBytes) (inject_Z limit) = true
  ↔ limit * (1024 * 1024) < sizeInBytes.
Proof.
  unfold gt. rewrite negb_true_iff, <- not_true_iff_false, Qle_bool_iff.
  unfold sizeInMB, Qle, Qdiv, Qmult, Qinv. simpl. lia.
Qed.

Lemma gt_sizeInMB_10 (sizeInBytes : Z) :
  gt (sizeInMB sizeInBytes) 10 = true ↔ 10 * 1024 * 1024 < sizeInBytes.
Proof. rewrite (gt_sizeInMB sizeInBytes 10). lia. Qed.

Lemma gt_sizeInMB_5 (sizeInBytes : Z) :
  gt (sizeInMB sizeInBytes) 5 = true ↔ 5 * 1024 * 1024 < sizeInBytes.
Proof. rewrite (gt_sizeInMB sizeInBytes 5). lia. Qed.

Lemma send_one_request (env : Env) (tok body : string) (st : State) :
  (∃ req, trace (send env tok body st) = [Fetched req])
  ∧ ∀ n, result (send env tok body st) ≠ inr (SizeLimit n).
Proof.
  unfold send, updateGist, createGist, uploadError.
  destruct (present (gistId st)) as [gid|];
    destruct (fetch env _) as [r|]; simpl; [|by eauto| |by eauto];
    destruct (ok r), (json r) as [| |[m|]| |]; simpl;
    try destruct (includes _ _); simpl; split; eauto; done.
Qed.

(** C5.  A logged-in upload of a catalogue whose serialization passes the
    round-trip check: above 10 MiB it is refused with the size error
    before any request is sent, and the service is left as it was; above
    5 MiB and up to 10 MiB a warning is issued and the upload goes on to the
    one request that creates or updates the backup, whose outcome is the
    upload's (never the size error). *)
Theorem upload_size_limits (env : Env) (stickerSets parsed : list StickerSet)
    (st : State) (tok : string) :
  present (token st) = Some tok →
  parse env (stringify env stickerSets) = ParsedArray parsed →
  let size := blobSize env (stringify env stickerSets) in
  let out := upload env stickerSets st in
  (10 * 1024 * 1024 < size →
     result out = inr (SizeLimit size) ∧ trace out = [] ∧ final out = st)
  ∧ (5 * 1024 * 1024 < size <= 10 * 1024 * 1024 →
     let sent := send env tok (stringify env stickerSets) st in
     result out = result sent ∧ final out = final sent
     ∧ trace out = Warned size :: trace sent
     ∧ (∃ req, trace sent = [Fetched req])
     ∧ ∀ n, result out ≠ inr (SizeLimit n)).
Proof.
  intros Htok Hparse size out. subst out. unfold upload.
  rewrite Htok, Hparse. fold size. split.
  - intros Hbig%gt_sizeInMB_10. by rewrite Hbig.
  - intros [Hlow Hhigh].
    destruct (gt (sizeInMB size) 10) eqn:Hten.
    { apply gt_sizeInMB_10 in Hten. lia. }
    apply gt_sizeInMB_5 in Hlow. rewrite Hlow. simpl.
    destruct (send_one_request env tok (stringify env stickerSets) st)
      as [Hreq Hsize].
    by split_and!.
Qed.

Lemma upload_size_limits_witness :
  let size := blobSize (Examples.cloud (11 * 1024 * 1024))
                (stringify (Examples.cloud (11 * 1024 * 1024)) []) in
  let out := upload (Examples.cloud (11 * 1024 * 1024)) [] Examples.loggedIn in
  (10 * 1024 * 1024 < size →
     result out = inr (SizeLimit size) ∧ trace out = []
     ∧ final out = Examples.loggedIn)
  ∧ (5 * 1024 * 1024 < size <= 10 * 1024 * 1024 →
     let sent := send (Examples.cloud (11 * 1024 * 1024)) "token"
                   (stringify (Examples.cloud (11 * 1024 * 1024)) [])
                   Examples.loggedIn in
     result out = result sent ∧ final out = final sent
     ∧ trace out = Warned size :: trace sent
     ∧ (∃ req, trace sent = [Fetched req])
     ∧ ∀ n, result out ≠ inr (SizeLimit n)).
Proof.
  apply (upload_size_limits (Examples.cloud (11 * 1024 * 1024)) [] []
           Examples.loggedIn "token").
  - reflexivity.
  - reflexivity.
Defined.

(** Scenario 2 of the specification, and its neighbours: 11 MiB is
    refused without a request; 6 MiB is sent after a warning; 1 MiB is
    sent without one. *)
Example upload_scenarios :
  upload (Examples.cloud (11 * 1024 * 1024)) [] Examples.loggedIn
  = mkOutcome (inr (SizeLimit 11534336)) Examples.loggedIn []
  ∧ upload (Examples.cloud (6 * 1024 * 1024)) [] Examples.loggedIn
    = mkOutcome (inl ()) (mkState (Some "token"%string) (Some "g1"%string))
        [Warned 6291456;
         Fetched (CreateGist "token" BACKUP_DESCRIPTION GIST_FILENAME "[]")]
  ∧ upload (Examples.cloud (1024 * 1024)) [] Examples.loggedIn
    = mkOutcome (inl ()) (mkState (Some "token"%string) (Some "g1"%string))
        [Fetched (CreateGist "token" BACKUP_DESCRIPTION GIST_FILENAME "[]")].
Proof. vm_compute. repeat split. Qed.

End SyncFacts.

Section DownloadFacts.
Import GithubSync Spec.

Lemma findGistByDescription_withEmbedded (c : string) (env : Env)
    (tok : string) (st : State) :
  findGistByDescription (withEmbedded c env) tok st
  = findGistByDescription env tok st.
Proof. reflexivity. Qed.

Lemma locate_withEmbedded (c : string) (env : Env) (tok : string) (st : State) :
  locate (withEmbedded c env) tok st = locate env tok st.
Proof. reflexivity. Qed.

Lemma interpret_withEmbedded (c : string) (env : Env) (t : string) :
  interpret (withEmbedded c env) t = interpret env t.
Proof. reflexivity. Qed.

(** The content that [download] goes on with does not depend on what the
    metadata embeds for a file it marks truncated. *)
Lemma fileContent_embed (c : string) (env : Env) (tok : string)
    (file : GistFile) :
  fileContent (withEmbedded c env) tok (embed c file)
  = fileContent env tok file.
Proof.
  unfold fileContent, embed. by destruct (truncated file) eqn:Ht; simpl; rewrite ?Ht.
Qed.

Lemma downloadGist_withEmbedded (c : string) (env : Env) (tok gid : string)
    (st : State) :
  downloadGist (withEmbedded c env) tok gid st = downloadGist env tok gid st.
Proof.
  unfold downloadGist. simpl.
  destruct (fetch env (GetGist tok gid)) as [r|]; simpl; [|done].
  unfold embedInResponse.
  destruct (json r) as [g| | | |] eqn:Hjson; simpl; rewrite ?Hjson; try done.
  destruct (ok r); [|done].
  rewrite lookup_fmap.
  destruct (files g !! GIST_FILENAME) as [file|]; simpl; [|done].
  by rewrite fileContent_embed.
Qed.

Lemma download_withEmbedded (c : string) (env : Env) (st : State) :
  download (withEmbedded c env) st = download env st.
Proof.
  unfold download. destruct (present (token st)) as [tok|]; [|done].
  rewrite locate_withEmbedded.
  destruct (result (locate env tok st)); [|done].
  destruct (present (gistId (final (locate env tok st)))) as [gid|]; [|done].
  by rewrite downloadGist_withEmbedded.
Qed.

(** C4.  When the backup's file is marked truncated, [download] requests
    the file's raw location and its result is the interpretation of the
    text served there (or the error of that request); the content embedded
    in the metadata has no part in it: whatever the metadata embeds, the
    download is the same. *)
Theorem download_refetches_truncated (env : Env) (st : State)
    (tok gid : string) (response : Response) (gist : Gist) (file : GistFile) :
  present (token st) = Some tok →
  result (locate env tok st) = inl () →
  present (gistId (final (locate env tok st))) = Some gid →
  fetch env (GetGist tok gid) = Some response → ok response = true →
  json response = JsonGist gist →
  files gist !! GIST_FILENAME = Some file →
  truncated file = true →
  let out := download env st in
  Fetched (GetRaw tok (raw_url file)) ∈ trace out
  ∧ result out
    = match fetch env (GetRaw tok (raw_url file)) with
      | Some raw => if ok raw then interpret env (text raw)
                    else inr (RawFetchFailed (status raw))
      | None => inr NetworkFailure
      end
  ∧ (∀ raw data, fetch env (GetRaw tok (raw_url file)) = Some raw →
       ok raw = true → parse env (text raw) = ParsedArray data →
       trimStart (text raw) ≠ ""%string →
       String.prefix "<!DOCTYPE" (trimStart (text raw)) = false →
       String.prefix "<html" (trimStart (text raw)) = false →
       result out = inl data)
  ∧ (∀ c, download (withEmbedded c env) st = download env st).
Proof.
  intros Htok Hfound Hgid Hfetch Hok Hjson Hfile Htrunc out.
  assert (trace out
          = trace (locate env tok st)
            ++ Fetched (GetGist tok gid) :: [Fetched (GetRaw tok (raw_url file))]
          ∧ result out
            = match fetch env (GetRaw tok (raw_url file)) with
              | Some raw => if ok raw then interpret env (text raw)
                            else inr (RawFetchFailed (status raw))
              | None => inr NetworkFailure
              end) as [Htrace Hresult].
  { subst out. unfold download. rewrite Htok, Hfound, Hgid. simpl.
    unfold downloadGist. rewrite Hfetch, Hok, Hjson, Hfile.
    unfold fileContent. rewrite Htrunc.
    destruct (fetch env (GetRaw tok (raw_url file))) as [raw|]; [|done].
    by destruct (ok raw). }
  split_and!.
  - rewrite Htrace. apply elem_of_app. right.
    apply list_elem_of_further, list_elem_of_here.
  - done.
  - intros raw data Hraw Hrawok Hparse Hne Hdoc Hhtml.
    rewrite Hresult, Hraw, Hrawok. unfold interpret.
    destruct (String.eqb_spec (trimStart (text raw)) ""); [done|].
    by rewrite Hdoc, Hhtml, Hparse.
  - intros c. apply download_withEmbedded.
Qed.

Lemma download_refetches_truncated_witness :
  let out := download Examples.remote Examples.synced in
  Fetched (GetRaw "token" (raw_url Examples.cutFile)) ∈ trace out
  ∧ result out
    = match fetch Examples.remote (GetRaw "token" (raw_url Examples.cutFile)) with
      | Some raw => if ok raw then interpret Examples.remote (text raw)
                    else inr (RawFetchFailed (status raw))
      | None => inr NetworkFailure
      end
  ∧ (∀ raw data,
       fetch Examples.remote (GetRaw "token" (raw_url Examples.cutFile))
       = Some raw →
       ok raw = true → parse Examples.remote (text raw) = ParsedArray data →
       trimStart (text raw) ≠ ""%string →
       String.prefix "<!DOCTYPE" (trimStart (text raw)) = false →
       String.prefix "<html" (trimStart (text raw)) = false →
       result out = inl data)
  ∧ (∀ c, download (withEmbedded c Examples.remote) Examples.synced
          = download Examples.remote Examples.synced).
Proof.
  apply (download_refetches_truncated Examples.remote Examples.synced
           "token" "g1"
           (mkResponse true 200 "" (JsonGist Examples.backupGist))
           Examples.backupGist Examples.cutFile).
  - reflexivity.
  - reflexivity.
  - reflexivity.
  - reflexivity.
  - reflexivity.
  - reflexivity.
  - reflexivity.
  - reflexivity.
Defined.

(** The truncation scenario: the metadata embeds the cut text ["[{"], the
    raw location serves the whole backup, and the download returns the
    collections parsed from the whole backup, after two requests. *)
Example download_truncated_scenario :
  download Examples.remote Examples.synced
  = mkOutcome (inl [Examples.setA; Examples.setB]) Examples.synced
      [Fetched (GetGist "token" "g1");
       Fetched (GetRaw "token" "https://gist.example/raw")].
Proof. vm_compute. reflexivity. Qed.

End DownloadFacts.

(* ===================================================================== *)
(** * services/storage.ts: single writes, deletion, overwriting *)
(* ===================================================================== *)

Section StorageFacts.
Import Js IndexedDB Spec Invariants.

Lemma keyedById_empty : keyedById ∅.
Proof. intros k r Hr. by rewrite lookup_empty in Hr. Qed.

Lemma keyedById_put (s : StickerSet) (db : ObjectStore) :
  keyedById db → keyedById (put s db).
Proof.
  intros Hdb k r Hr. unfold put in Hr.
  apply lookup_insert_Some in Hr as [[<- <-]|[_ Hr]]; [done|by apply Hdb].
Qed.

Lemma keyedById_putAll (l : list StickerSet) (db : ObjectStore) :
  keyedById db → keyedById (putAll l db).
Proof.
  revert db. induction l as [|s l IH]; intros db Hdb; [done|].
  rewrite putAll_cons. by apply IH, keyedById_put.
Qed.

Lemma keyedById_delete (k : string) (db : ObjectStore) :
  keyedById db → keyedById (delete k db).
Proof.
  intros Hdb j r Hr. apply lookup_delete_Some in Hr as [_ Hr]. by apply Hdb.
Qed.

Lemma elem_of_records_inv (db : ObjectStore) (s : StickerSet) :
  keyedById db → s ∈ records db → db !! id s = Some s.
Proof.
  intros Hdb Hs. unfold records in Hs.
  apply list_elem_of_fmap in Hs as ([k r] & -> & Hkr).
  apply elem_of_map_to_list in Hkr. simpl.
  by rewrite (Hdb _ _ Hkr).
Qed.

Lemma filter_all {A : Type} (P : A → Prop) `{!∀ x, Decision (P x)}
    (l : list A) :
  Forall P l → filter P l = l.
Proof.
  induction 1 as [|x l Hx Hl IH]; [done|].
  rewrite filter_cons_True by done. by rewrite IH.
Qed.

Lemma records_without (k : string) (db : ObjectStore) :
  keyedById db → db !! k = None →
  filter (λ r, id r ≠ k) (records db) = records db.
Proof.
  intros Hdb Hk. apply filter_all, Forall_forall. intros r Hr Heq.
  apply elem_of_records_inv in Hr; [|done]. rewrite Heq in Hr. congruence.
Qed.

Lemma records_delete (k : string) (db : ObjectStore) :
  keyedById db →
  records (delete k db) ≡ₚ filter (λ r, id r ≠ k) (records db).
Proof.
  intros Hdb. destruct (db !! k) as [x|] eqn:Hk.
  - assert (records db ≡ₚ x :: records (delete k db)) as ->.
    { unfold records. by rewrite <- (map_to_list_delete db k x Hk). }
    rewrite filter_cons_False by (intros Hx; apply Hx; by apply Hdb).
    rewrite records_without; [done|by apply keyedById_delete|].
    apply lookup_delete_eq.
  - rewrite delete_id by done. by rewrite records_without.
Qed.

Lemma records_put (s : StickerSet) (db : ObjectStore) :
  keyedById db →
  records (put s db) ≡ₚ s :: filter (λ r, id r ≠ id s) (records db).
Proof.
  intros Hdb. rewrite <- records_delete by done.
  unfold put, records. rewrite <- insert_delete_eq.
  rewrite map_to_list_insert by apply lookup_delete_eq. done.
Qed.

Lemma putAll_snoc (l : list StickerSet) (s : StickerSet) (db : ObjectStore) :
  putAll (l ++ [s]) db = put s (putAll l db).
Proof. unfold putAll. by rewrite foldl_snoc. Qed.

(** What a batch leaves under a key: the last record of the batch with
    that id, or what was there before. *)
Lemma putAll_lookup (l : list StickerSet) (db : ObjectStore) (k : string) :
  putAll l db !! k
  = match lastWithId k l with Some s => Some s | None => db !! k end.
Proof.
  induction l as [|s l IH] using rev_ind; [done|].
  rewrite putAll_snoc. unfold lastWithId. rewrite reverse_snoc. simpl.
  unfold put. destruct (decide (id s = k)) as [Hs|Hs].
  - simpl. by rewrite <- Hs, lookup_insert_eq.
  - rewrite lookup_insert_ne, IH by done. unfold lastWithId.
    by destruct (list_find _ (reverse l)) as [[i r]|].
Qed.

(** X1.  How each write of the current revision settles, and what it leaves in
    the store: the promise is resolved exactly when the transaction
    commits, rejected when a request fails, and never settled when every
    request succeeds and the commit fails; the store changes only in the
    first case. *)
Theorem current_writes_settle (bh : Behaviour) (s : StickerSet) (k : string)
    (batch : list StickerSet) (db : ObjectStore) :
  let verdict n :=
    if commits bh n then Resolved
    else if forallb (requestOk bh) (seq 0 n) then Pending else Rejected in
  Storage.saveStickerSet bh s db
    = (verdict 1%nat, if commits bh 1 then put s db else db)
  ∧ Storage.deleteStickerSet bh k db
    = (verdict 1%nat, if commits bh 1 then delete k db else db)
  ∧ Storage.clearAllStickerSets bh db
    = (verdict 1%nat, if commits bh 1 then ∅ else db)
  ∧ Storage.saveStickerSets bh [] db = (Resolved, db)
  ∧ (batch ≠ [] →
     Storage.saveStickerSets bh batch db
     = (verdict (length batch),
        if commits bh (length batch) then putAll batch db else db)).
Proof.
  intros verdict. subst verdict.
  unfold Storage.saveStickerSet, Storage.deleteStickerSet,
    Storage.clearAllStickerSets, Storage.saveStickerSets, finish.
  rewrite !current_settles. split_and!; try done.
  intros Hne. destruct (Nat.eqb_spec (length batch) 0) as [Hn|Hn].
  - by destruct batch.
  - done.
Qed.

(** X2.  A committed bulk write leaves under every id the last record of the
    batch with that id, and leaves every other key as it was: when a batch
    names an id twice, the later record wins. *)
Theorem saveStickerSets_last_write_wins (bh : Behaviour)
    (batch : list StickerSet) (db : ObjectStore) (k : string) :
  commits bh (length batch) = true →
  (Storage.saveStickerSets bh batch db).1 = Resolved
  ∧ (Storage.saveStickerSets bh batch db).2 !! k
    = match lastWithId k batch with Some s => Some s | None => db !! k end.
Proof.
  intros Hc. rewrite saveStickerSets_commits by done. simpl.
  split; [done|apply putAll_lookup].
Qed.

Lemma saveStickerSets_last_write_wins_witness :
  (Storage.saveStickerSets Examples.engineOk
     [Examples.setA; Examples.setB; with_order (Some 9) Examples.setA]
     (putAll [Examples.legacyC] ∅)).1 = Resolved
  ∧ (Storage.saveStickerSets Examples.engineOk
       [Examples.setA; Examples.setB; with_order (Some 9) Examples.setA]
       (putAll [Examples.legacyC] ∅)).2 !! "a"%string
    = match lastWithId "a"
              [Examples.setA; Examples.setB; with_order (Some 9) Examples.setA]
      with
      | Some s => Some s
      | None => putAll [Examples.legacyC] ∅ !! "a"%string
      end.
Proof.
  apply (saveStickerSets_last_write_wins Examples.engineOk
           [Examples.setA; Examples.setB; with_order (Some 9) Examples.setA]
           (putAll [Examples.legacyC] ∅) "a").
  reflexivity.
Defined.

(** X3.  A committed [saveStickerSet] followed by a read: the listing holds the
    saved record and, of the records stored before, exactly those with
    another id.  The record is inserted when its id is new and replaces
    the stored one otherwise. *)
Theorem saveStickerSet_then_getAll (bh rd : Behaviour) (s : StickerSet)
    (db : ObjectStore) :
  keyedById db → commits bh 1 = true → requestOk rd 0 = true →
  (Storage.saveStickerSet bh s db).1 = Resolved
  ∧ ∃ l, Storage.getAllStickerSets rd (Storage.saveStickerSet bh s db).2
         = Some l
       ∧ l ≡ₚ s :: filter (λ r, id r ≠ id s) (records db).
Proof.
  intros Hdb Hc Hrd.
  unfold Storage.saveStickerSet, Storage.getAllStickerSets, finish.
  rewrite current_settles, Hc, Hrd. simpl. split; [done|].
  eexists; split; [done|].
  by rewrite sort_Permutation, getAll_Permutation, records_put.
Qed.

Lemma saveStickerSet_then_getAll_witness :
  (Storage.saveStickerSet Examples.engineOk (with_order (Some 9) Examples.setA)
     (putAll [Examples.setA; Examples.setB] ∅)).1 = Resolved
  ∧ ∃ l, Storage.getAllStickerSets Examples.engineOk
           (Storage.saveStickerSet Examples.engineOk
              (with_order (Some 9) Examples.setA)
              (putAll [Examples.setA; Examples.setB] ∅)).2
         = Some l
       ∧ l ≡ₚ with_order (Some 9) Examples.setA
              :: filter (λ r, id r ≠ id (with_order (Some 9) Examples.setA))
                   (records (putAll [Examples.setA; Examples.setB] ∅)).
Proof.
  apply (saveStickerSet_then_getAll Examples.engineOk Examples.engineOk
           (with_order (Some 9) Examples.setA)
           (putAll [Examples.setA; Examples.setB] ∅)).
  - apply keyedById_putAll, keyedById_empty.
  - reflexivity.
  - reflexivity.
Defined.

(** X4.  A committed [deleteStickerSet] followed by a read: the id is gone, the
    listing holds exactly the records stored before under another id, and
    deleting an id that is not stored resolves all the same and changes
    nothing. *)
Theorem deleteStickerSet_then_getAll (bh rd : Behaviour) (k : string)
    (db : ObjectStore) :
  keyedById db → commits bh 1 = true → requestOk rd 0 = true →
  (Storage.deleteStickerSet bh k db).1 = Resolved
  ∧ (Storage.deleteStickerSet bh k db).2 !! k = None
  ∧ (db !! k = None → (Storage.deleteStickerSet bh k db).2 = db)
  ∧ ∃ l, Storage.getAllStickerSets rd (Storage.deleteStickerSet bh k db).2
         = Some l
       ∧ l ≡ₚ filter (λ r, id r ≠ k) (records db).
Proof.
  intros Hdb Hc Hrd.
  unfold Storage.deleteStickerSet, Storage.getAllStickerSets, finish.
  rewrite current_settles, Hc, Hrd. simpl. split_and!.
  - done.
  - apply lookup_delete_eq.
  - apply delete_id.
  - eexists; split; [done|].
    by rewrite sort_Permutation, getAll_Permutation, records_delete.
Qed.

Lemma deleteStickerSet_then_getAll_witness :
  (Storage.deleteStickerSet Examples.engineOk "a"
     (putAll [Examples.setA; Examples.setB] ∅)).1 = Resolved
  ∧ (Storage.deleteStickerSet Examples.engineOk "a"
       (putAll [Examples.setA; Examples.setB] ∅)).2 !! "a"%string = None
  ∧ (putAll [Examples.setA; Examples.setB] ∅ !! "a"%string = None →
     (Storage.deleteStickerSet Examples.engineOk "a"
        (putAll [Examples.setA; Examples.setB] ∅)).2
     = putAll [Examples.setA; Examples.setB] ∅)
  ∧ ∃ l, Storage.getAllStickerSets Examples.engineOk
           (Storage.deleteStickerSet Examples.engineOk "a"
              (putAll [Examples.setA; Examples.setB] ∅)).2
         = Some l
       ∧ l ≡ₚ filter (λ r, id r ≠ "a"%string)
                (records (putAll [Examples.setA; Examples.setB] ∅)).
Proof.
  apply (deleteStickerSet_then_getAll Examples.engineOk Examples.engineOk "a"
           (putAll [Examples.setA; Examples.setB] ∅)).
  - apply keyedById_putAll, keyedById_empty.
  - reflexivity.
  - reflexivity.
Defined.

End StorageFacts.

(* ===================================================================== *)
(** * src/services/storage.ts: how the earlier revision settles *)
(* ===================================================================== *)

Section LegacyFacts.
Import Js IndexedDB Spec.

Lemma legacy_settled_stays (n : nat) (evs : list Event)
    (s : StorageLegacy.SaveState) :
  StorageLegacy.promise s ≠ Pending →
  StorageLegacy.promise (deliver (StorageLegacy.onEvent n) evs s)
  = StorageLegacy.promise s.
Proof.
  revert s. induction evs as [|e evs IH]; intros s Hs; [done|].
  simpl.
  assert (StorageLegacy.promise (StorageLegacy.onEvent n e s)
          = StorageLegacy.promise s) as Hstep.
  { destruct s as [c er p]. simpl in Hs.
    destruct p; [done| |]; destruct e; try reflexivity;
      unfold StorageLegacy.onEvent;
      cbn [StorageLegacy.promise StorageLegacy.completed StorageLegacy.errors];
      try (by destruct (S c =? n)%nat); by destruct er. }
  fold (deliver (StorageLegacy.onEvent n) evs (StorageLegacy.onEvent n e s)).
  rewrite IH; [done|]. by rewrite Hstep.
Qed.

(** While requests are being answered and fewer than [n] have succeeded,
    the first failure rejects the promise. *)
Lemma legacy_requests_fail (n c i todo : nat) (ok : nat → bool) :
  (c + todo ≤ n)%nat →
  forallb ok (seq i todo) = false →
  StorageLegacy.promise
    (deliver (StorageLegacy.onEvent n) (requestEvents ok i todo false)
       (StorageLegacy.mkSaveState c false Pending))
  = Rejected.
Proof.
  revert c i. induction todo as [|todo IH]; intros c i Hn Hall; [done|].
  simpl in Hall. simpl requestEvents. destruct (ok i) eqn:Hi.
  - simpl in Hall.
    change (deliver (StorageLegacy.onEvent n)
              (RequestSuccess i :: requestEvents ok (S i) todo false)
              (StorageLegacy.mkSaveState c false Pending))
      with (deliver (StorageLegacy.onEvent n)
              (requestEvents ok (S i) todo false)
              (StorageLegacy.onEvent n (RequestSuccess i)
                 (StorageLegacy.mkSaveState c false Pending))).
    rewrite legacy_success_step.
    destruct (Nat.eqb_spec (S c) n) as [Heq|Hneq].
    + assert (todo = 0%nat) as -> by lia. discriminate Hall.
    + apply IH; [lia|done].
  - change (deliver (StorageLegacy.onEvent n)
              (RequestError i :: TransactionError
                 :: requestEvents ok (S i) todo true)
              (StorageLegacy.mkSaveState c false Pending))
      with (deliver (StorageLegacy.onEvent n)
              (requestEvents ok (S i) todo true)
              (StorageLegacy.mkSaveState c true Rejected)).
    by rewrite legacy_settled_stays.
Qed.

(** X5.  The earlier [saveStickerSets] always settles, and on the requests
    alone: it is resolved when every request succeeds, whether or not the
    transaction then commits, and rejected when one fails.  With a failed
    commit the store is what it was, so a resolved promise does not mean
    that the batch is stored. *)
Theorem legacy_saveStickerSets_outcome (bh : Behaviour)
    (batch : list StickerSet) (db : ObjectStore) :
  batch ≠ [] →
  (StorageLegacy.saveStickerSets bh batch db).1
    = (if forallb (requestOk bh) (seq 0 (length batch))
       then Resolved else Rejected)
  ∧ (StorageLegacy.saveStickerSets bh batch db).2
    = (if commits bh (length batch) then putAll batch db else db).
Proof.
  intros Hne. unfold StorageLegacy.saveStickerSets.
  destruct (Nat.eqb_spec (length batch) 0) as [Hn|Hn]; [by destruct batch|].
  simpl. split; [|done].
  destruct (forallb _ _) eqn:Hall.
  - unfold events. rewrite deliver_app, requestEvents_all_ok by done.
    rewrite (legacy_counts_successes _ 0) by lia.
    by destruct (commits bh (length batch)).
  - unfold events. rewrite deliver_app.
    pose proof (legacy_requests_fail (length batch) 0 0 (length batch)
                  (requestOk bh) ltac:(lia) Hall) as Hrej.
    rewrite legacy_settled_stays; [done|]. by rewrite Hrej.
Qed.

Lemma legacy_saveStickerSets_outcome_witness :
  (StorageLegacy.saveStickerSets Examples.commitFails
     [Examples.setA; Examples.setB] ∅).1
    = (if forallb (requestOk Examples.commitFails)
            (seq 0 (length [Examples.setA; Examples.setB]))
       then Resolved else Rejected)
  ∧ (StorageLegacy.saveStickerSets Examples.commitFails
       [Examples.setA; Examples.setB] ∅).2
    = (if commits Examples.commitFails (length [Examples.setA; Examples.setB])
       then putAll [Examples.setA; Examples.setB] ∅ else ∅).
Proof.
  apply (legacy_saveStickerSets_outcome Examples.commitFails
           [Examples.setA; Examples.setB] ∅).
  discriminate.
Defined.

(** X6.  The single-record writes of the earlier revision settle on their
    request: with the request accepted, [saveStickerSet] and
    [deleteStickerSet] are resolved even when the commit fails and the
    store is left as it was; with the request refused they are rejected. *)
Theorem legacy_single_writes_settle_on_request (bh : Behaviour)
    (s : StickerSet) (k : string) (db : ObjectStore) :
  StorageLegacy.saveStickerSet bh s db
    = (if requestOk bh 0 then Resolved else Rejected,
       if requestOk bh 0 && commitOk bh then put s db else db)
  ∧ StorageLegacy.deleteStickerSet bh k db
    = (if requestOk bh 0 then Resolved else Rejected,
       if requestOk bh 0 && commitOk bh then delete k db else db).
Proof.
  unfold StorageLegacy.saveStickerSet, StorageLegacy.deleteStickerSet,
    finish, events, commits.
  simpl. destruct (requestOk bh 0); simpl; [|done].
  by destruct (commitOk bh).
Qed.

End LegacyFacts.

(* ===================================================================== *)
(** * App.tsx: the listing and the store *)
(* ===================================================================== *)

Section MirrorFacts.
Import Js IndexedDB Spec Invariants.

Lemma lastWithId_None (k : string) (l : list StickerSet) :
  lastWithId k l = None ↔ k ∉ id <$> l.
Proof.
  unfold lastWithId. rewrite fmap_None, list_find_None, Forall_reverse.
  rewrite Forall_forall. split.
  - intros Hl (s & -> & Hs)%list_elem_of_fmap. by apply (Hl s).
  - intros Hk s Hs Hid. apply Hk, list_elem_of_fmap. by exists s.
Qed.

(** A batch that names every id of an earlier one overwrites it. *)
Lemma putAll_absorb (l l' : list StickerSet) :
  (∀ k, k ∈ id <$> l → k ∈ id <$> l') →
  putAll l' (putAll l ∅) = putAll l' ∅.
Proof.
  intros Hsub. apply map_eq. intros k.
  rewrite (putAll_lookup l'), (putAll_lookup l' ∅).
  destruct (lastWithId k l') as [s|] eqn:Hlast; [done|].
  apply lastWithId_None in Hlast.
  apply putAll_lookup_other. intros Hk. by apply Hlast, Hsub.
Qed.

Lemma putAll_empty_lookup_Some (l : list StickerSet) (k : string)
    (s : StickerSet) :
  NoDup (id <$> l) → putAll l ∅ !! k = Some s ↔ s ∈ l ∧ id s = k.
Proof.
  intros Hnd. split.
  - intros Hs. split.
    + by apply putAll_lookup_Some in Hs as [Hs|Hs].
    + by apply (keyedById_putAll l ∅ keyedById_empty).
  - intros [Hs <-]. by apply putAll_lookup_elem.
Qed.

Lemma mirrored_listingStored (st : App.State) :
  mirrored st → listingStored (App.sets st) (App.db st).
Proof.
  intros [Hnd Hdb] s Hs. rewrite Hdb. by apply putAll_lookup_elem.
Qed.

Lemma mirrored_same (st st' : App.State) :
  App.sets st' = App.sets st → App.db st' = App.db st →
  mirrored st → mirrored st'.
Proof. unfold mirrored. by intros -> ->. Qed.

(** A store is mirrored by every listing of its records. *)
Lemma records_mirror (d : ObjectStore) (l : list StickerSet) :
  keyedById d → l ≡ₚ records d →
  NoDup (id <$> l) ∧ d = putAll l ∅.
Proof.
  intros Hd Hl.
  assert (NoDup (id <$> l)) as Hnd.
  { rewrite Hl. unfold records. rewrite <- list_fmap_compose.
    assert ((id ∘ snd) <$> map_to_list d = (map_to_list d).*1) as ->.
    { apply list_fmap_ext. intros i [k r] Hkr. simpl.
      apply list_elem_of_lookup_2, elem_of_map_to_list in Hkr.
      by apply Hd. }
    apply NoDup_fst_map_to_list. }
  split; [done|]. apply map_eq. intros k. apply option_eq. intros s.
  rewrite putAll_empty_lookup_Some by done. rewrite Hl. split.
  - intros Hs. pose proof (Hd _ _ Hs) as <-.
    split; [by apply elem_of_records|done].
  - intros [Hs <-]. by apply elem_of_records_inv.
Qed.

(** ** How the writes of the handlers end *)

Lemma saveStickerSets_cases (bh : Behaviour) (l : list StickerSet)
    (d : ObjectStore) :
  Storage.saveStickerSets bh l d = (Resolved, putAll l d)
  ∨ ∃ p, p ≠ Resolved ∧ Storage.saveStickerSets bh l d = (p, d).
Proof.
  unfold Storage.saveStickerSets.
  destruct (Nat.eqb_spec (length l) 0) as [Hn|Hn].
  - left. by destruct l.
  - rewrite current_settles. unfold finish.
    destruct (commits bh (length l)); [by left|right].
    destruct (forallb _ _); eexists; (split; [|done]); done.
Qed.

Lemma saveStickerSet_cases (bh : Behaviour) (s : StickerSet)
    (d : ObjectStore) :
  Storage.saveStickerSet bh s d = (Resolved, put s d)
  ∨ ∃ p, p ≠ Resolved ∧ Storage.saveStickerSet bh s d = (p, d).
Proof.
  unfold Storage.saveStickerSet. rewrite current_settles. unfold finish.
  destruct (commits bh 1); [by left|right].
  destruct (forallb _ _); eexists; (split; [|done]); done.
Qed.

Lemma deleteStickerSet_cases (bh : Behaviour) (k : string)
    (d : ObjectStore) :
  Storage.deleteStickerSet bh k d = (Resolved, delete k d)
  ∨ ∃ p, p ≠ Resolved ∧ Storage.deleteStickerSet bh k d = (p, d).
Proof.
  unfold Storage.deleteStickerSet. rewrite current_settles. unfold finish.
  destruct (commits bh 1); [by left|right].
  destruct (forallb _ _); eexists; (split; [|done]); done.
Qed.

(** ** Each edit keeps the store a mirror of the listing *)

Lemma swapOrders_ids (iA iB : nat) (l : list StickerSet) :
  id <$> App.swapOrders iA iB l = id <$> l.
Proof.
  unfold App.swapOrders.
  destruct (l !! iA) as [a|] eqn:Ha; [|done].
  destruct (l !! iB) as [b|] eqn:Hb; [|done].
  assert (id <$> <[iA := with_order (Some (orZero (order b))) a]> l
          = id <$> l) as H1.
  { rewrite list_fmap_insert. apply list_insert_id.
    by rewrite list_lookup_fmap, Ha. }
  destruct (<[iA := _]> l !! iB) as [b1|] eqn:Hb1; [|done].
  rewrite list_fmap_insert, list_insert_id; [done|].
  by rewrite list_lookup_fmap, Hb1.
Qed.

Lemma click_keeps_mirrored (bh : Behaviour) (k : string) (st : App.State) :
  mirrored st → mirrored (App.handleSwapClick bh k st).
Proof.
  intros Hm. pose proof Hm as [Hnd Hdb]. unfold App.handleSwapClick.
  destruct (App.swapSourceId st) as [src|]; [|by apply (mirrored_same st)].
  destruct (decide (src = k)); [by apply (mirrored_same st)|].
  destruct (App.swapResult src k (App.sets st)) as [sorted|] eqn:Hres;
    [|by apply (mirrored_same st)].
  assert (id <$> sorted ≡ₚ id <$> App.sets st) as Hids.
  { unfold App.swapResult in Hres.
    destruct (App.findIndex src _) as [iA|]; [|done].
    destruct (App.findIndex k _) as [iB|]; [|done].
    injection Hres as <-. by rewrite sort_Permutation, swapOrders_ids. }
  destruct (saveStickerSets_cases bh sorted (App.db st))
    as [Hs|(p & Hp & Hs)]; rewrite Hs.
  - split; simpl.
    + by rewrite Hids.
    + rewrite Hdb. apply putAll_absorb. intros j Hj. by rewrite Hids.
  - destruct p; [|done|]; by apply (mirrored_same st).
Qed.

Lemma delete_keeps_mirrored (bh : Behaviour) (k : string) (st : App.State) :
  mirrored st → mirrored (App.handleDeleteSet bh k st).
Proof.
  intros Hm. pose proof Hm as [Hnd Hdb]. unfold App.handleDeleteSet.
  destruct (deleteStickerSet_cases bh k (App.db st))
    as [Hs|(p & Hp & Hs)]; rewrite Hs.
  - assert (NoDup (id <$> filter (λ s, id s ≠ k) (App.sets st))) as Hnd'.
    { eapply sublist_NoDup; [done|]. apply fmap_sublist, sublist_filter. }
    assert (delete k (App.db st)
            = putAll (filter (λ s, id s ≠ k) (App.sets st)) ∅) as Hdb'.
    { rewrite Hdb. apply map_eq. intros j. apply option_eq. intros s.
      rewrite lookup_delete_Some, !putAll_empty_lookup_Some by done.
      rewrite list_elem_of_filter.
      split; [intros (Hkj & Hin & <-)|intros ((Hkj & Hin) & <-)];
        split_and!; try done; by intros ->. }
    by destruct (decide (App.swapSourceId st = Some k)).
  - destruct p; [|done|]; by apply (mirrored_same st).
Qed.

Lemma create_keeps_mirrored (bh : Behaviour) (now createdNow : Z)
    (ser : string) (st : App.State) :
  pretty now ∉ id <$> App.sets st →
  mirrored st → mirrored (App.handleCreateNew bh now createdNow ser st).
Proof.
  intros Hfresh Hm. pose proof Hm as [Hnd Hdb]. unfold App.handleCreateNew.
  match goal with
  | |- context [Storage.saveStickerSets bh ?l _] => set (finalSets := l)
  end.
  assert (id <$> finalSets = pretty now :: (id <$> App.sets st)) as Hids.
  { unfold finalSets. rewrite fmap_cons, <- list_fmap_compose. done. }
  destruct (saveStickerSets_cases bh finalSets (App.db st))
    as [Hs|(p & Hp & Hs)]; rewrite Hs.
  - split.
    + change (NoDup (id <$> finalSets)). rewrite Hids. by apply NoDup_cons.
    + change (putAll finalSets (App.db st) = putAll finalSets ∅).
      rewrite Hdb. apply putAll_absorb. intros j Hj. rewrite Hids.
      by apply list_elem_of_further.
  - destruct p; [|done|]; by apply (mirrored_same st).
Qed.

Lemma save_keeps_mirrored (bh : Behaviour) (u : StickerSet) (st : App.State) :
  id u ∈ id <$> App.sets st →
  mirrored st → mirrored (App.handleSaveSet bh u st).
Proof.
  intros Hu Hm. pose proof Hm as [Hnd Hdb]. unfold App.handleSaveSet.
  destruct (saveStickerSet_cases bh u (App.db st))
    as [Hs|(p & Hp & Hs)]; rewrite Hs.
  - set (f := λ s : StickerSet, if decide (id s = id u) then u else s).
    assert (id <$> (f <$> App.sets st) = id <$> App.sets st) as Hids.
    { rewrite <- list_fmap_compose. apply list_fmap_ext.
      intros i s _. unfold f. simpl. by destruct (decide (id s = id u)). }
    split; simpl; [by rewrite Hids|].
    apply map_eq. intros j. apply option_eq. intros s.
    rewrite putAll_empty_lookup_Some by (by rewrite Hids).
    unfold put. rewrite Hdb, lookup_insert_Some.
    rewrite putAll_empty_lookup_Some by done.
    rewrite list_elem_of_fmap. split.
    + intros [[<- <-]|(Hj & Hs' & <-)].
      * split; [|done].
        apply list_elem_of_fmap in Hu as (x & Hx & Hin).
        exists x. split; [|done]. unfold f.
        by destruct (decide (id x = id u)).
      * split; [|done]. exists s. split; [|done].
        unfold f. by destruct (decide (id s = id u)).
    + intros [(x & -> & Hx) <-]. unfold f.
      destruct (decide (id x = id u)) as [Heq|Hne]; [by left|].
      right. by split_and!.
  - destruct p; [|done|]; by apply (mirrored_same st).
Qed.

(** X7.  Every edit of the listing page keeps the store a mirror of the
    listing: after a click on a card, a deletion, a creation or an editor
    save, whether the write behind it is resolved, rejected or never
    settles, the listing has one collection per id and the store holds
    exactly the listed collections. *)
Theorem edits_keep_store_mirrored (a : App.Action) (st : App.State) :
  applicable a st → mirrored st → mirrored (App.step a st).
Proof.
  intros Ha Hm. destruct a; simpl in *; try done.
  - by apply click_keeps_mirrored.
  - by apply delete_keeps_mirrored.
  - by apply create_keeps_mirrored.
  - by apply save_keeps_mirrored.
Qed.

Lemma edits_keep_store_mirrored_witness :
  mirrored (App.step (App.Save Examples.engineOk
                        (with_order (Some 4) Examples.setA))
              Examples.listedAB).
Proof.
  apply (edits_keep_store_mirrored
           (App.Save Examples.engineOk (with_order (Some 4) Examples.setA))
           Examples.listedAB).
  - apply list_elem_of_here.
  - split; [compute_done|reflexivity].
Defined.

End MirrorFacts.

(* ===================================================================== *)
(** * App.tsx: import, download, reload, creation, repeated swaps *)
(* ===================================================================== *)

Section ListingFacts.
Import Js IndexedDB Spec Invariants.




(** X9.  A restore is two transactions.  When the clearing commits and the
    write of a non-empty array does not, the store is left empty while the
    listing still shows the former collections; the failure is reported
    when a request was refused and passes unreported when the commit
    failed (the handler then never resumes). *)
Theorem restore_interrupted_empties_store (env : App.ImportEnv)
    (data : list StickerSet) (st : App.State) :
  App.confirmImport env = true → App.shouldClear env = true →
  commits (App.clearTx env) 1 = true →
  data ≠ [] →
  commits (App.saveTx env) (length data) = false →
  let st' := App.handleFileImport env (App.JsonArray data) st in
  App.db st' = ∅
  ∧ App.sets st' = App.sets st
  ∧ App.swapSourceId st' = App.swapSourceId st
  ∧ App.alerts st'
    = App.alerts st
        ++ (if forallb (requestOk (App.saveTx env)) (seq 0 (length data))
            then [] else [App.ImportFailed]).
Proof.
  intros Hconfirm Hclear Hc1 Hne Hc2 st'. subst st'.
  unfold App.handleFileImport, App.importWrites.
  rewrite Hconfirm, Hclear, clearAll_commits by done.
  destruct data as [|s data]; [done|].
  change (0 <? length (s :: data))%nat with true. cbv iota.
  unfold Storage.saveStickerSets. rewrite cleanData_length.
  change (length (s :: data) =? 0)%nat with false. cbv iota.
  rewrite current_settles. unfold finish. rewrite Hc2.
  destruct (forallb _ _); simpl; [|done].
  by rewrite app_nil_r.
Qed.

Lemma restore_interrupted_empties_store_witness :
  let env := App.mkImportEnv true true Examples.engineOk Examples.commitFails
               Examples.engineOk in
  let st' := App.handleFileImport env (App.JsonArray Examples.backup)
               Examples.listedAB in
  App.db st' = ∅
  ∧ App.sets st' = App.sets Examples.listedAB
  ∧ App.swapSourceId st' = App.swapSourceId Examples.listedAB
  ∧ App.alerts st'
    = App.alerts Examples.listedAB
        ++ (if forallb (requestOk (App.saveTx env))
                 (seq 0 (length Examples.backup))
            then [] else [App.ImportFailed]).
Proof.
  apply (restore_interrupted_empties_store
           (App.mkImportEnv true true Examples.engineOk Examples.commitFails
              Examples.engineOk)
           Examples.backup Examples.listedAB).
  - reflexivity.
  - reflexivity.
  - reflexivity.
  - discriminate.
  - reflexivity.
Defined.

Lemma normalizeOrders_ids (l : list StickerSet) :
  id <$> App.normalizeOrders l = id <$> l.
Proof. apply cleanData_ids. Qed.

Lemma normalizeOrders_ordered (l : list StickerSet) :
  Forall hasOrder l → App.normalizeOrders l = l.
Proof.
  intros Hl. apply list_eq. intros i. unfold App.normalizeOrders.
  rewrite list_lookup_imap. destruct (l !! i) as [s|] eqn:Hs; [|done].
  simpl. f_equal.
  apply list_elem_of_lookup_2 in Hs.
  destruct (proj1 (Forall_forall _ _) Hl s Hs) as [o Ho].
  rewrite Ho. by apply with_order_same.
Qed.

Lemma normalizeOrders_hasOrder (l : list StickerSet) :
  Forall hasOrder (App.normalizeOrders l).
Proof.
  apply Forall_forall. intros s (i & Hs)%list_elem_of_lookup_1.
  unfold App.normalizeOrders in Hs. rewrite list_lookup_imap in Hs.
  destruct (l !! i) as [x|]; [|done]. injection Hs as <-.
  unfold hasOrder. by eexists.
Qed.

(** X10.  A download that is saved merges into the store: the listing becomes
    the downloaded array, every id of the array holds its last record, and
    a collection that only the store had is neither removed nor listed;
    it is listed again by the next load of the page. *)
Theorem download_keeps_local_only_records (bh rd : Behaviour)
    (remote : list StickerSet) (st : App.State) :
  remote ≠ [] → commits bh (length remote) = true →
  requestOk rd 0 = true →
  let st' := App.handleDownloadFromGist bh (Some remote) st in
  App.sets st' = remote
  ∧ (∀ k, App.db st' !! k
          = match lastWithId k remote with
            | Some s => Some s
            | None => App.db st !! k
            end)
  ∧ (∀ r, App.db st !! id r = Some r → id r ∉ id <$> remote →
       (id r ∉ id <$> App.sets st')
       ∧ App.db st' !! id r = Some r
       ∧ id r ∈ id <$> App.sets (App.loadOnMount rd st')).
Proof.
  intros Hne Hc Hrd st'.
  assert (st' = App.alert (App.DownloadSucceeded (length remote))
                  (App.setSets remote
                     (App.setDb (putAll remote (App.db st)) st))) as ->.
  { subst st'. unfold App.handleDownloadFromGist.
    destruct remote as [|s remote]; [done|].
    change (length (s :: remote) =? 0)%nat with false. cbv iota.
    by rewrite saveStickerSets_commits. }
  simpl. split_and!; [done|intros k; apply putAll_lookup|].
  intros r Hr Hid.
  assert (putAll remote (App.db st) !! id r = Some r) as Hr'
    by (by rewrite putAll_lookup_other).
  split_and!; [done|done|].
  unfold App.loadOnMount, Storage.getAllStickerSets. rewrite Hrd. simpl.
  rewrite normalizeOrders_ids. apply list_elem_of_fmap. exists r.
  split; [done|]. rewrite elem_of_sort, getAll_Permutation.
  by apply elem_of_records.
Qed.

Lemma download_keeps_local_only_records_witness :
  let st' := App.handleDownloadFromGist Examples.engineOk
               (Some [Examples.setB]) Examples.listedAB in
  App.sets st' = [Examples.setB]
  ∧ (∀ k, App.db st' !! k
          = match lastWithId k [Examples.setB] with
            | Some s => Some s
            | None => App.db Examples.listedAB !! k
            end)
  ∧ (∀ r, App.db Examples.listedAB !! id r = Some r →
       id r ∉ id <$> [Examples.setB] →
       (id r ∉ id <$> App.sets st')
       ∧ App.db st' !! id r = Some r
       ∧ id r ∈ id <$> App.sets (App.loadOnMount Examples.engineOk st')).
Proof.
  apply (download_keeps_local_only_records Examples.engineOk Examples.engineOk
           [Examples.setB] Examples.listedAB).
  - discriminate.
  - reflexivity.
  - reflexivity.
Defined.

(** X11.  Loading the page: a failed read leaves the listing as it is; after a
    successful one every listed collection has an order and the listing
    names the stored ids, once each.  The orders given to records that
    lack one are not written back.  When every stored record has an order
    the listing is the stored records themselves, ascending. *)
Theorem loadOnMount_orders_listing (bh : Behaviour) (st : App.State) :
  keyedById (App.db st) →
  let st' := App.loadOnMount bh st in
  (requestOk bh 0 = false → st' = st)
  ∧ (requestOk bh 0 = true →
     Forall hasOrder (App.sets st')
     ∧ id <$> App.sets st' ≡ₚ id <$> records (App.db st)
     ∧ NoDup (id <$> App.sets st')
     ∧ App.db st' = App.db st
     ∧ (Forall hasOrder (records (App.db st)) →
        App.sets st' ≡ₚ records (App.db st)
        ∧ ascendingByOrder (App.sets st')
        ∧ mirrored st')).
Proof.
  intros Hkeyed st'. subst st'.
  unfold App.loadOnMount, Storage.getAllStickerSets. split.
  - by intros ->.
  - intros ->. simpl.
    set (l := sort Storage.compareSets (getAll (App.db st))).
    assert (l ≡ₚ records (App.db st)) as Hl
      by (unfold l; by rewrite sort_Permutation, getAll_Permutation).
    destruct (records_mirror _ _ Hkeyed Hl) as [Hnd Hdb].
    split_and!.
    + apply normalizeOrders_hasOrder.
    + by rewrite normalizeOrders_ids, Hl.
    + by rewrite normalizeOrders_ids.
    + done.
    + intros Hall.
      assert (Forall hasOrder (getAll (App.db st))) as Hall'
        by (by rewrite getAll_Permutation).
      assert (Forall hasOrder l) as Hall''
        by (unfold l; by rewrite sort_Permutation).
      rewrite normalizeOrders_ordered by done. split_and!.
      * done.
      * by apply sort_compareSets_ascending.
      * by split.
Qed.

Lemma loadOnMount_orders_listing_witness :
  let st' := App.loadOnMount Examples.engineOk Examples.threeStored in
  (requestOk Examples.engineOk 0 = false → st' = Examples.threeStored)
  ∧ (requestOk Examples.engineOk 0 = true →
     Forall hasOrder (App.sets st')
     ∧ id <$> App.sets st' ≡ₚ id <$> records (App.db Examples.threeStored)
     ∧ NoDup (id <$> App.sets st')
     ∧ App.db st' = App.db Examples.threeStored
     ∧ (Forall hasOrder (records (App.db Examples.threeStored)) →
        App.sets st' ≡ₚ records (App.db Examples.threeStored)
        ∧ ascendingByOrder (App.sets st')
        ∧ mirrored st')).
Proof.
  apply (loadOnMount_orders_listing Examples.engineOk Examples.threeStored).
  apply keyedById_putAll, keyedById_empty.
Defined.

(** X12.  A creation that is saved: the new collection is listed first with
    order 0, the first clock reading as its id and the second as its
    creation time, forty items without image and a matching count; every
    other collection keeps its place and its fields, with its order
    ([order || 0]) raised by one; a listing in swap order with no negative
    order stays in swap order; and the store holds the new collection when
    its id is new.  A creation that is not saved changes neither the
    listing nor the store. *)
Theorem create_puts_new_collection_first (bh : Behaviour)
    (now createdNow : Z) (ser : string) (st : App.State) :
  let st' := App.handleCreateNew bh now createdNow ser st in
  (commits bh (S (length (App.sets st))) = true →
   ∃ new rest,
     App.sets st' = new :: rest
     ∧ length rest = length (App.sets st)
     ∧ (∀ i s, App.sets st !! i = Some s →
          ∃ s', rest !! i = Some s' ∧ sameButOrder s s'
                ∧ order s' = Some (match order s with
                                   | Some o => o + 1
                                   | None => 1
                                   end))
     ∧ id new = pretty now ∧ order new = Some 0
     ∧ createdAt new = createdNow
     ∧ series new = ser
     ∧ countConsistent new ∧ itemCount new = 40
     ∧ Forall (λ i, imageUrl i = None) (items new)
     ∧ (Forall (λ s, 0 <= orZero (order s)) (App.sets st) →
        ordered App.swapCmp (App.sets st) →
        ordered App.swapCmp (App.sets st'))
     ∧ (pretty now ∉ id <$> App.sets st →
        App.db st' !! pretty now = Some new))
  ∧ (commits bh (S (length (App.sets st))) = false →
     App.sets st' = App.sets st ∧ App.db st' = App.db st).
Proof.
  intros st'. subst st'. unfold App.handleCreateNew.
  match goal with
  | |- context [Storage.saveStickerSets bh (?n :: ?l) _] =>
      set (new := n); set (shifted := l)
  end.
  assert (length (new :: shifted) = S (length (App.sets st))) as Hlen
    by (unfold shifted; simpl; by rewrite length_fmap).
  split.
  - intros Hc. rewrite saveStickerSets_commits by (by rewrite Hlen).
    exists new, shifted. split_and!; try done.
    + unfold shifted. by rewrite length_fmap.
    + intros i s Hs. unfold shifted. rewrite list_lookup_fmap, Hs. simpl.
      eexists. split; [done|]. split; [apply with_order_sameButOrder|].
      simpl. by destruct (order s).
    + apply Forall_forall. intros i (j & -> & _)%list_elem_of_fmap. done.
    + intros Hpos Hord. apply SSorted_cons.
      * unfold shifted. eapply StronglySorted_fmap; [|exact Hord].
        intros x y. unfold App.swapCmp. simpl. lia.
      * unfold shifted. apply Forall_fmap.
        eapply Forall_impl; [exact Hpos|].
        intros s Hs. unfold App.swapCmp, new. simpl in *. lia.
    + intros Hfresh.
      change (putAll shifted (put new (App.db st)) !! pretty now = Some new).
      rewrite putAll_lookup_other.
      * unfold put. apply lookup_insert_eq.
      * unfold shifted. by rewrite <- list_fmap_compose.
  - intros Hc. unfold Storage.saveStickerSets. rewrite Hlen.
    change (S (length (App.sets st)) =? 0)%nat with false. cbv iota.
    rewrite current_settles. unfold finish. rewrite Hc.
    by destruct (forallb _ _).
Qed.

(** X13.  Swapping the same two collections twice, both of which have an
    order and both saves succeeding, gives back the store as it was and
    the listing with the same collections.  (A collection without order
    gets one by the first swap and keeps one after the second.) *)
Theorem swap_twice_restores_store (bh1 bh2 bh3 bh4 : Behaviour)
    (st : App.State) (a b : StickerSet) (oA oB : Z) :
  mirrored st →
  a ∈ App.sets st → b ∈ App.sets st → id a ≠ id b →
  order a = Some oA → order b = Some oB →
  App.swapSourceId st = None →
  commits bh2 (length (App.sets st)) = true →
  commits bh4 (length (App.sets st)) = true →
  let st' := App.run [App.Click bh1 (id a); App.Click bh2 (id b);
                      App.Click bh3 (id a); App.Click bh4 (id b)] st in
  App.db st' = App.db st
  ∧ App.sets st' ≡ₚ App.sets st
  ∧ App.swapSourceId st' = None.
Proof.
  intros Hm Ha Hb Hne HoA HoB Hsel Hc2 Hc4.
  set (st0 := App.setSwapSourceId (Some (id a)) st).
  set (st1 := App.handleSwapClick bh2 (id b) st0).
  set (st2 := App.setSwapSourceId (Some (id a)) st1).
  set (st3 := App.handleSwapClick bh4 (id b) st2).
  assert (mirrored st0) as Hm0 by (by apply (mirrored_same st)).
  pose proof Hm as [Hnd Hdb].
  pose proof (swap_from_selected bh2 st0 a b oA oB Hnd Ha Hb Hne HoA HoB
                eq_refl Hc2)
    as (Ha1 & Hb1 & _ & _ & Hord1 & _ & _ & _ & _ & Hmirror1 & Hsel1).
  destruct (Hmirror1 (mirrored_listingStored _ Hm0)) as [Hrest1 _].
  fold st1 in Ha1, Hb1, Hord1, Hrest1, Hsel1.
  assert (mirrored st1) as Hm1 by (by apply click_keeps_mirrored).
  assert (length (App.sets st1) = length (App.sets st)) as Hlen1.
  { apply Permutation_length in Hord1. by rewrite !length_fmap in Hord1. }
  assert (mirrored st2) as Hm2 by (by apply (mirrored_same st1)).
  pose proof Hm1 as [Hnd1 _].
  pose proof (swap_from_selected bh4 st2
                (with_order (Some oB) a) (with_order (Some oA) b) oB oA
                Hnd1 Ha1 Hb1 Hne eq_refl eq_refl eq_refl
                ltac:(by rewrite <- Hlen1 in Hc4)) as Hsecond.
  change (id (with_order (Some oA) b)) with (id b) in Hsecond.
  change (id (with_order (Some oB) a)) with (id a) in Hsecond.
  fold st3 in Hsecond.
  destruct Hsecond
    as (Ha3 & Hb3 & _ & _ & _ & _ & _ & Hstored3 & _ & Hmirror3 & Hsel3).
  destruct (Hmirror3 (mirrored_listingStored _ Hm2)) as [Hrest3 _].
  pose proof (Hstored3 _ Ha3) as Hda3. pose proof (Hstored3 _ Hb3) as Hdb3.
  change (id (with_order (Some oA) (with_order (Some oB) a))) with (id a)
    in Hda3.
  change (id (with_order (Some oB) (with_order (Some oA) b))) with (id b)
    in Hdb3.
  assert (mirrored st3) as Hm3 by (by apply click_keeps_mirrored).
  assert (App.run [App.Click bh1 (id a); App.Click bh2 (id b);
                   App.Click bh3 (id a); App.Click bh4 (id b)] st = st3) as ->.
  { unfold App.run. simpl.
    assert (App.handleSwapClick bh1 (id a) st = st0) as ->
      by (unfold App.handleSwapClick; by rewrite Hsel).
    fold st1.
    assert (App.handleSwapClick bh3 (id a) st1 = st2) as ->
      by (unfold App.handleSwapClick; by rewrite Hsel1).
    done. }
  assert (App.db st3 = App.db st) as Hsame.
  { apply map_eq. intros k.
    destruct (decide (k = id a)) as [->|Hka].
    - rewrite Hda3.
      rewrite (mirrored_listingStored _ Hm a Ha).
      f_equal. destruct a. simpl in *. by rewrite HoA.
    - destruct (decide (k = id b)) as [->|Hkb].
      + rewrite Hdb3.
        rewrite (mirrored_listingStored _ Hm b Hb).
        f_equal. destruct b. simpl in *. by rewrite HoB.
      + rewrite Hrest3, Hrest1 by done. done. }
  split_and!; [done| |done].
  destruct Hm3 as [Hnd3 Hdb3'].
  rewrite <- (records_putAll_empty (App.sets st3)) by done.
  rewrite <- Hdb3', Hsame, Hdb. by apply records_putAll_empty.
Qed.

Lemma swap_twice_restores_store_witness :
  let st' := App.run [App.Click Examples.engineOk (id Examples.setA);
                      App.Click Examples.engineOk (id Examples.setB);
                      App.Click Examples.engineOk (id Examples.setA);
                      App.Click Examples.engineOk (id Examples.setB)]
               Examples.listedAB in
  App.db st' = App.db Examples.listedAB
  ∧ App.sets st' ≡ₚ App.sets Examples.listedAB
  ∧ App.swapSourceId st' = None.
Proof.
  apply (swap_twice_restores_store Examples.engineOk Examples.engineOk
           Examples.engineOk Examples.engineOk Examples.listedAB
           Examples.setA Examples.setB 0 1).
  - split; [compute_done|reflexivity].
  - apply list_elem_of_here.
  - apply list_elem_of_further, list_elem_of_here.
  - discriminate.
  - reflexivity.
  - reflexivity.
  - reflexivity.
  - reflexivity.
  - reflexivity.
Defined.

End ListingFacts.

(* ===================================================================== *)
(** * components/StickerEditor.tsx and StickerItemCard.tsx *)
(* ===================================================================== *)

Section EditorFacts.
Import Invariants.

Lemma with_items_same (s : StickerSet) : Editor.with_items (items s) s = s.
Proof. by destruct s. Qed.

Lemma swapItems_length (selected k : string) (l : list StickerItem) :
  length (Editor.swapItems selected k l) = length l.
Proof.
  unfold Editor.swapItems.
  destruct (Editor.findIndex selected l) as [iA|]; [|done].
  destruct (Editor.findIndex k l) as [iB|]; [|done].
  destruct (l !! iA); [|done]. destruct (l !! iB); [|done].
  by rewrite !length_insert.
Qed.

Lemma slice0_take (n : Z) (l : list StickerItem) :
  0 <= n → Editor.slice0 n l = take (Z.to_nat n) l.
Proof.
  intros Hn. unfold Editor.slice0.
  destruct (Z.ltb_spec n 0) as [?|_]; [lia|].
  destruct (Z.le_gt_cases n (Z.of_nat (length l))) as [Hle|Hgt].
  - by rewrite Z.min_l by lia.
  - rewrite Z.min_r, Nat2Z.id by lia.
    rewrite !take_ge; [done|lia|lia].
Qed.

(** The items after a change of count: the first [n] of the old ones,
    followed by as many new ones as are missing. *)
Lemma countChange_items (now : nat → Z) (n : Z) (st : Editor.State) :
  0 <= n →
  items (Editor.editedSet (Editor.handleCountChange now n st))
  = take (Z.to_nat n) (items (Editor.editedSet st))
    ++ Editor.additionalItems now (length (items (Editor.editedSet st)))
         (Z.to_nat n - length (items (Editor.editedSet st))).
Proof.
  intros Hn. unfold Editor.handleCountChange. simpl.
  set (old := items (Editor.editedSet st)).
  destruct (Z.ltb_spec n (Z.of_nat (length old))) as [Hlt|Hge].
  - rewrite slice0_take by done.
    replace (Z.to_nat n - length old)%nat with 0%nat by lia.
    by rewrite app_nil_r.
  - rewrite take_ge by lia.
    destruct (Z.ltb_spec (Z.of_nat (length old)) n) as [Hlt|Hle].
    + do 2 f_equal. lia.
    + replace (Z.to_nat n - length old)%nat with 0%nat by lia.
      by rewrite app_nil_r.
Qed.

Lemma additionalItems_length (now : nat → Z) (len diff : nat) :
  length (Editor.additionalItems now len diff) = diff.
Proof. unfold Editor.additionalItems. by rewrite length_fmap, length_seq. Qed.

Lemma additionalItems_lookup (now : nat → Z) (len diff i : nat) :
  (i < diff)%nat →
  ∃ item, Editor.additionalItems now len diff !! i = Some item
          ∧ imageUrl item = None
          ∧ originalOrder item = Z.of_nat (len + i) + 1
          ∧ name item = "Image " +:+ pretty (len + i + 1)%nat.
Proof.
  intros Hi. unfold Editor.additionalItems.
  rewrite list_lookup_fmap, lookup_seq_lt by done. simpl.
  eexists. split; [done|]. simpl. split_and!; [done|lia|done].
Qed.

Lemma countChange_length (now : nat → Z) (n : Z) (st : Editor.State) :
  0 <= n →
  length (items (Editor.editedSet (Editor.handleCountChange now n st)))
  = Z.to_nat n.
Proof.
  intros Hn. rewrite countChange_items by done.
  rewrite length_app, length_take, additionalItems_length. lia.
Qed.

Lemma countChange_added (now : nat → Z) (n : Z) (st : Editor.State) (i : nat) :
  0 <= n →
  (length (items (Editor.editedSet st)) ≤ i < Z.to_nat n)%nat →
  ∃ item,
    items (Editor.editedSet (Editor.handleCountChange now n st)) !! i
    = Some item
    ∧ imageUrl item = None
    ∧ originalOrder item = Z.of_nat i + 1
    ∧ name item = "Image " +:+ pretty (i + 1)%nat.
Proof.
  intros Hn Hi. rewrite countChange_items by done.
  set (old := items (Editor.editedSet st)) in *.
  rewrite lookup_app_r by (rewrite length_take; lia).
  rewrite length_take.
  replace (i - Z.to_nat n `min` length old)%nat with (i - length old)%nat
    by lia.
  destruct (additionalItems_lookup now (length old)
              (Z.to_nat n - length old) (i - length old) ltac:(lia))
    as (item & Hitem & Himg & Hord & Hname).
  exists item. split_and!; [done|done|..].
  - rewrite Hord. lia.
  - rewrite Hname. do 2 f_equal. lia.
Qed.

Lemma step_keeps_count (a : Editor.Action) (st : Editor.State) :
  countAction a → countConsistent (Editor.editedSet st) →
  countConsistent (Editor.editedSet (Editor.step a st)).
Proof.
  unfold countConsistent. intros Ha Hst. destruct a as [k u|k|now n].
  - simpl. by rewrite length_fmap.
  - simpl. unfold Editor.handleItemClick.
    destruct (Editor.selectedItemId st) as [sel|]; [|done].
    destruct (decide (sel = k)); [done|].
    simpl. by rewrite swapItems_length.
  - simpl in Ha. unfold Editor.step.
    rewrite countChange_length by done.
    unfold Editor.handleCountChange. simpl. lia.
Qed.

(** X16.  The editor keeps the declared count equal to the number of items:
    through every update of an item, every click on an item (selection,
    deselection, exchange) and every change of count to a number that is
    not negative. *)
Theorem editor_keeps_count_consistent (acts : list Editor.Action)
    (st : Editor.State) :
  Forall countAction acts → countConsistent (Editor.editedSet st) →
  countConsistent (Editor.editedSet (Editor.run acts st)).
Proof.
  intros Hacts. revert st.
  induction Hacts as [|a acts Ha Hacts IH]; intros st Hst; [done|].
  apply IH. by apply step_keeps_count.
Qed.

Lemma editor_keeps_count_consistent_witness :
  countConsistent
    (Editor.editedSet
       (Editor.run [Editor.CountChange (λ _, 0) 8; Editor.ItemClick "x";
                    Editor.ItemClick "y"; Editor.CountChange (λ _, 1) 16]
          (Editor.mkState Examples.setA None))).
Proof.
  apply (editor_keeps_count_consistent
           [Editor.CountChange (λ _, 0) 8; Editor.ItemClick "x";
            Editor.ItemClick "y"; Editor.CountChange (λ _, 1) 16]
           (Editor.mkState Examples.setA None)).
  - repeat (apply Forall_cons_2; [simpl; try exact I; lia|]).
    apply Forall_nil_2.
  - reflexivity.
Defined.

(** X17.  A change of count to [n] (not negative) leaves [n] items: the first
    items are kept as they are, the missing ones are appended without
    image and numbered by their position.  The items cut off are gone:
    growing back to the former count puts new, empty items in their
    place.  The selection is not touched. *)
Theorem handleCountChange_resizes (now : nat → Z) (n : Z)
    (st : Editor.State) :
  0 <= n →
  let old := items (Editor.editedSet st) in
  let st' := Editor.handleCountChange now n st in
  let new := items (Editor.editedSet st') in
  itemCount (Editor.editedSet st') = n
  ∧ length new = Z.to_nat n
  ∧ (∀ i, (i < length old)%nat → (i < Z.to_nat n)%nat → new !! i = old !! i)
  ∧ (∀ i, (length old ≤ i < Z.to_nat n)%nat →
       ∃ item, new !! i = Some item ∧ imageUrl item = None
               ∧ originalOrder item = Z.of_nat i + 1
               ∧ name item = "Image " +:+ pretty (i + 1)%nat)
  ∧ (∀ now' i, (Z.to_nat n ≤ i < length old)%nat →
       ∃ item,
         items (Editor.editedSet
                  (Editor.handleCountChange now' (Z.of_nat (length old)) st'))
           !! i = Some item
         ∧ imageUrl item = None)
  ∧ Editor.selectedItemId st' = Editor.selectedItemId st
  ∧ id (Editor.editedSet st') = id (Editor.editedSet st).
Proof.
  intros Hn old st' new. split_and!.
  - done.
  - by apply countChange_length.
  - intros i Hi Hin. unfold new, st'. rewrite countChange_items by done.
    rewrite lookup_app_l by (rewrite length_take; fold old; lia).
    by apply lookup_take_lt.
  - intros i Hi. by apply countChange_added.
  - intros now' i Hi.
    destruct (countChange_added now' (Z.of_nat (length old)) st' i
                ltac:(lia)) as (item & Hitem & Himg & _).
    { fold new. unfold new, st'. rewrite countChange_length by done. lia. }
    by exists item.
  - done.
  - done.
Qed.

Lemma handleCountChange_resizes_witness :
  let st := Editor.mkState
              (Editor.with_count_items 2
                 [mkItem "i1" 1 "Image 1" (Some "data:a"%string);
                  mkItem "i2" 2 "Image 2" (Some "data:b"%string)]
                 Examples.setA) None in
  let old := items (Editor.editedSet st) in
  let st' := Editor.handleCountChange (λ _, 0) 1 st in
  let new := items (Editor.editedSet st') in
  itemCount (Editor.editedSet st') = 1
  ∧ length new = Z.to_nat 1
  ∧ (∀ i, (i < length old)%nat → (i < Z.to_nat 1)%nat → new !! i = old !! i)
  ∧ (∀ i, (length old ≤ i < Z.to_nat 1)%nat →
       ∃ item, new !! i = Some item ∧ imageUrl item = None
               ∧ originalOrder item = Z.of_nat i + 1
               ∧ name item = "Image " +:+ pretty (i + 1)%nat)
  ∧ (∀ now' i, (Z.to_nat 1 ≤ i < length old)%nat →
       ∃ item,
         items (Editor.editedSet
                  (Editor.handleCountChange now' (Z.of_nat (length old)) st'))
           !! i = Some item
         ∧ imageUrl item = None)
  ∧ Editor.selectedItemId st' = Editor.selectedItemId st
  ∧ id (Editor.editedSet st') = id (Editor.editedSet st).
Proof.
  apply (handleCountChange_resizes (λ _, 0) 1
           (Editor.mkState
              (Editor.with_count_items 2
                 [mkItem "i1" 1 "Image 1" (Some "data:a"%string);
                  mkItem "i2" 2 "Image 2" (Some "data:b"%string)]
                 Examples.setA) None)).
  lia.
Defined.

(** ** Exchanging two items *)

Lemma item_findIndex (l : list StickerItem) (i : nat) (a : StickerItem) :
  NoDup (item_id <$> l) → l !! i = Some a →
  Editor.findIndex (item_id a) l = Some i.
Proof.
  intros Hnd Hi. unfold Editor.findIndex.
  destruct (list_find_elem_of (λ x, item_id x = item_id a) l a
              (list_elem_of_lookup_2 _ _ _ Hi) eq_refl) as [[j x] Hf].
  rewrite Hf. simpl. f_equal.
  apply list_find_Some in Hf as (Hj & Hid & _).
  eapply (NoDup_lookup _ _ _ (item_id a) Hnd).
  - by rewrite list_lookup_fmap, Hj; simpl; rewrite Hid.
  - by rewrite list_lookup_fmap, Hi.
Qed.

Lemma swapItems_exchange (l : list StickerItem) (i j : nat)
    (a b : StickerItem) :
  NoDup (item_id <$> l) → l !! i = Some a → l !! j = Some b →
  Editor.swapItems (item_id a) (item_id b) l = <[j := a]> (<[i := b]> l).
Proof.
  intros Hnd Hi Hj. unfold Editor.swapItems.
  rewrite (item_findIndex l i a), (item_findIndex l j b) by done.
  by rewrite Hi, Hj.
Qed.

(** X18.  With one item selected, a click on another exchanges the two in the
    sequence: each takes the other's position, every other item stays
    where it is, and the selection is cleared; a click on an id that no
    item has changes nothing; and the same two clicks again put every
    item back. *)
Theorem item_click_exchanges_places (st : Editor.State) (i j : nat)
    (a b : StickerItem) :
  NoDup (item_id <$> items (Editor.editedSet st)) →
  items (Editor.editedSet st) !! i = Some a →
  items (Editor.editedSet st) !! j = Some b →
  i ≠ j →
  Editor.selectedItemId st = Some (item_id a) →
  let st' := Editor.handleItemClick (item_id b) st in
  items (Editor.editedSet st')
    = <[j := a]> (<[i := b]> (items (Editor.editedSet st)))
  ∧ items (Editor.editedSet st') ≡ₚ items (Editor.editedSet st)
  ∧ Editor.selectedItemId st' = None
  ∧ (∀ k, k ∉ item_id <$> items (Editor.editedSet st) →
       Editor.handleItemClick k st = Editor.mkState (Editor.editedSet st) None)
  ∧ Editor.run [Editor.ItemClick (item_id a); Editor.ItemClick (item_id b)] st'
    = Editor.mkState (Editor.editedSet st) None.
Proof.
  intros Hnd Hi Hj Hij Hsel st'.
  set (l := items (Editor.editedSet st)) in *.
  set (l' := <[j := a]> (<[i := b]> l)).
  assert (item_id a ≠ item_id b) as Hab.
  { intros Heq. apply Hij. eapply (NoDup_lookup _ _ _ (item_id a) Hnd).
    - by rewrite list_lookup_fmap, Hi.
    - by rewrite list_lookup_fmap, Hj; simpl; rewrite Heq. }
  assert (st' = Editor.mkState (Editor.with_items l' (Editor.editedSet st))
                  None) as Hst'.
  { unfold st', Editor.handleItemClick. rewrite Hsel.
    destruct (decide (item_id a = item_id b)); [done|].
    fold l. by rewrite (swapItems_exchange l i j a b). }
  assert (l' ≡ₚ l) as Hperm by (by apply exchange_Permutation).
  assert (l' !! j = Some a) as Hj'.
  { unfold l'. apply list_lookup_insert_eq.
    rewrite length_insert. by eapply lookup_lt_Some. }
  assert (l' !! i = Some b) as Hi'.
  { unfold l'. rewrite list_lookup_insert_ne by done.
    apply list_lookup_insert_eq. by eapply lookup_lt_Some. }
  assert (<[i := a]> (<[j := b]> l') = l) as Hback.
  { apply list_eq. intros k.
    destruct (decide (k = i)) as [->|Hki].
    - rewrite list_lookup_insert_eq, Hi; [done|].
      rewrite length_insert. by eapply lookup_lt_Some.
    - rewrite list_lookup_insert_ne by done.
      destruct (decide (k = j)) as [->|Hkj].
      + rewrite list_lookup_insert_eq, Hj; [done|]. by eapply lookup_lt_Some.
      + unfold l'. by rewrite !list_lookup_insert_ne by done. }
  rewrite Hst'. simpl. split_and!; try done.
  - intros k Hk. unfold Editor.handleItemClick. rewrite Hsel.
    destruct (decide (item_id a = k)) as [<-|Hak].
    { destruct Hk. apply list_elem_of_fmap. exists a. split; [done|].
      by eapply list_elem_of_lookup_2. }
    unfold Editor.swapItems, Editor.findIndex at 2.
    destruct (list_find (λ x, item_id x = k) _) as [[p x]|] eqn:Hf.
    { apply list_find_Some in Hf as (Hp & Hid & _).
      destruct Hk. apply list_elem_of_fmap. exists x. split; [done|].
      by eapply list_elem_of_lookup_2. }
    simpl. destruct (Editor.findIndex (item_id a) _);
      by rewrite with_items_same.
  - unfold Editor.run. simpl. unfold Editor.handleItemClick at 2. simpl.
    unfold Editor.handleItemClick. simpl.
    destruct (decide (item_id a = item_id b)); [done|].
    rewrite (swapItems_exchange l' j i a b); [|by rewrite Hperm|done|done].
    rewrite Hback. f_equal. unfold l. by destruct (Editor.editedSet st).
Qed.

Lemma item_click_exchanges_places_witness :
  let st := Editor.mkState
              (Editor.with_count_items 2
                 [mkItem "i1" 1 "Image 1" (Some "data:a"%string);
                  mkItem "i2" 2 "Image 2" None]
                 Examples.setA) (Some "i1"%string) in
  let a := mkItem "i1" 1 "Image 1" (Some "data:a"%string) in
  let b := mkItem "i2" 2 "Image 2" None in
  let st' := Editor.handleItemClick (item_id b) st in
  items (Editor.editedSet st')
    = <[1%nat := a]> (<[0%nat := b]> (items (Editor.editedSet st)))
  ∧ items (Editor.editedSet st') ≡ₚ items (Editor.editedSet st)
  ∧ Editor.selectedItemId st' = None
  ∧ (∀ k, k ∉ item_id <$> items (Editor.editedSet st) →
       Editor.handleItemClick k st = Editor.mkState (Editor.editedSet st) None)
  ∧ Editor.run [Editor.ItemClick (item_id a); Editor.ItemClick (item_id b)] st'
    = Editor.mkState (Editor.editedSet st) None.
Proof.
  apply (item_click_exchanges_places
           (Editor.mkState
              (Editor.with_count_items 2
                 [mkItem "i1" 1 "Image 1" (Some "data:a"%string);
                  mkItem "i2" 2 "Image 2" None]
                 Examples.setA) (Some "i1"%string))
           0 1
           (mkItem "i1" 1 "Image 1" (Some "data:a"%string))
           (mkItem "i2" 2 "Image 2" None)).
  - compute_done.
  - reflexivity.
  - reflexivity.
  - discriminate.
  - reflexivity.
Defined.

End EditorFacts.

(* ===================================================================== *)
(** * The editor's save, and a click after the selection went stale *)
(* ===================================================================== *)

Section SaveFacts.
Import Js IndexedDB Spec Invariants.

(** X21.  Saving from the editor a collection of the listing: when the
    transaction commits, the edited collection replaces the listed one
    and the stored one and no failure is shown; when it does not, listing
    and store stay as they were, and the failure is shown only if the
    request was refused (after a failed commit the save never returns).
    Either way the store still mirrors the listing. *)
Theorem save_click_persists_edits (bh : Behaviour) (ed : Editor.State)
    (app : App.State) :
  mirrored app →
  id (Editor.editedSet ed) ∈ id <$> App.sets app →
  let out := Editor.handleSaveClick bh ed app in
  mirrored out.1
  ∧ (commits bh 1 = true →
     Editor.editedSet ed ∈ App.sets out.1
     ∧ App.db out.1 !! id (Editor.editedSet ed) = Some (Editor.editedSet ed)
     ∧ (∀ s, s ∈ App.sets app → id s ≠ id (Editor.editedSet ed) →
          s ∈ App.sets out.1)
     ∧ length (App.sets out.1) = length (App.sets app)
     ∧ out.2 = false)
  ∧ (commits bh 1 = false →
     App.sets out.1 = App.sets app ∧ App.db out.1 = App.db app
     ∧ out.2 = negb (requestOk bh 0)).
Proof.
  intros Hm Hin out.
  assert (out.1 = App.handleSaveSet bh (Editor.editedSet ed) app) as Hout1.
  { unfold out, Editor.handleSaveClick.
    by destruct (Storage.saveStickerSet _ _ _) as [[] d]. }
  rewrite Hout1. split_and!.
  - by apply save_keeps_mirrored.
  - intros Hc.
    assert (Storage.saveStickerSet bh (Editor.editedSet ed) (App.db app)
            = (Resolved, put (Editor.editedSet ed) (App.db app))) as Hsave.
    { unfold Storage.saveStickerSet, finish.
      by rewrite current_settles, Hc. }
    unfold out, Editor.handleSaveClick, App.handleSaveSet.
    rewrite Hsave. simpl. split_and!.
    + apply list_elem_of_fmap in Hin as (x & Hx & Hxin).
      apply list_elem_of_fmap. exists x. split; [|done].
      by rewrite decide_True.
    + unfold put. apply lookup_insert_eq.
    + intros s Hs Hne. apply list_elem_of_fmap. exists s. split; [|done].
      by rewrite decide_False.
    + by rewrite length_fmap.
    + done.
  - intros Hc.
    assert (Storage.saveStickerSet bh (Editor.editedSet ed) (App.db app)
            = (if requestOk bh 0 then Pending else Rejected, App.db app))
      as Hsave.
    { unfold Storage.saveStickerSet, finish.
      rewrite current_settles, Hc. simpl.
      by destruct (requestOk bh 0). }
    unfold out, Editor.handleSaveClick, App.handleSaveSet.
    rewrite Hsave. by destruct (requestOk bh 0).
Qed.

Lemma save_click_persists_edits_witness :
  let ed := Editor.mkState (with_order (Some 4) Examples.setA) None in
  let out := Editor.handleSaveClick Examples.engineOk ed Examples.listedAB in
  mirrored out.1
  ∧ (commits Examples.engineOk 1 = true →
     Editor.editedSet ed ∈ App.sets out.1
     ∧ App.db out.1 !! id (Editor.editedSet ed) = Some (Editor.editedSet ed)
     ∧ (∀ s, s ∈ App.sets Examples.listedAB →
          id s ≠ id (Editor.editedSet ed) → s ∈ App.sets out.1)
     ∧ length (App.sets out.1) = length (App.sets Examples.listedAB)
     ∧ out.2 = false)
  ∧ (commits Examples.engineOk 1 = false →
     App.sets out.1 = App.sets Examples.listedAB
     ∧ App.db out.1 = App.db Examples.listedAB
     ∧ out.2 = negb (requestOk Examples.engineOk 0)).
Proof.
  apply (save_click_persists_edits Examples.engineOk
           (Editor.mkState (with_order (Some 4) Examples.setA) None)
           Examples.listedAB).
  - split; [compute_done|reflexivity].
  - apply list_elem_of_here.
Defined.

Lemma stale_selection_swaps_nothing_witness :
  App.handleSwapClick Examples.engineOk "b"
    (App.mkState [Examples.setB] (Some "a"%string) []
       (putAll [Examples.setB] ∅))
  = App.setSwapSourceId None
      (App.mkState [Examples.setB] (Some "a"%string) []
         (putAll [Examples.setB] ∅)).
Proof.
  apply (stale_selection_swaps_nothing Examples.engineOk "b" "a"
           (App.mkState [Examples.setB] (Some "a"%string) []
              (putAll [Examples.setB] ∅))).
  - reflexivity.
  - compute_done.
Defined.

End SaveFacts.

(* ===================================================================== *)
(** * utils/imageCompression.ts: the canvas and the scan *)
(* ===================================================================== *)

Section CanvasFacts.
Import ImageCompression Spec Invariants.

Lemma canvasSize_fits (img : Decoded) (maxWidth : Z) :
  0 <= maxWidth →
  0 < naturalWidth img <= 2147483647 →
  0 <= naturalHeight img <= 2147483647 →
  (canvasSize img maxWidth).1 = Z.min (naturalWidth img) maxWidth
  ∧ 0 <= (canvasSize img maxWidth).2 <= naturalHeight img
  ∧ (canvasSize img maxWidth).2 * naturalWidth img
    <= naturalHeight img * (canvasSize img maxWidth).1
       < ((canvasSize img maxWidth).2 + 1) * naturalWidth img.
Proof.
  intros Hm Hw Hh. unfold canvasSize, targetSize.
  set (w := naturalWidth img) in *. set (h := naturalHeight img) in *.
  destruct (Z.ltb_spec maxWidth w) as [Hlt|Hge]; simpl.
  - assert (0 <= h * maxWidth) by lia.
    assert (h * maxWidth / w <= h) by (apply Z.div_le_upper_bound; nia).
    assert (0 <= h * maxWidth / w) by (apply Z.div_pos; lia).
    rewrite canvasDimension_integer by lia.
    unfold canvasDimension. rewrite truncate_scaledHeight by lia.
    rewrite Z.mod_small by lia.
    destruct (Z.leb_spec (h * maxWidth / w) 2147483647); [|lia].
    pose proof (Z.div_mod (h * maxWidth) w ltac:(lia)).
    pose proof (Z.mod_pos_bound (h * maxWidth) w ltac:(lia)).
    split_and!; lia.
  - rewrite !canvasDimension_integer by lia. split_and!; lia.
Qed.

(** X22.  The canvas is never larger than the source: it is as wide as the
    source or [maxWidth], whichever is less, never higher than the source,
    and keeps the proportions down to the fraction of a pixel that is cut
    off.  A source so flat that its scaled height is below one pixel gets
    a canvas of height 0. *)
Theorem canvas_never_enlarges (img : Decoded) (maxWidth : Z) :
  0 <= maxWidth →
  0 < naturalWidth img <= 2147483647 →
  0 <= naturalHeight img <= 2147483647 →
  (canvasSize img maxWidth).1 = Z.min (naturalWidth img) maxWidth
  ∧ 0 <= (canvasSize img maxWidth).2 <= naturalHeight img
  ∧ (canvasSize img maxWidth).2 * naturalWidth img
    <= naturalHeight img * (canvasSize img maxWidth).1
       < ((canvasSize img maxWidth).2 + 1) * naturalWidth img
  ∧ ((canvasSize img maxWidth).2 = 0
     ↔ naturalHeight img * Z.min (naturalWidth img) maxWidth
       < naturalWidth img).
Proof.
  intros Hm Hw Hh.
  destruct (canvasSize_fits img maxWidth Hm Hw Hh) as (H1 & H2 & H3).
  split; [exact H1|split; [exact H2|split; [exact H3|]]].
  rewrite <- H1. split; [intros H0|intros Hflat].
  - rewrite H0 in H3. lia.
  - nia.
Qed.

Lemma canvas_never_enlarges_witness :
  (canvasSize (mkDecoded 2000 2 (λ _ _, None)) 800).1
    = Z.min (naturalWidth (mkDecoded 2000 2 (λ _ _, None))) 800
  ∧ 0 <= (canvasSize (mkDecoded 2000 2 (λ _ _, None)) 800).2
      <= naturalHeight (mkDecoded 2000 2 (λ _ _, None))
  ∧ (canvasSize (mkDecoded 2000 2 (λ _ _, None)) 800).2
      * naturalWidth (mkDecoded 2000 2 (λ _ _, None))
    <= naturalHeight (mkDecoded 2000 2 (λ _ _, None))
         * (canvasSize (mkDecoded 2000 2 (λ _ _, None)) 800).1
       < ((canvasSize (mkDecoded 2000 2 (λ _ _, None)) 800).2 + 1)
         * naturalWidth (mkDecoded 2000 2 (λ _ _, None))
  ∧ ((canvasSize (mkDecoded 2000 2 (λ _ _, None)) 800).2 = 0
     ↔ naturalHeight (mkDecoded 2000 2 (λ _ _, None))
         * Z.min (naturalWidth (mkDecoded 2000 2 (λ _ _, None))) 800
       < naturalWidth (mkDecoded 2000 2 (λ _ _, None))).
Proof.
  apply (canvas_never_enlarges (mkDecoded 2000 2 (λ _ _, None)) 800).
  - lia.
  - simpl. lia.
  - simpl. lia.
Defined.

(** X23.  The sampling scan answers for the pixels 0, 100, 200, ... only: it
    reports transparency exactly when one of them is short of full
    opacity.  What it reports is real (such a pixel exists), what it
    misses is every other pixel; and a canvas that cannot be read counts
    as transparent. *)
Theorem sampled_scan_reads_every_hundredth_pixel (data : list Z) :
  (Sampled.hasTransparency (Some data) = true ↔ hasSampledAlphaPixel data)
  ∧ (hasSampledAlphaPixel data → hasAlphaPixel data)
  ∧ Sampled.hasTransparency None = true.
Proof.
  unfold Sampled.hasTransparency, hasTransparencyWith, hasSampledAlphaPixel,
    hasAlphaPixel.
  split_and!; [split| |done].
  - intros (j & a & Hj & Ha)%alphaLoop_sound. exists j, a.
    split; [|done]. rewrite <- Hj. f_equal. lia.
  - intros (p & a & Hp & Ha).
    apply (alphaLoop_complete 400 data 3 p _ a); [|done|].
    + rewrite <- Hp. f_equal. lia.
    + apply lookup_lt_Some in Hp. lia.
  - intros (p & a & Hp & Ha). exists (100 * p)%nat, a.
    split; [|done]. rewrite <- Hp. f_equal. lia.
Qed.

Lemma fullScan_recompression_witness :
  ∃ o, FullScan.compressExistingImage Examples.browser Examples.pngUrl 800
         (85 # 100) = Encoded o
       ∧ (hasAlphaPixel Examples.twoPixels
          → mime o = ImagePng ∧ fill o = NoFill)
       ∧ (¬ hasAlphaPixel Examples.twoPixels
          → mime o = ImageJpeg ∧ fill o = White).
Proof.
  apply (fullScan_recompression Examples.browser Examples.pngUrl
           Examples.twoPixelPng 800 (85 # 100) Examples.twoPixels).
  - reflexivity.
  - reflexivity.
  - reflexivity.
  - reflexivity.
Defined.

End CanvasFacts.

(* ===================================================================== *)
(** * components/StickerItemCard.tsx: the image of an item *)
(* ===================================================================== *)

Section ItemCardFacts.
Import ImageCompression Invariants.

Lemma updateItem_at (st : Editor.State) (i : nat) (item : StickerItem)
    (u : Editor.Updates) :
  NoDup (item_id <$> items (Editor.editedSet st)) →
  items (Editor.editedSet st) !! i = Some item →
  items (Editor.editedSet (Editor.handleUpdateItem (item_id item) u st))
  = <[i := Editor.applyUpdates u item]> (items (Editor.editedSet st)).
Proof.
  intros Hnd Hi. simpl. set (l := items (Editor.editedSet st)) in *.
  apply list_eq. intros k. rewrite list_lookup_fmap.
  destruct (decide (k = i)) as [->|Hki].
  - rewrite Hi, list_lookup_insert_eq by (by eapply lookup_lt_Some).
    simpl. by rewrite decide_True.
  - rewrite list_lookup_insert_ne by done.
    destruct (l !! k) as [x|] eqn:Hk; [|done]. simpl.
    rewrite decide_False; [done|]. intros Heq. apply Hki.
    eapply (NoDup_lookup _ _ _ (item_id item) Hnd).
    + by rewrite list_lookup_fmap, Hk; simpl; rewrite Heq.
    + by rewrite list_lookup_fmap, Hi.
Qed.

(** X19.  Dropping a file on the card of an item: a file that is not an image
    is refused and a failed compression is reported, and neither changes
    the collection; a compressed image becomes the image of that item and
    of no other, with the item's id, number and name as they were, and
    deleting it afterwards leaves the item without image. *)
Theorem upload_replaces_one_image (env : ItemCard.Env) (file : File)
    (item : StickerItem) (i : nat) (st : Editor.State) :
  NoDup (item_id <$> items (Editor.editedSet st)) →
  items (Editor.editedSet st) !! i = Some item →
  let out := ItemCard.handleFileUpload env file item st in
  (String.prefix "image/" (file_type file) = false →
     out = (st, [ItemCard.NotAnImage]))
  ∧ (String.prefix "image/" (file_type file) = true →
     (∀ e, ItemCard.compressImage env file 800 (85 # 100) = Failed e →
        out = (st, [ItemCard.UploadFailed]))
     ∧ (∀ o, ItemCard.compressImage env file 800 (85 # 100) = Encoded o →
        out.2 = []
        ∧ items (Editor.editedSet out.1)
          = <[i := mkItem (item_id item) (originalOrder item) (name item)
                     (Some (ItemCard.toDataURL env o))]>
              (items (Editor.editedSet st))
        ∧ itemCount (Editor.editedSet out.1) = itemCount (Editor.editedSet st)
        ∧ Editor.selectedItemId out.1 = Editor.selectedItemId st
        ∧ items (Editor.editedSet (ItemCard.handleDelete item out.1))
          = <[i := mkItem (item_id item) (originalOrder item) (name item)
                     None]>
              (items (Editor.editedSet st)))).
Proof.
  intros Hnd Hi out. split.
  - intros Hp. subst out. unfold ItemCard.handleFileUpload. by rewrite Hp.
  - intros Hp. split.
    + intros e He. subst out. unfold ItemCard.handleFileUpload.
      by rewrite Hp, He.
    + intros o Ho.
      set (u := Editor.mkUpdates None None None
                  (Some (Some (ItemCard.toDataURL env o)))).
      set (u' := Editor.mkUpdates None None None (Some None)).
      set (st1 := Editor.handleUpdateItem (item_id item) u st).
      assert (out = (st1, [])) as ->.
      { subst out. unfold ItemCard.handleFileUpload. by rewrite Hp, Ho. }
      cbn [fst snd].
      pose proof (updateItem_at st i item u Hnd Hi) as Hup. fold st1 in Hup.
      assert (NoDup (item_id <$> items (Editor.editedSet st1))) as Hnd1.
      { rewrite Hup, list_fmap_insert. simpl.
        rewrite list_insert_id; [done|]. by rewrite list_lookup_fmap, Hi. }
      assert (items (Editor.editedSet st1) !! i
              = Some (Editor.applyUpdates u item)) as Hi1.
      { rewrite Hup. apply list_lookup_insert_eq. by eapply lookup_lt_Some. }
      pose proof (updateItem_at st1 i _ u' Hnd1 Hi1) as Hdel.
      change (item_id (Editor.applyUpdates u item)) with (item_id item)
        in Hdel.
      split_and!; [done|exact Hup|done|done|].
      unfold ItemCard.handleDelete. fold u'.
      rewrite Hdel, Hup. by rewrite list_insert_insert_eq.
Qed.

Lemma upload_replaces_one_image_witness :
  let env := ItemCard.mkEnv (Sampled.compressImage Examples.wideBrowser)
               (λ _, "data:image/jpeg;base64,AA"%string) in
  let item := mkItem "i2" 2 "Image 2" None in
  let st := Editor.mkState
              (Editor.with_count_items 2
                 [mkItem "i1" 1 "Image 1" (Some "data:a"%string);
                  mkItem "i2" 2 "Image 2" None]
                 Examples.setA) None in
  let out := ItemCard.handleFileUpload env Examples.pickedFile item st in
  (String.prefix "image/" (file_type Examples.pickedFile) = false →
     out = (st, [ItemCard.NotAnImage]))
  ∧ (String.prefix "image/" (file_type Examples.pickedFile) = true →
     (∀ e, ItemCard.compressImage env Examples.pickedFile 800 (85 # 100)
           = Failed e →
        out = (st, [ItemCard.UploadFailed]))
     ∧ (∀ o, ItemCard.compressImage env Examples.pickedFile 800 (85 # 100)
             = Encoded o →
        out.2 = []
        ∧ items (Editor.editedSet out.1)
          = <[1%nat := mkItem (item_id item) (originalOrder item) (name item)
                         (Some (ItemCard.toDataURL env o))]>
              (items (Editor.editedSet st))
        ∧ itemCount (Editor.editedSet out.1) = itemCount (Editor.editedSet st)
        ∧ Editor.selectedItemId out.1 = Editor.selectedItemId st
        ∧ items (Editor.editedSet (ItemCard.handleDelete item out.1))
          = <[1%nat := mkItem (item_id item) (originalOrder item) (name item)
                         None]>
              (items (Editor.editedSet st)))).
Proof.
  apply (upload_replaces_one_image
           (ItemCard.mkEnv (Sampled.compressImage Examples.wideBrowser)
              (λ _, "data:image/jpeg;base64,AA"%string))
           Examples.pickedFile (mkItem "i2" 2 "Image 2" None) 1
           (Editor.mkState
              (Editor.with_count_items 2
                 [mkItem "i1" 1 "Image 1" (Some "data:a"%string);
                  mkItem "i2" 2 "Image 2" None]
                 Examples.setA) None)).
  - compute_done.
  - reflexivity.
Defined.

(** X20.  With either revision of [compressImage] behind the card, an image
    file that the browser decodes becomes the image of the item, at most
    800 pixels wide, never wider or higher than the source, at quality
    0.85. *)
Theorem uploaded_image_is_at_most_800_wide (benv : ImageCompression.Env)
    (toUrl : Output → string) (file : File) (dataUrl : string) (img : Decoded)
    (item : StickerItem) (st : Editor.State) :
  String.prefix "image/" (file_type file) = true →
  file_dataUrl file = Some dataUrl →
  decode benv dataUrl = Some img → context2d benv = true →
  0 < naturalWidth img <= 2147483647 →
  0 <= naturalHeight img <= 2147483647 →
  ∃ o1 o2,
    ItemCard.handleFileUpload
      (ItemCard.mkEnv (Sampled.compressImage benv) toUrl) file item st
    = (Editor.handleUpdateItem (item_id item)
         (Editor.mkUpdates None None None (Some (Some (toUrl o1)))) st, [])
    ∧ ItemCard.handleFileUpload
        (ItemCard.mkEnv (Flattening.compressImage benv) toUrl) file item st
      = (Editor.handleUpdateItem (item_id item)
           (Editor.mkUpdates None None None (Some (Some (toUrl o2)))) st, [])
    ∧ Forall (λ o, width o = Z.min (naturalWidth img) 800
                   ∧ 0 <= height o <= naturalHeight img
                   ∧ quality o = 85 # 100) [o1; o2].
Proof.
  intros Htype Hfile Hdec Hctx Hw Hh.
  destruct (canvasSize_fits img 800 ltac:(lia) Hw Hh) as (H1 & H2 & _).
  assert (∃ o1, Sampled.compressImage benv file 800 (85 # 100) = Encoded o1
                ∧ width o1 = (canvasSize img 800).1
                ∧ height o1 = (canvasSize img 800).2
                ∧ quality o1 = 85 # 100) as (o1 & Hs1 & Hw1 & Hh1 & Hq1).
  { unfold Sampled.compressImage. rewrite Hfile, Hdec, Hctx.
    destruct (canvasSize img 800) as [cw ch]. simpl.
    destruct (String.eqb _ _ && _); eexists; split_and!; reflexivity. }
  assert (∃ o2, Flattening.compressImage benv file 800 (85 # 100) = Encoded o2
                ∧ width o2 = (canvasSize img 800).1
                ∧ height o2 = (canvasSize img 800).2
                ∧ quality o2 = 85 # 100) as (o2 & Hs2 & Hw2 & Hh2 & Hq2).
  { unfold Flattening.compressImage. rewrite Hfile, Hdec, Hctx.
    destruct (canvasSize img 800) as [cw ch]. simpl.
    eexists; split_and!; reflexivity. }
  exists o1, o2. unfold ItemCard.handleFileUpload. rewrite Htype. simpl.
  rewrite Hs1, Hs2. split_and!; [done|done|].
  apply Forall_cons_2; [|apply Forall_cons_2; [|apply Forall_nil_2]].
  - rewrite Hw1, Hh1. split; [exact H1|split; [exact H2|exact Hq1]].
  - rewrite Hw2, Hh2. split; [exact H1|split; [exact H2|exact Hq2]].
Qed.

Lemma uploaded_image_is_at_most_800_wide_witness :
  ∃ o1 o2,
    ItemCard.handleFileUpload
      (ItemCard.mkEnv (Sampled.compressImage Examples.wideBrowser)
         (λ _, "data:,"%string))
      Examples.pickedFile (mkItem "i1" 1 "Image 1" None)
      (Editor.mkState Examples.setA None)
    = (Editor.handleUpdateItem (item_id (mkItem "i1" 1 "Image 1" None))
         (Editor.mkUpdates None None None
            (Some (Some ((λ _, "data:,"%string) o1))))
         (Editor.mkState Examples.setA None), [])
    ∧ ItemCard.handleFileUpload
        (ItemCard.mkEnv (Flattening.compressImage Examples.wideBrowser)
           (λ _, "data:,"%string))
        Examples.pickedFile (mkItem "i1" 1 "Image 1" None)
        (Editor.mkState Examples.setA None)
      = (Editor.handleUpdateItem (item_id (mkItem "i1" 1 "Image 1" None))
           (Editor.mkUpdates None None None
              (Some (Some ((λ _, "data:,"%string) o2))))
           (Editor.mkState Examples.setA None), [])
    ∧ Forall (λ o, width o = Z.min (naturalWidth Examples.wide) 800
                   ∧ 0 <= height o <= naturalHeight Examples.wide
                   ∧ quality o = 85 # 100) [o1; o2].
Proof.
  apply (uploaded_image_is_at_most_800_wide Examples.wideBrowser
           (λ _, "data:,"%string) Examples.pickedFile Examples.pngUrl
           Examples.wide (mkItem "i1" 1 "Image 1" None)
           (Editor.mkState Examples.setA None)).
  - reflexivity.
  - reflexivity.
  - reflexivity.
  - reflexivity.
  - simpl. lia.
  - simpl. lia.
Defined.

End ItemCardFacts.

(* ===================================================================== *)
(** * services/githubSync.ts: which requests are sent, and to which gist *)
(* ===================================================================== *)

Section SyncRequests.
Import GithubSync.

Lemma present_Some (s : string) : s ≠ ""%string → present (Some s) = Some s.
Proof. intros Hs. unfold present. by destruct (String.eqb_spec s ""). Qed.

(** The one request of [send]: an update of the cached gist, or the
    creation of a backup when no gist is cached. *)
Lemma send_trace (env : Env) (tok body : string) (st : State) :
  trace (send env tok body st)
  = [Fetched (match present (gistId st) with
              | Some gid => UpdateGist tok gid GIST_FILENAME body
              | None => CreateGist tok BACKUP_DESCRIPTION GIST_FILENAME body
              end)].
Proof.
  unfold send, updateGist, createGist.
  destruct (present (gistId st)) as [gid|];
    destruct (fetch env _) as [r|]; simpl; try done;
    destruct (ok r), (json r) as [| |[m|]| |]; done.
Qed.

(** Lines 685-687 take the id from whatever the accepted reply holds: a
    reply without one leaves the service with no gist cached, and the
    upload succeeds all the same. *)
Lemma createGist_reply_without_id (env : Env) (tok body : string) (st : State)
    (r : Response) :
  fetch env (CreateGist tok BACKUP_DESCRIPTION GIST_FILENAME body) = Some r →
  ok r = true → json r = JsonOther →
  createGist env tok body st
  = mkOutcome (inl ()) (mkState (token st) None)
      [Fetched (CreateGist tok BACKUP_DESCRIPTION GIST_FILENAME body)].
Proof. intros Hr Hok Hjson. unfold createGist. by rewrite Hr, Hok, Hjson. Qed.

Lemma not_gt_sizeInMB_10 (sizeInBytes : Z) :
  sizeInBytes <= 10 * 1024 * 1024 → gt (sizeInMB sizeInBytes) 10 = false.
Proof.
  intros Hs. destruct (gt (sizeInMB sizeInBytes) 10) eqn:Hgt; [|done].
  apply gt_sizeInMB_10 in Hgt. lia.
Qed.

(** An upload that passes its checks sends the one request of [send],
    after the warning if there is one. *)
Lemma upload_checked (env : Env) (stickerSets parsed : list StickerSet)
    (st : State) (tok : string) :
  present (token st) = Some tok →
  parse env (stringify env stickerSets) = ParsedArray parsed →
  blobSize env (stringify env stickerSets) <= 10 * 1024 * 1024 →
  ∃ warning,
    upload env stickerSets st
    = mkOutcome (result (send env tok (stringify env stickerSets) st))
                (final (send env tok (stringify env stickerSets) st))
                (warning ++ trace (send env tok (stringify env stickerSets) st))
    ∧ Forall (λ e, ∃ n, e = Warned n) warning.
Proof.
  intros Htok Hparse Hsize. unfold upload.
  rewrite Htok, Hparse, not_gt_sizeInMB_10 by done.
  eexists. split; [reflexivity|].
  destruct (gt _ 5); [|apply Forall_nil_2].
  apply Forall_cons_2; [by eexists|apply Forall_nil_2].
Qed.

Lemma upload_checked_requests (env : Env) (stickerSets parsed : list StickerSet)
    (st : State) (tok : string) (req : Request) :
  present (token st) = Some tok →
  parse env (stringify env stickerSets) = ParsedArray parsed →
  blobSize env (stringify env stickerSets) <= 10 * 1024 * 1024 →
  Fetched req ∈ trace (upload env stickerSets st) →
  req = match present (gistId st) with
        | Some gid => UpdateGist tok gid GIST_FILENAME (stringify env stickerSets)
        | None => CreateGist tok BACKUP_DESCRIPTION GIST_FILENAME
                    (stringify env stickerSets)
        end.
Proof.
  intros Htok Hparse Hsize Hreq.
  destruct (upload_checked env stickerSets parsed st tok Htok Hparse Hsize)
    as (warning & Hup & Hw).
  rewrite Hup in Hreq. simpl in Hreq. rewrite send_trace in Hreq.
  apply elem_of_app in Hreq as [Hreq|Hreq].
  - apply (proj1 (Forall_forall _ _) Hw) in Hreq as [n Hn]. discriminate Hn.
  - apply list_elem_of_singleton in Hreq. by injection Hreq.
Qed.

(** X25.  Whatever an upload sends is a creation or an update of the backup
    file that carries exactly the serialized catalogue, and is sent only
    with a token, after the serialization was parsed back as an array and
    found to be at most 10 MiB; an update goes to the cached gist, a
    creation happens only when no gist is cached. *)
Theorem upload_sends_only_checked_bodies (env : Env)
    (stickerSets : list StickerSet) (st : State) (req : Request) :
  Fetched req ∈ trace (upload env stickerSets st) →
  ∃ tok, present (token st) = Some tok
    ∧ req = match present (gistId st) with
            | Some gid =>
                UpdateGist tok gid GIST_FILENAME (stringify env stickerSets)
            | None =>
                CreateGist tok BACKUP_DESCRIPTION GIST_FILENAME
                  (stringify env stickerSets)
            end
    ∧ (∃ parsed, parse env (stringify env stickerSets) = ParsedArray parsed)
    ∧ blobSize env (stringify env stickerSets) <= 10 * 1024 * 1024.
Proof.
  intros Hreq. pose proof Hreq as Hreq'. unfold upload in Hreq.
  destruct (present (token st)) as [tok|] eqn:Htok;
    [|by apply elem_of_nil in Hreq].
  destruct (parse env (stringify env stickerSets)) as [parsed| | |] eqn:Hparse;
    try (by apply elem_of_nil in Hreq).
  destruct (gt (sizeInMB (blobSize env (stringify env stickerSets))) 10)
    eqn:Hgt; [by apply elem_of_nil in Hreq|].
  assert (blobSize env (stringify env stickerSets) <= 10 * 1024 * 1024)
    as Hsize.
  { destruct (Z.le_gt_cases (blobSize env (stringify env stickerSets))
                (10 * 1024 * 1024)) as [?|Hbig]; [done|].
    assert (gt (sizeInMB (blobSize env (stringify env stickerSets))) 10
            = true) as Hgt' by (apply gt_sizeInMB_10; lia).
    congruence. }
  exists tok. split_and!; [done| |by eexists|done].
  by eapply upload_checked_requests.
Qed.

Lemma upload_sends_only_checked_bodies_witness :
  ∃ tok, present (token Examples.loggedIn) = Some tok
    ∧ CreateGist "token" BACKUP_DESCRIPTION GIST_FILENAME "[]"
      = match present (gistId Examples.loggedIn) with
        | Some gid =>
            UpdateGist tok gid GIST_FILENAME
              (stringify (Examples.cloud (6 * 1024 * 1024)) [])
        | None =>
            CreateGist tok BACKUP_DESCRIPTION GIST_FILENAME
              (stringify (Examples.cloud (6 * 1024 * 1024)) [])
        end
    ∧ (∃ parsed, parse (Examples.cloud (6 * 1024 * 1024))
                   (stringify (Examples.cloud (6 * 1024 * 1024)) [])
                 = ParsedArray parsed)
    ∧ blobSize (Examples.cloud (6 * 1024 * 1024))
        (stringify (Examples.cloud (6 * 1024 * 1024)) [])
      <= 10 * 1024 * 1024.
Proof.
  apply (upload_sends_only_checked_bodies (Examples.cloud (6 * 1024 * 1024))
           [] Examples.loggedIn
           (CreateGist "token" BACKUP_DESCRIPTION GIST_FILENAME "[]")).
  vm_compute. apply list_elem_of_further, list_elem_of_here.
Defined.

(** X26.  The first upload of a service that has no gist cached creates the
    backup and caches the id the server returns; every later upload that
    passes its checks updates that gist, creates no other, and keeps the
    cached id whatever the server answers. *)
Theorem upload_creates_once_then_updates (env : Env)
    (sets1 sets2 parsed1 parsed2 : list StickerSet) (st : State)
    (tok : string) (r : Response) (g : Gist) :
  present (token st) = Some tok → present (gistId st) = None →
  parse env (stringify env sets1) = ParsedArray parsed1 →
  parse env (stringify env sets2) = ParsedArray parsed2 →
  blobSize env (stringify env sets1) <= 10 * 1024 * 1024 →
  blobSize env (stringify env sets2) <= 10 * 1024 * 1024 →
  fetch env (CreateGist tok BACKUP_DESCRIPTION GIST_FILENAME
               (stringify env sets1)) = Some r →
  ok r = true → json r = JsonGist g → gist_id g ≠ ""%string →
  let first := upload env sets1 st in
  let second := upload env sets2 (final first) in
  result first = inl ()
  ∧ final first = mkState (token st) (Some (gist_id g))
  ∧ (∀ req, Fetched req ∈ trace first →
       req = CreateGist tok BACKUP_DESCRIPTION GIST_FILENAME
               (stringify env sets1))
  ∧ (∀ req, Fetched req ∈ trace second →
       req = UpdateGist tok (gist_id g) GIST_FILENAME (stringify env sets2))
  ∧ final second = final first.
Proof.
  intros Htok Hgid Hp1 Hp2 Hs1 Hs2 Hfetch Hok Hjson Hne first second.
  assert (final first = mkState (token st) (Some (gist_id g))
          ∧ result first = inl ()) as [Hfinal Hres].
  { unfold first.
    destruct (upload_checked env sets1 parsed1 st tok Htok Hp1 Hs1)
      as (warning & -> & _).
    simpl. unfold send. rewrite Hgid. unfold createGist.
    by rewrite Hfetch, Hok, Hjson. }
  assert (present (token (final first)) = Some tok) as Htok'
    by (by rewrite Hfinal).
  assert (present (gistId (final first)) = Some (gist_id g)) as Hgid'
    by (rewrite Hfinal; by apply present_Some).
  split_and!; [done|done|..].
  - intros req Hreq.
    rewrite (upload_checked_requests env sets1 parsed1 st tok req)
      by done.
    by rewrite Hgid.
  - intros req Hreq.
    rewrite (upload_checked_requests env sets2 parsed2 (final first) tok req)
      by done.
    by rewrite Hgid'.
  - unfold second.
    destruct (upload_checked env sets2 parsed2 (final first) tok Htok' Hp2 Hs2)
      as (warning & -> & _).
    simpl. unfold send. rewrite Hgid'. unfold updateGist.
    destruct (fetch env (UpdateGist tok (gist_id g) GIST_FILENAME
                           (stringify env sets2))) as [r'|]; [|done].
    destruct (ok r'); [done|]. by destruct (json r') as [| |[m|]| |].
Qed.

Lemma upload_creates_once_then_updates_witness :
  let first := upload (Examples.cloud 1024) [Examples.setA] Examples.loggedIn in
  let second := upload (Examples.cloud 1024) [Examples.setA; Examples.setB]
                  (final first) in
  result first = inl ()
  ∧ final first
    = mkState (token Examples.loggedIn)
        (Some (gist_id (mkGist "g1" "" ∅)))
  ∧ (∀ req, Fetched req ∈ trace first →
       req = CreateGist "token" BACKUP_DESCRIPTION GIST_FILENAME
               (stringify (Examples.cloud 1024) [Examples.setA]))
  ∧ (∀ req, Fetched req ∈ trace second →
       req = UpdateGist "token" (gist_id (mkGist "g1" "" ∅)) GIST_FILENAME
               (stringify (Examples.cloud 1024) [Examples.setA; Examples.setB]))
  ∧ final second = final first.
Proof.
  apply (upload_creates_once_then_updates (Examples.cloud 1024)
           [Examples.setA] [Examples.setA; Examples.setB] [] []
           Examples.loggedIn "token"
           (mkResponse true 200 "" (JsonGist (mkGist "g1" "" ∅)))
           (mkGist "g1" "" ∅)).
  - reflexivity.
  - reflexivity.
  - reflexivity.
  - reflexivity.
  - simpl. lia.
  - simpl. lia.
  - reflexivity.
  - reflexivity.
  - reflexivity.
  - discriminate.
Defined.

(** ** Download: finding the backup *)

Lemma downloadGist_trace (env : Env) (tok gid : string) (st : State) :
  (∃ rest, trace (downloadGist env tok gid st)
           = Fetched (GetGist tok gid) :: rest)
  ∧ final (downloadGist env tok gid st)
    = match fetch env (GetGist tok gid) with
      | Some r => if negb (ok r) && bool_decide (status r = 404)
                  then mkState (token st) None else st
      | None => st
      end.
Proof.
  unfold downloadGist.
  destruct (fetch env (GetGist tok gid)) as [r|]; [|by eauto].
  destruct (ok r); simpl.
  - destruct (json r) as [g| | | |]; try (by eauto).
    destruct (files g !! GIST_FILENAME) as [file|]; [|by eauto].
    destruct (fileContent env tok file) as [[c|e] fx]; by eauto.
  - destruct (decide (status r = 404)) as [H404|H404].
    + rewrite bool_decide_eq_true_2 by done. by eauto.
    + rewrite bool_decide_eq_false_2 by done.
      destruct (decide (status r = 401)); by eauto.
Qed.

(** X27.  A download by a service that has no gist cached lists the user's
    gists once.  With no gist that bears the backup's description it
    returns the empty catalogue and sends nothing more; otherwise the
    first such gist is the one it fetches next, and its id is cached
    (unless the server answers that fetch with 404). *)
Theorem download_discovers_backup (env : Env) (st : State) (tok : string)
    (r : Response) (gists : list Gist) :
  present (token st) = Some tok → present (gistId st) = None →
  fetch env (ListGists tok) = Some r → ok r = true →
  json r = JsonGists gists →
  let out := download env st in
  (Forall (λ g, description g ≠ BACKUP_DESCRIPTION) gists →
     out = mkOutcome (inl []) st [Fetched (ListGists tok)])
  ∧ (∀ i g, gists !! i = Some g → description g = BACKUP_DESCRIPTION →
       (∀ j h, gists !! j = Some h → (j < i)%nat →
               description h ≠ BACKUP_DESCRIPTION) →
       gist_id g ≠ ""%string →
       (∃ rest, trace out
                = Fetched (ListGists tok)
                  :: Fetched (GetGist tok (gist_id g)) :: rest)
       ∧ final out
         = match fetch env (GetGist tok (gist_id g)) with
           | Some r' => if negb (ok r') && bool_decide (status r' = 404)
                        then mkState (token st) None
                        else mkState (token st) (Some (gist_id g))
           | None => mkState (token st) (Some (gist_id g))
           end).
Proof.
  intros Htok Hgid Hfetch Hok Hjson out. subst out. unfold download.
  rewrite Htok. unfold locate. rewrite Hgid. unfold findGistByDescription.
  rewrite Hfetch, Hok, Hjson. split.
  - intros Hnone.
    assert (list_find (λ g, description g = BACKUP_DESCRIPTION) gists = None)
      as -> by (by apply list_find_None).
    simpl. by rewrite Hgid.
  - intros i g Hi Hdesc Hfirst Hne.
    assert (list_find (λ g, description g = BACKUP_DESCRIPTION) gists
            = Some (i, g)) as -> by (by apply list_find_Some).
    cbn [result final trace gistId token]. rewrite present_Some by done.
    cbn [result final trace gistId token].
    destruct (downloadGist_trace env tok (gist_id g)
                (mkState (token st) (Some (gist_id g)))) as [[rest ->] ->].
    split; [by eexists|]. cbn [token].
    destruct (fetch env (GetGist tok (gist_id g))) as [r'|]; [|done].
    by destruct (negb (ok r') && bool_decide (status r' = 404)).
Qed.

Lemma download_discovers_backup_witness :
  let env := mkEnv (λ req, match req with
                           | ListGists _ =>
                               Some (mkResponse true 200 ""
                                       (JsonGists [mkGist "g0" "notes" ∅;
                                                   Examples.backupGist]))
                           | _ => None
                           end)
               (λ _, "[]"%string) (λ _, ParsedArray []) (λ _, 0) in
  let out := download env Examples.loggedIn in
  (Forall (λ g, description g ≠ BACKUP_DESCRIPTION)
     [mkGist "g0" "notes" ∅; Examples.backupGist] →
     out = mkOutcome (inl []) Examples.loggedIn [Fetched (ListGists "token")])
  ∧ (∀ i g, [mkGist "g0" "notes" ∅; Examples.backupGist] !! i = Some g →
       description g = BACKUP_DESCRIPTION →
       (∀ j h, [mkGist "g0" "notes" ∅; Examples.backupGist] !! j = Some h →
               (j < i)%nat → description h ≠ BACKUP_DESCRIPTION) →
       gist_id g ≠ ""%string →
       (∃ rest, trace out
                = Fetched (ListGists "token")
                  :: Fetched (GetGist "token" (gist_id g)) :: rest)
       ∧ final out
         = match fetch env (GetGist "token" (gist_id g)) with
           | Some r' => if negb (ok r') && bool_decide (status r' = 404)
                        then mkState (token Examples.loggedIn) None
                        else mkState (token Examples.loggedIn)
                               (Some (gist_id g))
           | None => mkState (token Examples.loggedIn) (Some (gist_id g))
           end).
Proof.
  apply (download_discovers_backup
           (mkEnv (λ req, match req with
                          | ListGists _ =>
                              Some (mkResponse true 200 ""
                                      (JsonGists [mkGist "g0" "notes" ∅;
                                                  Examples.backupGist]))
                          | _ => None
                          end)
              (λ _, "[]"%string) (λ _, ParsedArray []) (λ _, 0))
           Examples.loggedIn "token"
           (mkResponse true 200 ""
              (JsonGists [mkGist "g0" "notes" ∅; Examples.backupGist]))
           [mkGist "g0" "notes" ∅; Examples.backupGist]).
  - reflexivity.
  - reflexivity.
  - reflexivity.
  - reflexivity.
  - reflexivity.
Defined.

(** X28.  When the cached gist is gone (the server answers 404), the download
    returns the empty catalogue and forgets the id; the next upload then
    sends the creation of a backup, and nothing else, instead of updating
    the one that is gone. *)
Theorem download_missing_gist_forgets_id (env : Env) (st : State)
    (tok gid : string) (r : Response)
    (stickerSets parsed : list StickerSet) :
  present (token st) = Some tok → present (gistId st) = Some gid →
  fetch env (GetGist tok gid) = Some r → ok r = false → status r = 404 →
  parse env (stringify env stickerSets) = ParsedArray parsed →
  blobSize env (stringify env stickerSets) <= 10 * 1024 * 1024 →
  let out := download env st in
  out = mkOutcome (inl []) (mkState (token st) None)
          [Fetched (GetGist tok gid)]
  ∧ Fetched (CreateGist tok BACKUP_DESCRIPTION GIST_FILENAME
               (stringify env stickerSets))
    ∈ trace (upload env stickerSets (final out))
  ∧ ∀ req, Fetched req ∈ trace (upload env stickerSets (final out)) →
      req = CreateGist tok BACKUP_DESCRIPTION GIST_FILENAME
              (stringify env stickerSets).
Proof.
  intros Htok Hgid Hfetch Hok H404 Hparse Hsize out.
  assert (out = mkOutcome (inl []) (mkState (token st) None)
                  [Fetched (GetGist tok gid)]) as ->.
  { subst out. unfold download. rewrite Htok. unfold locate.
    rewrite Hgid. simpl. rewrite Hgid. unfold downloadGist.
    rewrite Hfetch, Hok. by destruct (decide (status r = 404)). }
  split; [done|]. cbn [final]. split.
  - destruct (upload_checked env stickerSets parsed
                (mkState (token st) None) tok Htok Hparse Hsize)
      as (warning & -> & _).
    cbn [trace]. rewrite send_trace. apply elem_of_app. right.
    apply list_elem_of_here.
  - intros req Hreq.
    by rewrite (upload_checked_requests env stickerSets parsed
                  (mkState (token st) None) tok req).
Qed.

Lemma download_missing_gist_forgets_id_witness :
  let env := mkEnv (λ req, match req with
                           | GetGist _ _ =>
                               Some (mkResponse false 404 "" JsonOther)
                           | _ => None
                           end)
               (λ _, "[]"%string) (λ _, ParsedArray []) (λ _, 2) in
  let out := download env Examples.synced in
  out = mkOutcome (inl []) (mkState (token Examples.synced) None)
          [Fetched (GetGist "token" "g1")]
  ∧ Fetched (CreateGist "token" BACKUP_DESCRIPTION GIST_FILENAME
               (stringify env [Examples.setA]))
    ∈ trace (upload env [Examples.setA] (final out))
  ∧ ∀ req, Fetched req ∈ trace (upload env [Examples.setA] (final out)) →
      req = CreateGist "token" BACKUP_DESCRIPTION GIST_FILENAME
              (stringify env [Examples.setA]).
Proof.
  apply (download_missing_gist_forgets_id
           (mkEnv (λ req, match req with
                          | GetGist _ _ =>
                              Some (mkResponse false 404 "" JsonOther)
                          | _ => None
                          end)
              (λ _, "[]"%string) (λ _, ParsedArray []) (λ _, 2))
           Examples.synced "token" "g1"
           (mkResponse false 404 "" JsonOther) [Examples.setA] []).
  - reflexivity.
  - reflexivity.
  - reflexivity.
  - reflexivity.
  - reflexivity.
  - reflexivity.
  - simpl. lia.
Defined.

(** X29.  Without a token (none, or the empty string) neither upload nor
    download sends anything: both fail with the login error and leave the
    service as it is.  That is the state after a logout; and a login that
    the server refuses, or that does not reach it, changes nothing. *)
Theorem without_token_nothing_is_sent (env : Env) (st : State)
    (stickerSets : list StickerSet) (tok : string) :
  (present (token st) = None →
     upload env stickerSets st = mkOutcome (inr NotLoggedIn) st []
     ∧ download env st = mkOutcome (inr NotLoggedIn) st [])
  ∧ present (token (logout st)) = None
  ∧ gistId (logout st) = None
  ∧ ((∀ r, fetch env (GetUser tok) = Some r → ok r = false) →
     login env tok st
     = mkOutcome (inr LoginFailed) st [Fetched (GetUser tok)])
  ∧ (∀ r, fetch env (GetUser tok) = Some r → ok r = true →
     login env tok st
     = mkOutcome (inl ()) (mkState (Some tok) (gistId st))
         [Fetched (GetUser tok)]).
Proof.
  split_and!; try done.
  - intros Hno. unfold upload, download. by rewrite Hno.
  - intros Hfail. unfold login.
    destruct (fetch env (GetUser tok)) as [r|]; [|done].
    by rewrite (Hfail r eq_refl).
  - intros r Hr Hok. unfold login. by rewrite Hr, Hok.
Qed.

End SyncRequests.
